(** * Fund statistics and IIROC compliance engines

    A shallow embedding of [backend/utils/financialCalculations.js] and
    [backend/utils/iirocCompliance.js], and the properties of the two engines.

    JavaScript numbers are IEEE-754 binary64 values.  The program is written
    once, over an interface of the number operations it uses, and that
    interface is instantiated twice:

    - [Binary64]: Rocq's primitive floats, the arithmetic Node runs.  Every
      definition computes there, so concrete calls are evaluated as the
      interpreter would evaluate them.
    - [Exact]: the reals extended with the two infinities and NaN.  Finite
      results are exact (no binary rounding, no overflow, one unsigned zero);
      division by zero and the other special cases follow IEEE-754.

    Statements that only follow the control flow are proved for every
    instance.  Statements that need arithmetic are proved on [Exact]; that
    the comparator of the sort is consistent on binary64 is proved from the
    specification of the binary64 subtraction and comparison.

    What the program takes from the host is a parameter of the embedding:
    the clock, [Math.pow], [Math.abs] and the sort of arrays. *)

From Stdlib Require Import ZArith List String Bool Lia.
From Stdlib Require Import Floats.
From Stdlib Require Import Reals Lra.
From Stdlib Require Import Permutation Sorted.
Import ListNotations.

Set Implicit Arguments.

(** ** JavaScript numbers *)

Module JS.

(** The operations of the Number type used by the two source files.
    [toFixed k x] is [parseFloat(x.toFixed(k))], the rounding idiom that ends
    every statistic; [floorZ x] is [Math.floor(x)] read as an integer, defined
    when [x] is finite. *)
Class Number : Type := {
  num : Type;
  of_Z : Z -> num;
  nan : num;
  add : num -> num -> num;
  sub : num -> num -> num;
  mul : num -> num -> num;
  div : num -> num -> num;
  sqrt : num -> num;
  ltb : num -> num -> bool;
  leb : num -> num -> bool;
  eqb : num -> num -> bool;
  floorZ : num -> option Z;
  toFixed : nat -> num -> num
}.

Declare Scope js_scope.
Delimit Scope js_scope with js.
Bind Scope js_scope with num.

Notation "# z" := (of_Z z%Z) (at level 5, format "# z") : js_scope.
Infix "+" := add : js_scope.
Infix "-" := sub : js_scope.
Infix "*" := mul : js_scope.
Infix "/" := div : js_scope.
Notation "x <? y" := (ltb x y) : js_scope.
Notation "x <=? y" := (leb x y) : js_scope.
Notation "x >? y" := (ltb y x) : js_scope.
Notation "x >=? y" := (leb y x) : js_scope.
Notation "x === y" := (eqb x y) (at level 70, no associativity) : js_scope.

(** A decimal literal [m * 10^-k], such as [2.5 = dec 25 1].  Both [m] and
    [10^k] are exact in binary64 for the literals of the program, so the
    quotient is the double nearest to the decimal, as the parser gives it. *)
Definition dec {N : Number} (m : Z) (k : nat) : num :=
  (of_Z m / of_Z (10 ^ Z.of_nat k))%js.

(** [!x] for a number: zero and NaN are falsy. *)
Definition falsy {N : Number} (x : num) : bool :=
  (x === #0)%js || negb (x === x)%js.

(** [Math.abs], which one function of the statistics engine calls. *)
Class MathAbs (N : Number) : Type := Math_abs : num -> num.

(** [[...xs].sort(comparefn)], the sort of the host.  The program passes it
    the comparator [(a, b) => a - b]. *)
Class ArraySort (N : Number) : Type :=
  Array_sort : (num -> num -> num) -> list num -> list num.

Section Comparator.

Context {N : Number}.

Variable comparefn : num -> num -> num.

(** [comparefn(a, b) > 0]: [a] is to come after [b]. *)
Definition sorts_after (a b : num) : bool := (comparefn a b >? #0)%js.

(** [comparefn(a, b) < 0]: [a] is to come before [b]. *)
Definition sorts_before (a b : num) : bool := (comparefn a b <? #0)%js.

(** A consistent comparator for the elements of [xs], as ECMAScript asks of
    the argument of [sort]: the two outcomes mirror each other, no element
    comes after itself, and coming after, and not coming after, are both
    transitive.  A result of the comparator that is NaN counts as 0, as the
    sort reads it.  The conditions of ECMAScript (equivalence classes in a
    total order) follow from these. *)
Definition consistent_comparator (xs : list num) : Prop :=
  forall a b c : num,
    In a xs -> In b xs -> In c xs ->
    sorts_after a a = false
    /\ sorts_before a b = sorts_after b a
    /\ (sorts_after a b = true -> sorts_after b c = true ->
        sorts_after a c = true)
    /\ (sorts_after a b = false -> sorts_after b c = false ->
        sorts_after a c = false).

End Comparator.

(** What the program relies on: the sort rearranges the elements, and with a
    consistent comparator no element of the result comes after a later one.
    With a comparator that is not consistent, as [(a, b) => a - b] is on an
    array that holds NaN, the order is implementation-defined and nothing is
    assumed of it. *)
Class SortConforms {N : Number} (S : ArraySort N) : Prop := {
  sort_rearranges :
    forall (comparefn : num -> num -> num) (xs : list num),
      Permutation xs (Array_sort comparefn xs);
  sort_orders :
    forall (comparefn : num -> num -> num) (xs : list num),
      consistent_comparator comparefn xs ->
      StronglySorted (fun a b => sorts_after comparefn a b = false)
        (Array_sort comparefn xs)
}.

(** [s.toLowerCase()] on a string of bytes: the letters [A] to [Z] become
    [a] to [z] and every other byte is kept.  The interpreter also lowers
    letters outside ASCII, to letters outside ASCII with two exceptions
    (the Kelvin sign, lowered to [k], and the dotted capital I, lowered to
    [i] followed by a combining dot); neither can produce one of the three
    measure names the engine compares the result with. *)
Definition toLowerCase_ascii (c : Ascii.ascii) : Ascii.ascii :=
  let n := Ascii.nat_of_ascii c in
  if Nat.leb 65 n && Nat.leb n 90 then Ascii.ascii_of_nat (n + 32) else c.

Fixpoint toLowerCase (s : string) : string :=
  match s with
  | EmptyString => EmptyString
  | String c rest => String (toLowerCase_ascii c) (toLowerCase rest)
  end.

(** What the engines rely on when an input is NaN: NaN propagates through
    the arithmetic and through the final rounding, and every comparison with
    NaN is false.  Both instances below satisfy it. *)
Class NaNPropagation (N : Number) : Prop := {
  add_nan_l : forall x : num, (nan + x)%js = nan;
  add_nan_r : forall x : num, (x + nan)%js = nan;
  sub_nan_r : forall x : num, (x - nan)%js = nan;
  mul_nan_nan : (nan * nan)%js = nan;
  div_nan_l : forall x : num, (nan / x)%js = nan;
  div_nan_r : forall x : num, (x / nan)%js = nan;
  sqrt_nan : sqrt nan = nan;
  ltb_nan_l : forall x : num, (nan <? x)%js = false;
  ltb_nan_r : forall x : num, (x <? nan)%js = false;
  leb_nan_l : forall x : num, (nan <=? x)%js = false;
  eqb_nan_l : forall x : num, (nan === x)%js = false;
  toFixed_nan : forall k : nat, toFixed k nan = nan
}.

End JS.

(** ** Binary64 instance *)

Module Binary64.

Import JS.

(** The double nearest to an integer. *)
Definition Z2F (z : Z) : float :=
  SF2Prim (binary_normalize prec emax z 0 false).

(** [Math.floor], exact on the binary expansion [m * 2^e]. *)
Definition floorZ (x : float) : option Z :=
  match Prim2SF x with
  | S754_zero _ => Some 0%Z
  | S754_finite s m e =>
      let sm := if s then Zneg m else Zpos m in
      Some (if (0 <=? e)%Z then sm * 2 ^ e else Z.shiftr sm (- e))%Z
  | _ => None
  end.

(** [parseFloat(x.toFixed(k))].  ECMAScript's [toFixed] takes the integer [n]
    nearest to [|x| * 10^k] (the larger one on a tie), prints [n / 10^k] with
    the sign of [x], and falls back to [ToString] from [1e21] on; [parseFloat]
    reads the decimal back as the nearest double.  A negative [x] that rounds
    to zero prints as [-0.00] and parses to negative zero. *)
Definition toFixed (k : nat) (x : float) : float :=
  match Prim2SF x with
  | S754_zero _ => zero
  | S754_finite s m e =>
      if PrimFloat.leb (Z2F (10 ^ 21)) (abs x) then x
      else
        let p := (10 ^ Z.of_nat k)%Z in
        let n := (if 0 <=? e then Zpos m * 2 ^ e * p
                  else (2 * (Zpos m * p) + 2 ^ (- e)) / (2 * 2 ^ (- e)))%Z in
        match n with
        | Zpos n' =>
            SF2Prim (SFdiv prec emax (S754_finite s n' 0)
                                     (S754_finite false (Z.to_pos p) 0))
        | _ => if s then neg_zero else zero
        end
  | _ => x
  end.

#[export] Instance number : Number :=
  Build_Number Z2F PrimFloat.nan
    PrimFloat.add PrimFloat.sub PrimFloat.mul PrimFloat.div PrimFloat.sqrt
    PrimFloat.ltb PrimFloat.leb PrimFloat.eqb
    floorZ toFixed.

(** The sign of a rounded result, for the analysis of the subtraction:
    [sign_is s r] when [r] is NaN or carries the sign [s]. *)
Definition sign_is (s : bool) (r : spec_float) : Prop :=
  match r with
  | S754_zero s' | S754_infinity s' | S754_finite s' _ _ => s' = s
  | S754_nan => True
  end.

(** A rounded result that is neither a zero nor NaN. *)
Definition nonzero (r : spec_float) : Prop :=
  match r with
  | S754_infinity _ | S754_finite _ _ _ => True
  | _ => False
  end.

(** The worth of a number in units of the smallest positive double, for the
    comparison of two numbers: an integer for a finite value, beyond every
    finite value for an infinity (and 0 for NaN, which is not compared). *)
Definition rank (x : spec_float) : Z :=
  match x with
  | S754_zero _ | S754_nan => 0
  | S754_infinity s => cond_Zopp s (2 ^ 2098)
  | S754_finite s m e => cond_Zopp s (Zpos m * 2 ^ (e + 1074))
  end%Z.

(** [x] is not above [y]; between numbers that are not NaN this is [x <= y]. *)
Definition not_above (x y : float) : Prop := PrimFloat.ltb y x = false.

Definition at_most (x y : float) : Prop := PrimFloat.leb x y = true.

Definition is_number (x : float) : Prop := PrimFloat.eqb x x = true.

#[export] Instance math_abs : MathAbs number := PrimFloat.abs.

End Binary64.

(** ** Exact instance *)

Module Exact.

Import JS.

Inductive xreal : Type :=
| Fin (r : R)
| Inf (negative : bool)
| NaN.

Definition Rltb (a b : R) : bool := if Rlt_dec a b then true else false.
Definition Rleb (a b : R) : bool := if Rle_dec a b then true else false.
Definition Reqb (a b : R) : bool := if Req_dec_T a b then true else false.

Definition neg (x : xreal) : xreal :=
  match x with
  | Fin a => Fin (- a)
  | Inf s => Inf (negb s)
  | NaN => NaN
  end.

Definition add (x y : xreal) : xreal :=
  match x, y with
  | Fin a, Fin b => Fin (a + b)
  | Fin _, Inf s | Inf s, Fin _ => Inf s
  | Inf s, Inf t => if Bool.eqb s t then Inf s else NaN
  | _, _ => NaN
  end.

Definition sub (x y : xreal) : xreal := add x (neg y).

Definition mul (x y : xreal) : xreal :=
  match x, y with
  | Fin a, Fin b => Fin (a * b)
  | Fin a, Inf s | Inf s, Fin a =>
      if Reqb a 0 then NaN else Inf (xorb s (Rltb a 0))
  | Inf s, Inf t => Inf (xorb s t)
  | _, _ => NaN
  end.

Definition div (x y : xreal) : xreal :=
  match x, y with
  | Fin a, Fin b =>
      if Reqb b 0 then (if Reqb a 0 then NaN else Inf (Rltb a 0))
      else Fin (a / b)
  | Fin _, Inf _ => Fin 0
  | Inf s, Fin b => Inf (xorb s (Rltb b 0))
  | _, _ => NaN
  end.

Definition sqrt (x : xreal) : xreal :=
  match x with
  | Fin a => if Rltb a 0 then NaN else Fin (R_sqrt.sqrt a)
  | Inf false => Inf false
  | _ => NaN
  end.

Definition ltb (x y : xreal) : bool :=
  match x, y with
  | Fin a, Fin b => Rltb a b
  | Fin _, Inf s => negb s
  | Inf s, Fin _ => s
  | Inf s, Inf t => s && negb t
  | _, _ => false
  end.

Definition leb (x y : xreal) : bool :=
  match x, y with
  | Fin a, Fin b => Rleb a b
  | Fin _, Inf s => negb s
  | Inf s, Fin _ => s
  | Inf s, Inf t => s || negb t
  | _, _ => false
  end.

Definition eqb (x y : xreal) : bool :=
  match x, y with
  | Fin a, Fin b => Reqb a b
  | Inf s, Inf t => Bool.eqb s t
  | _, _ => false
  end.

Definition floorZ (x : xreal) : option Z :=
  match x with
  | Fin a => Some (Int_part a)
  | _ => None
  end.

(** Rounding to [k] decimals, half away from zero, on the exact value. *)
Definition round_dec (k : nat) (a : R) : R :=
  let p := IZR (10 ^ Z.of_nat k) in
  let n := IZR (Int_part (Rabs a * p + / 2)) in
  if Rltb a 0 then - (n / p) else n / p.

Definition toFixed (k : nat) (x : xreal) : xreal :=
  match x with
  | Fin a => if Rleb (IZR (10 ^ 21)) (Rabs a) then x else Fin (round_dec k a)
  | _ => x
  end.

#[export] Instance number : Number :=
  Build_Number (fun z => Fin (IZR z)) NaN
    add sub mul div sqrt ltb leb eqb floorZ toFixed.

Definition abs (x : xreal) : xreal :=
  match x with
  | Fin a => Fin (Rabs a)
  | Inf _ => Inf false
  | NaN => NaN
  end.

#[export] Instance math_abs : MathAbs number := abs.

End Exact.

(** ** Results of a call *)

(** [Error msg] is [throw new Error(msg)]; [TypeError] is the exception the
    interpreter raises when a method is called on [undefined]. *)
Inductive JSError : Type :=
| Error (msg : string)
| TypeError.

Inductive result (A : Type) : Type :=
| Return (a : A)
| Throw (e : JSError).

Arguments Return {A} a.
Arguments Throw {A} e.

Definition bind {A B : Type} (r : result A) (k : A -> result B) : result B :=
  match r with
  | Return a => k a
  | Throw e => Throw e
  end.

Notation "x <- r ;; k" := (bind r (fun x => k))
  (at level 61, r at next level, right associativity).

Definition raises {A : Type} (r : result A) : Prop :=
  match r with
  | Return _ => False
  | Throw _ => True
  end.

(** ** financialCalculations.js *)

Module FinancialCalculations.

Import JS.
Local Open Scope js_scope.

Section Statistics.

Context {N : Number} {S : ArraySort N}.

(** [xs.length] as a number. *)
Definition length_of {A : Type} (xs : list A) : num :=
  of_Z (Z.of_nat (List.length xs)).

(** [xs.reduce((sum, ret) => sum + ret, 0)] *)
Definition sum_of (xs : list num) : num :=
  fold_left (fun sum ret => sum + ret) xs #0.

(** [Math.pow(x, 2)]: the square is computed as the product [x * x]. *)
Definition pow2 (x : num) : num := x * x.

Definition calculatePROR
    (beginningValue endingValue contributions withdrawals timePeriod : num)
    : result num :=
  if beginningValue <=? #0 then
    Throw (Error "Beginning value must be greater than zero")
  else
    let netCashFlow := contributions - withdrawals in
    let weightedContributions := contributions * (timePeriod / #12) in
    let denominator := beginningValue + weightedContributions in
    if denominator <=? #0 then
      Throw (Error "Invalid calculation parameters")
    else
      let pror :=
        ((endingValue - beginningValue - netCashFlow) / denominator) * #100 in
      Return (toFixed 2 pror).

Section AnnualizedReturn.

(** [Math.pow] with an arbitrary exponent is a library function of the host;
    it is a parameter of the one function that calls it. *)
Variable Math_pow : num -> num -> num.

Definition calculateAnnualizedReturn (returns : list num) (timePeriod : num)
    : num :=
  if Nat.eqb (List.length returns) 0 then #0
  else
    let totalReturn :=
      fold_left (fun sum ret => sum + (#1 + ret / #100)) returns #1 in
    let annualizedReturn := Math_pow totalReturn (#12 / timePeriod) - #1 in
    toFixed 2 (annualizedReturn * #100).

End AnnualizedReturn.

Definition calculateSharpeRatio (returns : list num) (riskFreeRate : num)
    : num :=
  if Nat.eqb (List.length returns) 0 then #0
  else
    let avgReturn := sum_of returns / length_of returns in
    let variance :=
      fold_left (fun sum ret => sum + pow2 (ret - avgReturn)) returns #0
      / length_of returns in
    let stdDev := sqrt variance in
    if stdDev === #0 then #0
    else
      let sharpeRatio := (avgReturn - riskFreeRate) / stdDev in
      toFixed 3 sharpeRatio.

(** One iteration of the loop of [calculateMaxDrawdown] on the state
    [(maxDrawdown, peak)]. *)
Definition drawdown_step (st : num * num) (v : num) : num * num :=
  let '(maxDrawdown, peak) := st in
  if v >? peak then (maxDrawdown, v)
  else
    let drawdown := (peak - v) / peak in
    if drawdown >? maxDrawdown then (drawdown, peak) else (maxDrawdown, peak).

Definition calculateMaxDrawdown (navValues : list num) : num :=
  match navValues with
  | [] => #0
  | first :: rest =>
      let '(maxDrawdown, _) := fold_left drawdown_step rest (#0, first) in
      toFixed 2 (maxDrawdown * #100)
  end.

Definition calculateVolatility (returns : list num) : num :=
  if Nat.eqb (List.length returns) 0 then #0
  else
    let avgReturn := sum_of returns / length_of returns in
    let variance :=
      fold_left (fun sum ret => sum + pow2 (ret - avgReturn)) returns #0
      / length_of returns in
    let volatility := sqrt variance in
    toFixed 2 volatility.

(** One iteration of the loop of [calculateBeta] on the accumulators
    [(covariance, benchmarkVariance)]; the two arrays have the same length
    there, so the loop over the index runs over the pairs. *)
Definition beta_step (fundAvg benchmarkAvg : num) (acc : num * num)
    (p : num * num) : num * num :=
  let '(covariance, benchmarkVariance) := acc in
  let '(fund_i, benchmark_i) := p in
  let fundDiff := fund_i - fundAvg in
  let benchmarkDiff := benchmark_i - benchmarkAvg in
  (covariance + fundDiff * benchmarkDiff,
   benchmarkVariance + benchmarkDiff * benchmarkDiff).

Definition calculateBeta (fundReturns benchmarkReturns : list num) : num :=
  if negb (Nat.eqb (List.length fundReturns) (List.length benchmarkReturns))
     || Nat.eqb (List.length fundReturns) 0
  then #1
  else
    let fundAvg := sum_of fundReturns / length_of fundReturns in
    let benchmarkAvg := sum_of benchmarkReturns / length_of benchmarkReturns in
    let '(covariance, benchmarkVariance) :=
      fold_left (beta_step fundAvg benchmarkAvg)
        (combine fundReturns benchmarkReturns) (#0, #0) in
    let covariance := covariance / length_of fundReturns in
    let benchmarkVariance := benchmarkVariance / length_of benchmarkReturns in
    if benchmarkVariance === #0 then #1
    else
      let beta := covariance / benchmarkVariance in
      toFixed 3 beta.

(** One iteration of the loop of [calculateCorrelation] on
    [(numerator, denominator1, denominator2)]. *)
Definition correlation_step (avg1 avg2 : num) (acc : num * num * num)
    (p : num * num) : num * num * num :=
  let '(numerator, denominator1, denominator2) := acc in
  let '(r1, r2) := p in
  let diff1 := r1 - avg1 in
  let diff2 := r2 - avg2 in
  (numerator + diff1 * diff2,
   denominator1 + diff1 * diff1,
   denominator2 + diff2 * diff2).

Definition calculateCorrelation (returns1 returns2 : list num) : num :=
  if negb (Nat.eqb (List.length returns1) (List.length returns2))
     || Nat.eqb (List.length returns1) 0
  then #0
  else
    let avg1 := sum_of returns1 / length_of returns1 in
    let avg2 := sum_of returns2 / length_of returns2 in
    let '(numerator, denominator1, denominator2) :=
      fold_left (correlation_step avg1 avg2)
        (combine returns1 returns2) (#0, #0, #0) in
    let denominator := sqrt (denominator1 * denominator2) in
    if denominator === #0 then #0
    else
      let correlation := numerator / denominator in
      toFixed 3 correlation.

Definition calculateInformationRatio (fundReturns benchmarkReturns : list num)
    : num :=
  if negb (Nat.eqb (List.length fundReturns) (List.length benchmarkReturns))
     || Nat.eqb (List.length fundReturns) 0
  then #0
  else
    let excessReturns :=
      map (fun p => fst p - snd p) (combine fundReturns benchmarkReturns) in
    let avgExcessReturn := sum_of excessReturns / length_of excessReturns in
    let trackingError := calculateVolatility excessReturns in
    if trackingError === #0 then #0
    else
      let informationRatio := avgExcessReturn / trackingError in
      toFixed 3 informationRatio.

Definition calculateSortinoRatio (returns : list num) (riskFreeRate : num)
    : num :=
  if Nat.eqb (List.length returns) 0 then #0
  else
    let avgReturn := sum_of returns / length_of returns in
    let downsideReturns := filter (fun ret => ret <? avgReturn) returns in
    if Nat.eqb (List.length downsideReturns) 0 then #0
    else
      let downsideVariance :=
        fold_left (fun sum ret => sum + pow2 (ret - avgReturn))
          downsideReturns #0
        / length_of returns in
      let downsideDeviation := sqrt downsideVariance in
      if downsideDeviation === #0 then #0
      else
        let sortinoRatio := (avgReturn - riskFreeRate) / downsideDeviation in
        toFixed 3 sortinoRatio.

Definition calculateTreynorRatio (returns benchmarkReturns : list num)
    (riskFreeRate : num) : num :=
  let beta := calculateBeta returns benchmarkReturns in
  if beta === #0 then #0
  else
    let avgReturn := sum_of returns / length_of returns in
    let treynorRatio := (avgReturn - riskFreeRate) / beta in
    toFixed 3 treynorRatio.

Definition calculateJensensAlpha (fundReturns benchmarkReturns : list num)
    (riskFreeRate : num) : num :=
  let beta := calculateBeta fundReturns benchmarkReturns in
  let fundAvgReturn := sum_of fundReturns / length_of fundReturns in
  let benchmarkAvgReturn :=
    sum_of benchmarkReturns / length_of benchmarkReturns in
  let expectedReturn :=
    riskFreeRate + beta * (benchmarkAvgReturn - riskFreeRate) in
  let alpha := fundAvgReturn - expectedReturn in
  toFixed 2 alpha.

(** [[...xs].sort((a, b) => a - b)] *)
Definition sort_ascending (xs : list num) : list num :=
  Array_sort (fun a b => a - b) xs.

(** [xs[Math.floor(x)]]: [None] is [undefined], the value of an index outside
    the array. *)
Definition at_floor (xs : list num) (x : num) : option num :=
  match floorZ x with
  | Some i => if (i <? 0)%Z then None else nth_error xs (Z.to_nat i)
  | None => None
  end.

Definition calculateVaR (returns : list num) (confidenceLevel : num)
    : result num :=
  if Nat.eqb (List.length returns) 0 then Return #0
  else
    let sortedReturns := sort_ascending returns in
    match at_floor sortedReturns ((#1 - confidenceLevel) * length_of returns)
    with
    | Some varValue => Return (toFixed 2 varValue)
    | None => Throw TypeError
    end.

Definition calculateCVaR (returns : list num) (confidenceLevel : num)
    : result num :=
  if Nat.eqb (List.length returns) 0 then Return #0
  else
    varValue <- calculateVaR returns confidenceLevel ;;
    let tailReturns := filter (fun ret => ret <=? varValue) returns in
    if Nat.eqb (List.length tailReturns) 0 then Return varValue
    else
      let cvarValue := sum_of tailReturns / length_of tailReturns in
      Return (toFixed 2 cvarValue).

Definition calculateConcentrationRisk (allocations : list num) : num :=
  if Nat.eqb (List.length allocations) 0 then #0
  else
    let totalAllocation := sum_of allocations in
    if totalAllocation === #0 then #0
    else
      let hhi :=
        fold_left
          (fun sum alloc =>
             let weight := alloc / totalAllocation in sum + pow2 weight)
          allocations #0 in
      let concentrationRisk := hhi * #100 in
      toFixed 2 concentrationRisk.

End Statistics.

(** The default arguments of the source. *)
Definition riskFreeRate_default {N : Number} : num := dec 25 1.
Definition confidenceLevel_default {N : Number} : num := dec 95 2.

Section RiskAdjustedReturn.

Context {N : Number}.

(** [calculateBeta(fundReturns, benchmarkReturns)] in a call that may leave
    the second array out: the parameter is then [undefined] ([None]), and the
    first statement of the function reads [benchmarkReturns.length]. *)
Definition calculateBeta_of (fundReturns : list num)
    (benchmarkReturns : option (list num)) : result num :=
  match benchmarkReturns with
  | Some benchmarkReturns => Return (calculateBeta fundReturns benchmarkReturns)
  | None => Throw TypeError
  end.

(** [calculateTreynorRatio(returns, benchmarkReturns, riskFreeRate)], the
    second array possibly left out. *)
Definition calculateTreynorRatio_of (returns : list num)
    (benchmarkReturns : option (list num)) (riskFreeRate : num)
    : result num :=
  beta <- calculateBeta_of returns benchmarkReturns ;;
  if beta === #0 then Return #0
  else
    let avgReturn := sum_of returns / length_of returns in
    let treynorRatio := (avgReturn - riskFreeRate) / beta in
    Return (toFixed 3 treynorRatio).

Definition riskMeasure_default : string := "sharpe".

(** The three calls of the [switch] pass [returns] alone: the risk-free rate
    takes its default, and [calculateTreynorRatio] gets no benchmark. *)
Definition calculateRiskAdjustedReturn (returns : list num)
    (riskMeasure : string) : result num :=
  let measure := toLowerCase riskMeasure in
  if String.eqb measure "sharpe" then
    Return (calculateSharpeRatio returns riskFreeRate_default)
  else if String.eqb measure "sortino" then
    Return (calculateSortinoRatio returns riskFreeRate_default)
  else if String.eqb measure "treynor" then
    calculateTreynorRatio_of returns None riskFreeRate_default
  else Return (calculateSharpeRatio returns riskFreeRate_default).

End RiskAdjustedReturn.

Section Diversification.

Context {N : Number} {A : MathAbs N}.

Definition calculateDiversificationRatio (returns weights : list num) : num :=
  if negb (Nat.eqb (List.length returns) (List.length weights))
     || Nat.eqb (List.length returns) 0
  then #1
  else
    let portfolioReturn :=
      fold_left (fun sum p => sum + fst p * snd p)
        (combine returns weights) #0 in
    let portfolioVolatility := calculateVolatility [portfolioReturn] in
    let weightedVolatility :=
      fold_left (fun sum p => sum + Math_abs (fst p) * snd p)
        (combine returns weights) #0 in
    if weightedVolatility === #0 then #1
    else
      let diversificationRatio := weightedVolatility / portfolioVolatility in
      toFixed 3 diversificationRatio.

End Diversification.

End FinancialCalculations.

(** ** The host's [Date] *)

(** Both engines read the clock through [new Date()].  What they observe is
    kept in a record that every operation reading the clock takes as an
    argument: the local calendar year and the ISO timestamp of the current
    instant, and the local calendar year of a date string ([None] is the NaN
    of an invalid date). *)
Record Host : Type := {
  now_getFullYear : Z;
  now_toISOString : string;
  date_getFullYear : string -> option Z
}.

(** ** iirocCompliance.js *)

Module IIROCCompliance.

Import JS.
Import FinancialCalculations.
Local Open Scope string_scope.
Local Open Scope list_scope.
Local Open Scope js_scope.

(** Every check returns an object with a [compliant] field. *)
Class CheckResult (A : Type) : Type := compliant : A -> bool.

Section Compliance.

Context {N : Number}.

(** A row of the [funds] table.  An absent field is [None]; read as a number
    it is NaN, as [undefined] is. *)
Record FundData : Type := {
  fund_type : option string;
  management_fee : option num;
  expense_ratio : option num;
  inception_date : option string
}.

(** A row of the [fund_performance] table. *)
Record PerformanceRow : Type := {
  nav : num;
  total_return : num;
  benchmark_return : num;
  assets_under_management : num
}.

(** A row of the [alternative_investments] table. *)
Record AlternativeInvestment : Type := {
  investment_type : string;
  allocation_percentage : num;
  risk_rating : Z
}.

Definition number_of (field : option num) : num :=
  match field with
  | Some x => x
  | None => nan
  end.

(** [!fundData[field]] *)
Definition field_missing (fundData : FundData) (field : string) : bool :=
  if String.eqb field "fund_type" then
    match fund_type fundData with
    | Some s => String.eqb s ""
    | None => true
    end
  else if String.eqb field "management_fee" then
    match management_fee fundData with
    | Some x => falsy x
    | None => true
    end
  else if String.eqb field "expense_ratio" then
    match expense_ratio fundData with
    | Some x => falsy x
    | None => true
    end
  else if String.eqb field "inception_date" then
    match inception_date fundData with
    | Some s => String.eqb s ""
    | None => true
    end
  else true.

(** *** Concentration limits *)

Record ConcentrationViolation : Type := {
  violation_type : string;
  violation_allocation : num;
  violation_limit : num
}.

Record ConcentrationLimits : Type := {
  concentration_compliant : bool;
  concentrationRisk : num;
  concentration_violations : list ConcentrationViolation;
  totalAlternativeAllocation : num
}.

#[export] Instance ConcentrationLimits_check
    : CheckResult ConcentrationLimits :=
  concentration_compliant.

Definition checkConcentrationLimits
    (alternativeInvestments : list AlternativeInvestment)
    : ConcentrationLimits :=
  let maxConcentration := #20 in
  let totalAllocation :=
    fold_left (fun sum inv => sum + allocation_percentage inv)
      alternativeInvestments #0 in
  let violations :=
    filter (fun inv => allocation_percentage inv >? maxConcentration)
      alternativeInvestments in
  let concentrationRisk :=
    calculateConcentrationRisk
      (map allocation_percentage alternativeInvestments) in
  {| concentration_compliant := Nat.eqb (List.length violations) 0;
     concentrationRisk := concentrationRisk;
     concentration_violations :=
       map (fun v => {| violation_type := investment_type v;
                        violation_allocation := allocation_percentage v;
                        violation_limit := maxConcentration |}) violations;
     totalAlternativeAllocation := totalAllocation |}.

(** *** Risk score *)

(** The values of the computation of the risk score: a number, which is an
    integer here, or a value that is not a number.  The latter is in turn a
    function or an object read from the table, the string that [+=] builds
    once an operand is one (["0function Object() { [native code] }"], then
    that string followed by the digits of the points added to it), and the
    NaN that [Math.min] makes of such a string. *)
Inductive RiskScore : Type :=
| Score (points : Z)
| NotANumber.

Coercion Score : Z >-> RiskScore.

(** [riskScore += value]: the sum of two numbers, and otherwise the
    concatenation of two strings, which spells no number. *)
Definition plus (riskScore value : RiskScore) : RiskScore :=
  match riskScore, value with
  | Score n, Score k => Score (n + k)
  | _, _ => NotANumber
  end.

(** The object literal [fundTypeRisk], in the order of the source. *)
Definition fundTypeRisk : list (string * Z) :=
  [ ("Fixed Income", 2); ("Balanced", 4); ("Canadian Equity", 6);
    ("Global Equity", 7); ("Alternative", 9); ("Sector", 8);
    ("Real Estate", 7) ]%Z.

Fixpoint property (table : list (string * Z)) (key : string) : option Z :=
  match table with
  | [] => None
  | (k, v) :: rest => if String.eqb k key then Some v else property rest key
  end.

(** The properties every object inherits from [Object.prototype]: the
    methods of ECMAScript and of its annex B, and the accessor [__proto__].
    Read from an object literal that does not define them, each is a function
    ([__proto__] is the prototype object itself), which is truthy and is not a
    number. *)
Definition Object_prototype : list string :=
  [ "constructor"; "__defineGetter__"; "__defineSetter__"; "hasOwnProperty";
    "__lookupGetter__"; "__lookupSetter__"; "isPrototypeOf";
    "propertyIsEnumerable"; "toString"; "valueOf"; "__proto__";
    "toLocaleString" ].

Definition inherited (key : string) : bool :=
  existsb (String.eqb key) Object_prototype.

(** [fundTypeRisk[fundData.fund_type] || 5]: the entry of the table; for a
    key the table does not have, the inherited property when there is one,
    and otherwise [undefined], which [||] replaces by 5.  An absent type
    reads the key [undefined], which is neither in the table nor
    inherited. *)
Definition fundTypeRisk_or_5 (type : option string) : RiskScore :=
  match type with
  | Some t =>
      match property fundTypeRisk t with
      | Some v => if (v =? 0)%Z then Score 5 else Score v
      | None => if inherited t then NotANumber else Score 5
      end
  | None => Score 5
  end.

(** [new Date().getFullYear()
     - new Date(fundData.inception_date).getFullYear()]; [None] is NaN. *)
Definition fundAge (host : Host) (fundData : FundData) : option Z :=
  match inception_date fundData with
  | Some d =>
      match date_getFullYear host d with
      | Some y => Some (now_getFullYear host - y)%Z
      | None => None
      end
  | None => None
  end.

(** [Math.min(riskScore, 10)]: NaN when [riskScore] is not a number. *)
Definition Math_min_10 (riskScore : RiskScore) : RiskScore :=
  match riskScore with
  | Score n => Score (Z.min n 10)
  | NotANumber => NotANumber
  end.

Definition calculateRiskScore (host : Host) (fundData : FundData)
    : RiskScore :=
  let riskScore := Score 0 in
  let riskScore := plus riskScore (fundTypeRisk_or_5 (fund_type fundData)) in
  let riskScore :=
    if number_of (expense_ratio fundData) >? #2 then plus riskScore 2%Z
    else if number_of (expense_ratio fundData) >? dec 15 1
    then plus riskScore 1%Z
    else riskScore in
  let riskScore :=
    match fundAge host fundData with
    | Some age =>
        if (age <? 3)%Z then plus riskScore 2%Z
        else if (age <? 5)%Z then plus riskScore 1%Z
        else riskScore
    | None => riskScore
    end in
  Math_min_10 riskScore.

(** Every comparison with NaN is false, so a score that is not a number
    falls through to the last level. *)
Definition getRiskLevel (riskScore : RiskScore) : string :=
  match riskScore with
  | Score n =>
      if (n <=? 3)%Z then "Low"
      else if (n <=? 5)%Z then "Low-Medium"
      else if (n <=? 7)%Z then "Medium"
      else if (n <=? 9)%Z then "Medium-High"
      else "High"
  | NotANumber => "High"
  end.

(** *** Risk disclosure *)

Record RiskDisclosure : Type := {
  risk_compliant : bool;
  riskScore : RiskScore;
  missingDisclosures : list string;
  riskLevel : string
}.

#[export] Instance RiskDisclosure_check : CheckResult RiskDisclosure :=
  risk_compliant.

Definition checkRiskDisclosure (host : Host) (fundData : FundData)
    : RiskDisclosure :=
  let requiredDisclosures :=
    ["fund_type"; "management_fee"; "expense_ratio"; "inception_date"] in
  let missingDisclosures :=
    filter (fun field => field_missing fundData field) requiredDisclosures in
  let riskScore := calculateRiskScore host fundData in
  {| risk_compliant := Nat.eqb (List.length missingDisclosures) 0;
     riskScore := riskScore;
     missingDisclosures := missingDisclosures;
     riskLevel := getRiskLevel riskScore |}.

(** *** Performance reporting *)

Inductive PerformanceReporting : Type :=
| PerformanceUnavailable (reason : string)
| PerformanceSummary (is_compliant : bool) (volatility maxDrawdown : num)
    (dataPoints : nat) (hasRequiredPeriods : bool).

#[export] Instance PerformanceReporting_check
    : CheckResult PerformanceReporting :=
  fun r =>
    match r with
    | PerformanceUnavailable _ => false
    | PerformanceSummary c _ _ _ _ => c
    end.

Definition checkPerformanceReporting (performanceData : list PerformanceRow)
    : PerformanceReporting :=
  if Nat.eqb (List.length performanceData) 0 then
    PerformanceUnavailable "No performance data available"
  else
    let hasRequiredPeriods := Nat.leb 12 (List.length performanceData) in
    let volatility :=
      calculateVolatility (map total_return performanceData) in
    let maxDrawdown := calculateMaxDrawdown (map nav performanceData) in
    PerformanceSummary hasRequiredPeriods volatility maxDrawdown
      (List.length performanceData) hasRequiredPeriods.

(** *** Fee disclosure *)

(** The three messages of [feeViolations], each with the two numbers its
    template string prints. *)
Inductive FeeViolation : Type :=
| ManagementFeeExceedsMaximum (fee maximum : num)
| ExpenseRatioExceedsMaximum (ratio maximum : num)
| TotalFeesExceedMaximum (total maximum : num).

Record FeeDisclosure : Type := {
  fee_compliant : bool;
  fee_violations : list FeeViolation;
  totalFees : num;
  managementFee : option num;
  expenseRatio : option num
}.

#[export] Instance FeeDisclosure_check : CheckResult FeeDisclosure :=
  fee_compliant.

Definition checkFeeDisclosure (fundData : FundData) : FeeDisclosure :=
  let maxManagementFee := dec 25 1 in
  let maxExpenseRatio := #3 in
  let feeViolations := [] in
  let feeViolations :=
    if number_of (management_fee fundData) >? maxManagementFee then
      feeViolations ++
      [ManagementFeeExceedsMaximum (number_of (management_fee fundData))
         maxManagementFee]
    else feeViolations in
  let feeViolations :=
    if number_of (expense_ratio fundData) >? maxExpenseRatio then
      feeViolations ++
      [ExpenseRatioExceedsMaximum (number_of (expense_ratio fundData))
         maxExpenseRatio]
    else feeViolations in
  let totalFees :=
    number_of (management_fee fundData) + number_of (expense_ratio fundData) in
  let maxTotalFees := #4 in
  let feeViolations :=
    if totalFees >? maxTotalFees then
      feeViolations ++ [TotalFeesExceedMaximum totalFees maxTotalFees]
    else feeViolations in
  {| fee_compliant := Nat.eqb (List.length feeViolations) 0;
     fee_violations := feeViolations;
     totalFees := totalFees;
     managementFee := management_fee fundData;
     expenseRatio := expense_ratio fundData |}.

(** *** Liquidity requirements *)

Definition calculateAverageDailyVolume (performanceData : list PerformanceRow)
    : num :=
  if Nat.ltb (List.length performanceData) 2 then #0
  else
    let totalAUM :=
      fold_left (fun sum p => sum + assets_under_management p)
        performanceData #0 in
    let avgAUM := totalAUM / length_of performanceData in
    avgAUM * dec 1 2.

Inductive LiquidityRequirements : Type :=
| LiquidityUnavailable (reason : string)
| LiquiditySummary (is_compliant : bool)
    (aum minAUM liquidityRatio avgDailyVolume : num).

#[export] Instance LiquidityRequirements_check
    : CheckResult LiquidityRequirements :=
  fun r =>
    match r with
    | LiquidityUnavailable _ => false
    | LiquiditySummary c _ _ _ _ => c
    end.

Definition checkLiquidityRequirements (fundData : FundData)
    (performanceData : list PerformanceRow) : LiquidityRequirements :=
  match performanceData with
  | [] => LiquidityUnavailable "Insufficient data for liquidity analysis"
  | first :: rest =>
      let recentAUM := assets_under_management (last rest first) in
      let minAUM := #10000000 in
      let avgDailyVolume := calculateAverageDailyVolume performanceData in
      let liquidityRatio := recentAUM / avgDailyVolume in
      LiquiditySummary
        ((recentAUM >=? minAUM) && (liquidityRatio <=? #30))
        recentAUM minAUM liquidityRatio avgDailyVolume
  end.

(** *** The aggregate verdict *)

Record ComplianceChecks : Type := {
  concentrationLimits : ConcentrationLimits;
  riskDisclosure : RiskDisclosure;
  performanceReporting : PerformanceReporting;
  feeDisclosure : FeeDisclosure;
  liquidityRequirements : LiquidityRequirements;
  overallCompliant : bool;
  warnings : list string;
  violations : list string
}.

(** The three assignments the aggregation makes to the object it returns. *)
Definition set_overallCompliant (b : bool) (c : ComplianceChecks)
    : ComplianceChecks :=
  {| concentrationLimits := concentrationLimits c;
     riskDisclosure := riskDisclosure c;
     performanceReporting := performanceReporting c;
     feeDisclosure := feeDisclosure c;
     liquidityRequirements := liquidityRequirements c;
     overallCompliant := b;
     warnings := warnings c;
     violations := violations c |}.

Definition push_warning (w : string) (c : ComplianceChecks)
    : ComplianceChecks :=
  {| concentrationLimits := concentrationLimits c;
     riskDisclosure := riskDisclosure c;
     performanceReporting := performanceReporting c;
     feeDisclosure := feeDisclosure c;
     liquidityRequirements := liquidityRequirements c;
     overallCompliant := overallCompliant c;
     warnings := warnings c ++ [w];
     violations := violations c |}.

Definition push_violation (v : string) (c : ComplianceChecks)
    : ComplianceChecks :=
  {| concentrationLimits := concentrationLimits c;
     riskDisclosure := riskDisclosure c;
     performanceReporting := performanceReporting c;
     feeDisclosure := feeDisclosure c;
     liquidityRequirements := liquidityRequirements c;
     overallCompliant := overallCompliant c;
     warnings := warnings c;
     violations := violations c ++ [v] |}.

Definition checkCompliance (host : Host) (fundData : FundData)
    (performanceData : list PerformanceRow)
    (alternativeInvestments : list AlternativeInvestment)
    : ComplianceChecks :=
  let complianceChecks :=
    {| concentrationLimits := checkConcentrationLimits alternativeInvestments;
       riskDisclosure := checkRiskDisclosure host fundData;
       performanceReporting := checkPerformanceReporting performanceData;
       feeDisclosure := checkFeeDisclosure fundData;
       liquidityRequirements :=
         checkLiquidityRequirements fundData performanceData;
       overallCompliant := true;
       warnings := [];
       violations := [] |} in
  let complianceChecks :=
    if negb (compliant (concentrationLimits complianceChecks)) then
      push_violation "Concentration Limits"
        (set_overallCompliant false complianceChecks)
    else complianceChecks in
  let complianceChecks :=
    if negb (compliant (riskDisclosure complianceChecks)) then
      push_warning "Risk Disclosure" complianceChecks
    else complianceChecks in
  let complianceChecks :=
    if negb (compliant (performanceReporting complianceChecks)) then
      push_warning "Performance Reporting" complianceChecks
    else complianceChecks in
  let complianceChecks :=
    if negb (compliant (feeDisclosure complianceChecks)) then
      set_overallCompliant false
        (push_violation "Fee Disclosure" complianceChecks)
    else complianceChecks in
  let complianceChecks :=
    if negb (compliant (liquidityRequirements complianceChecks)) then
      push_warning "Liquidity Requirements" complianceChecks
    else complianceChecks in
  complianceChecks.

(** *** Report and recommendations *)

Record Recommendation : Type := {
  priority : string;
  category : string;
  action : string;
  deadline : string
}.

(** [xs.includes(s)] *)
Definition includes (xs : list string) (s : string) : bool :=
  existsb (String.eqb s) xs.

Definition generateRecommendations (complianceData : ComplianceChecks)
    : list Recommendation :=
  let recommendations := [] in
  let recommendations :=
    if negb (compliant (concentrationLimits complianceData)) then
      recommendations ++
      [{| priority := "HIGH";
          category := "Concentration Limits";
          action :=
            "Review and rebalance portfolio to meet IIROC concentration limits";
          deadline := "30 days" |}]
    else recommendations in
  let recommendations :=
    if negb (compliant (feeDisclosure complianceData)) then
      recommendations ++
      [{| priority := "HIGH";
          category := "Fee Disclosure";
          action :=
            "Review fee structure and ensure compliance with IIROC fee limits";
          deadline := "15 days" |}]
    else recommendations in
  let recommendations :=
    if includes (warnings complianceData) "Risk Disclosure" then
      recommendations ++
      [{| priority := "MEDIUM";
          category := "Risk Disclosure";
          action := "Update fund documentation with complete risk disclosures";
          deadline := "60 days" |}]
    else recommendations in
  let recommendations :=
    if includes (warnings complianceData) "Liquidity Requirements" then
      recommendations ++
      [{| priority := "MEDIUM";
          category := "Liquidity";
          action :=
            "Monitor liquidity ratios and consider portfolio adjustments";
          deadline := "90 days" |}]
    else recommendations in
  recommendations.

Record ReportSummary : Type := {
  totalChecks : nat;
  passedChecks : nat;
  summary_warnings : nat;
  summary_violations : nat
}.

Record ComplianceReport (Id : Type) : Type := {
  fundId : Id;
  reportDate : string;
  complianceStatus : string;
  summary : ReportSummary;
  details : ComplianceChecks;
  recommendations : list Recommendation
}.

(** [Object.values(complianceData).filter(check => typeof check === 'object'
    && check.compliant === true).length]: of the eight values, only the five
    check objects can have a [compliant] field. *)
Definition count_passed (complianceData : ComplianceChecks) : nat :=
  List.length
    (filter (fun passed : bool => passed)
       [ compliant (concentrationLimits complianceData);
         compliant (riskDisclosure complianceData);
         compliant (performanceReporting complianceData);
         compliant (feeDisclosure complianceData);
         compliant (liquidityRequirements complianceData) ]).

Definition generateComplianceReport {Id : Type} (host : Host) (fundId : Id)
    (complianceData : ComplianceChecks) : ComplianceReport Id :=
  {| fundId := fundId;
     reportDate := now_toISOString host;
     complianceStatus :=
       if overallCompliant complianceData then "COMPLIANT"
       else "NON-COMPLIANT";
     summary :=
       {| totalChecks := 5;
          passedChecks := count_passed complianceData;
          summary_warnings := List.length (warnings complianceData);
          summary_violations := List.length (violations complianceData) |};
     details := complianceData;
     recommendations := generateRecommendations complianceData |}.

(** *** Regulatory alerts *)

(** The three alert messages; the first two print a number. *)
Inductive AlertMessage : Type :=
| VolatilityExceedsNormalRange (volatility : num)
| ExpenseRatioAboveAverage (ratio : num)
| FundLessThanOneYearOld.

Record Alert : Type := {
  alert_type : string;
  severity : string;
  message : AlertMessage;
  threshold : num
}.

Definition checkRegulatoryAlerts (host : Host) (fundData : FundData)
    (performanceData : list PerformanceRow) : list Alert :=
  let alerts := [] in
  let alerts :=
    if Nat.ltb 0 (List.length performanceData) then
      let volatility :=
        calculateVolatility (map total_return performanceData) in
      if volatility >? #25 then
        alerts ++
        [{| alert_type := "HIGH_VOLATILITY";
            severity := "WARNING";
            message := VolatilityExceedsNormalRange volatility;
            threshold := #25 |}]
      else alerts
    else alerts in
  let alerts :=
    if number_of (expense_ratio fundData) >? #2 then
      alerts ++
      [{| alert_type := "HIGH_FEES";
          severity := "WARNING";
          message :=
            ExpenseRatioAboveAverage (number_of (expense_ratio fundData));
          threshold := #2 |}]
    else alerts in
  let alerts :=
    match fundAge host fundData with
    | Some age =>
        if (age <? 1)%Z then
          alerts ++
          [{| alert_type := "NEW_FUND";
              severity := "INFO";
              message := FundLessThanOneYearOld;
              threshold := #1 |}]
        else alerts
    | None => alerts
    end in
  alerts.

End Compliance.

End IIROCCompliance.

(** ** The routes that call the engines *)

(** *** GET /api/funds/:id/performance *)

(** The handler of the funds router, from the rows the query returned
    (ordered by date, oldest first) to the [pror_calculation] field of its
    response. *)
Module FundRoutes.

Import JS.
Import FinancialCalculations.
Import IIROCCompliance.
Local Open Scope string_scope.
Local Open Scope list_scope.
Local Open Scope js_scope.

Section Performance.

Context {N : Number}.

Record PRORCalculation : Type := {
  beginning_value : num;
  ending_value : num;
  contributions : num;
  withdrawals : num;
  time_period_months : num;
  pror_percentage : num;
  calculation_date : string
}.

(** The value assigned to [prorCalculation]: the record of the [try] block,
    or the object [{ error: error.message }] of the [catch] clause, kept as
    the error that was caught. *)
Inductive PRORReport : Type :=
| PRORComputed (calculation : PRORCalculation)
| PRORFailed (error : JSError).

(** [calculate_pror] is a query parameter: a string, or absent. *)
Definition prorCalculation (host : Host) (calculate_pror : option string)
    (performance : list PerformanceRow) : option PRORReport :=
  match performance with
  | [] => None
  | firstRecord :: rest =>
      let requested :=
        match calculate_pror with
        | Some s => String.eqb s "true"
        | None => false
        end in
      if requested && Nat.leb 2 (List.length performance) then
        let lastRecord := last rest firstRecord in
        let beginningValue := nav firstRecord in
        let endingValue := nav lastRecord in
        let contributions := #0 in
        let withdrawals := #0 in
        let timePeriod := length_of performance in
        match calculatePROR beginningValue endingValue contributions
                withdrawals timePeriod with
        | Return pror =>
            Some (PRORComputed
                    {| beginning_value := beginningValue;
                       ending_value := endingValue;
                       contributions := contributions;
                       withdrawals := withdrawals;
                       time_period_months := timePeriod;
                       pror_percentage := pror;
                       calculation_date := now_toISOString host |})
        | Throw error => Some (PRORFailed error)
        end
      else None
  end.

End Performance.

End FundRoutes.

(** *** GET /api/alternative-investments *)

Module AlternativeInvestmentRoutes.

Import JS.
Local Open Scope string_scope.
Local Open Scope js_scope.

(** The helper [getRiskLevel(riskRating)] of the router, applied to a risk
    rating or to an average of risk ratings. *)
Definition getRiskLevel {N : Number} (riskRating : num) : string :=
  if riskRating <=? #3 then "Low"
  else if riskRating <=? #5 then "Low-Medium"
  else if riskRating <=? #7 then "Medium"
  else if riskRating <=? #9 then "Medium-High"
  else "High".

End AlternativeInvestmentRoutes.

(** ** The formulas of the specification *)

(** The quantities the specification names, written from its words, for the
    comparison with the functions above. *)
Module Spec.

Import JS.
Import FinancialCalculations.
Import IIROCCompliance.
Local Open Scope string_scope.
Local Open Scope list_scope.
Local Open Scope js_scope.

Section Formulas.

Context {N : Number}.

(** [beginningValue + contributions * (periodMonths / 12)] *)
Definition PROR_denominator (beginningValue contributions periodMonths : num)
    : num :=
  beginningValue + contributions * (periodMonths / #12).

(** [((ending - beginning - (contributions - withdrawals)) / denominator)
     * 100] *)
Definition PROR_percentage
    (beginningValue endingValue contributions withdrawals periodMonths : num)
    : num :=
  ((endingValue - beginningValue - (contributions - withdrawals))
   / PROR_denominator beginningValue contributions periodMonths) * #100.

(** The product of [1 + r/100] over the period returns. *)
Definition compounded (periodReturns : list num) : num :=
  fold_left (fun product r => product * (#1 + r / #100)) periodReturns #1.

(** [compounded ^ (12 / periodCount) - 1], as a percentage with 2 decimals. *)
Definition AnnualizedReturn (pow : num -> num -> num)
    (periodReturns : list num) (periodCount : num) : num :=
  match periodReturns with
  | [] => #0
  | _ => toFixed 2 ((pow (compounded periodReturns) (#12 / periodCount) - #1)
                    * #100)
  end.

(** The observations added one after the other, from the first. *)
Fixpoint total_from (subtotal : num) (xs : list num) : num :=
  match xs with
  | [] => subtotal
  | x :: rest => total_from (subtotal + x) rest
  end.

(** The total of the observations over their number. *)
Definition mean (xs : list num) : num :=
  total_from #0 xs / #(Z.of_nat (List.length xs)).

(** Population standard deviation, at full precision. *)
Definition standard_deviation (xs : list num) : num :=
  let m := mean xs in
  sqrt (fold_left (fun acc x => acc + (x - m) * (x - m)) xs #0 / length_of xs).

(** Mean excess return over the unrounded tracking error, with 3 decimals. *)
Definition InformationRatio (returns benchmarkReturns : list num) : num :=
  if negb (Nat.eqb (List.length returns) (List.length benchmarkReturns))
     || Nat.eqb (List.length returns) 0
  then #0
  else
    let excess :=
      map (fun p => fst p - snd p) (combine returns benchmarkReturns) in
    let trackingError := standard_deviation excess in
    if trackingError === #0 then #0
    else toFixed 3 (mean excess / trackingError).

(** The per-type table of the risk score. *)
Definition base_score (type : option string) : Z :=
  match type with
  | Some t =>
      if String.eqb t "Fixed Income" then 2
      else if String.eqb t "Balanced" then 4
      else if String.eqb t "Canadian Equity" then 6
      else if String.eqb t "Global Equity" then 7
      else if String.eqb t "Real Estate" then 7
      else if String.eqb t "Sector" then 8
      else if String.eqb t "Alternative" then 9
      else 5
  | None => 5
  end%Z.

(** +2 above 2.0, else +1 above 1.5. *)
Definition fee_points (expenseRatio : num) : Z :=
  if expenseRatio >? #2 then 2%Z
  else if expenseRatio >? dec 15 1 then 1%Z
  else 0%Z.

(** +2 below 3 years, else +1 below 5 years; nothing without an age. *)
Definition age_points (age : option Z) : Z :=
  match age with
  | Some a => if (a <? 3)%Z then 2 else if (a <? 5)%Z then 1 else 0
  | None => 0
  end%Z.

(** The names that are no fund types of the table and that the lookup of
    the code answers for all the same: the properties of every object. *)
Definition inherited_names : list string :=
  [ "constructor"; "hasOwnProperty"; "isPrototypeOf"; "propertyIsEnumerable";
    "toLocaleString"; "toString"; "valueOf"; "__proto__";
    "__defineGetter__"; "__defineSetter__"; "__lookupGetter__";
    "__lookupSetter__" ].

(** The fee points of a fund; none when it states no expense ratio. *)
Definition expense_points (expenseRatio : option num) : Z :=
  match expenseRatio with
  | Some e => fee_points e
  | None => 0%Z
  end.

(** The age of a fund, in calendar years: the year the clock reads less the
    year of the inception date, for a fund with a date the host can read. *)
Definition calendar_age (host : Host) (inception : option string)
    : option Z :=
  match inception with
  | Some date =>
      match date_getFullYear host date with
      | Some year => Some (now_getFullYear host - year)%Z
      | None => None
      end
  | None => None
  end.

(** The risk score: the base score and the two add-ons, capped at 10. *)
Definition risk_score (host : Host) (fund : FundData) : Z :=
  Z.min 10
    (base_score (fund_type fund) + expense_points (expense_ratio fund)
     + age_points (calendar_age host (inception_date fund))).

(** The five buckets of the risk level. *)
Definition risk_bucket (score : Z) : string :=
  if (score <=? 3)%Z then "Low"
  else if (score <=? 5)%Z then "Low-Medium"
  else if (score <=? 7)%Z then "Medium"
  else if (score <=? 9)%Z then "Medium-High"
  else "High".




End Formulas.

(** The sum of the squared deviations of [rs] from [m], accumulated from [x]
    in the order of the loops of [calculateBeta] and [calculateCorrelation]. *)
Definition squares_from (m : R) (rs : list R) (x : R) : R :=
  fold_left (fun acc r => acc + (r - m) * (r - m))%R rs x.

End Spec.

(** ** Quantities the properties are stated with *)

Module Quantity.

Import JS.
Import FinancialCalculations.
Import IIROCCompliance.
Import Spec.
Local Open Scope list_scope.
Local Open Scope js_scope.

Section Quantities.

Context {N : Number}.

(** The population variance, accumulated as the loops of the statistics
    accumulate it: the squared deviations from the mean, added from the
    left, over the number of observations. *)
Definition variance (xs : list num) : num :=
  fold_left (fun sum ret => sum + pow2 (ret - mean xs)) xs #0 / length_of xs.

(** A risk score as the number a caller receives. *)
Definition score_number (riskScore : RiskScore) : num :=
  match riskScore with
  | Score n => #n
  | NotANumber => nan
  end.

(** Whether the type of a fund names a property every object inherits. *)
Definition inherits (fundData : FundData) : bool :=
  match fund_type fundData with
  | Some type => existsb (String.eqb type) inherited_names
  | None => false
  end.

End Quantities.

End Quantity.

(** ** Sample inputs *)

Module Samples.

Import JS.
Import IIROCCompliance.
Local Open Scope string_scope.
Local Open Scope list_scope.

(** Hosts whose clocks read the given calendar year and timestamp; a date
    string [yyyy-...] of the twenty-first century has the year it starts
    with. *)
Definition year_of_date (d : string) : option Z :=
  if String.prefix "2016" d then Some 2016%Z
  else if String.prefix "2020" d then Some 2020%Z
  else None.

Definition host_at (year : Z) (timestamp : string) : Host :=
  {| now_getFullYear := year;
     now_toISOString := timestamp;
     date_getFullYear := year_of_date |}.

Definition fixed_income_fund {N : Number} : FundData :=
  {| fund_type := Some "Fixed Income";
     management_fee := Some (dec 85 2);
     expense_ratio := Some (of_Z 1);
     inception_date := Some "2016-03-20" |}.

Definition balanced_fund {N : Number} : FundData :=
  {| fund_type := Some "Balanced";
     management_fee := Some (dec 115 2);
     expense_ratio := Some (dec 165 2);
     inception_date := Some "2020-06-10" |}.

(** A fund whose type is the name of a property every object inherits. *)
Definition constructor_fund {N : Number} : FundData :=
  {| fund_type := Some "constructor";
     management_fee := Some (dec 85 2);
     expense_ratio := Some (of_Z 1);
     inception_date := Some "2016-03-20" |}.

(** A sort that conforms, for the evaluation of samples: every element is
    inserted, from the last to the first, before the first element that it
    does not come after.  On an array that holds NaN, where the order is
    implementation-defined, it need not give the order of a given host. *)
Fixpoint insert_by {N : Number} (comparefn : num -> num -> num) (a : num)
    (sorted : list num) : list num :=
  match sorted with
  | [] => [a]
  | b :: rest =>
      if sorts_after comparefn a b then b :: insert_by comparefn a rest
      else a :: b :: rest
  end.

Definition insertion_sort {N : Number} : ArraySort N :=
  fun comparefn xs => fold_right (insert_by comparefn) [] xs.

(** An observation with the given assets under management. *)
Definition observation {N : Number} (aum : num) : PerformanceRow :=
  {| nav := of_Z 10;
     total_return := of_Z 1;
     benchmark_return := of_Z 1;
     assets_under_management := aum |}.

End Samples.

(** * Properties *)

Import JS.
Import FinancialCalculations.
Import IIROCCompliance.
Import Spec.
Import Samples.
Import Quantity.

Local Open Scope string_scope.
Local Open Scope list_scope.

Unset Implicit Arguments.

(** ** Personal rate of return *)

Section PROR.

Context {N : Number}.
Local Open Scope js_scope.

Variables beginningValue endingValue contributions withdrawals timePeriod : num.

Let denominator := PROR_denominator beginningValue contributions timePeriod.

Lemma calculatePROR_throws_iff :
  raises (calculatePROR beginningValue endingValue contributions withdrawals
            timePeriod)
  <-> (beginningValue <=? #0) = true \/ (denominator <=? #0) = true.
Proof.
  unfold calculatePROR, denominator, PROR_denominator.
  destruct (beginningValue <=? #0) eqn:Hb; cbn.
  - tauto.
  - destruct (beginningValue + contributions * (timePeriod / #12) <=? #0)
      eqn:Hd; cbn.
    + tauto.
    + split; [ tauto | intros [H | H]; discriminate ].
Qed.

Lemma calculatePROR_returns :
  (beginningValue <=? #0) = false ->
  (denominator <=? #0) = false ->
  calculatePROR beginningValue endingValue contributions withdrawals timePeriod
  = Return (toFixed 2
              (PROR_percentage beginningValue endingValue contributions
                 withdrawals timePeriod)).
Proof.
  unfold calculatePROR, denominator, PROR_percentage, PROR_denominator.
  intros Hb Hd. rewrite Hb, Hd. reflexivity.
Qed.

End PROR.

(** The two calls of the specification, on binary64. *)
Lemma calculatePROR_binary64_zero_gain :
  calculatePROR (N := Binary64.number)
    (of_Z 10000) (of_Z 11000) (of_Z 1000) (of_Z 0) (of_Z 12)
  = Return (of_Z 0).
Proof. vm_compute. reflexivity. Qed.

Lemma calculatePROR_binary64_no_beginning_value :
  calculatePROR (N := Binary64.number)
    (of_Z 0) (of_Z 1000) (of_Z 0) (of_Z 0) (of_Z 12)
  = Throw (Error "Beginning value must be greater than zero").
Proof. vm_compute. reflexivity. Qed.

(** C4.  [calculatePROR] throws exactly when the beginning value is at most
    zero or the denominator [beginningValue + contributions * (timePeriod / 12)]
    is at most zero; otherwise it returns the percentage
    [((ending - beginning - (contributions - withdrawals)) / denominator) * 100]
    rounded to 2 decimals.  On binary64, [PROR(10000, 11000, 1000, 0, 12)] is
    [0] and [PROR(0, 1000, 0, 0, 12)] throws. *)
Theorem calculatePROR_spec :
  (forall (N : Number) (b e c w t : num),
      (raises (calculatePROR b e c w t)
       <-> leb b (of_Z 0) = true
           \/ leb (PROR_denominator b c t) (of_Z 0) = true)
      /\ (leb b (of_Z 0) = false ->
          leb (PROR_denominator b c t) (of_Z 0) = false ->
          calculatePROR b e c w t
          = Return (toFixed 2 (PROR_percentage b e c w t))))
  /\ calculatePROR (N := Binary64.number)
       (of_Z 10000) (of_Z 11000) (of_Z 1000) (of_Z 0) (of_Z 12)
     = Return (of_Z 0)
  /\ raises (calculatePROR (N := Binary64.number)
               (of_Z 0) (of_Z 1000) (of_Z 0) (of_Z 0) (of_Z 12)).
Proof.
  split; [ | split ].
  - intros N b e c w t. split.
    + apply calculatePROR_throws_iff.
    + apply calculatePROR_returns.
  - exact calculatePROR_binary64_zero_gain.
  - rewrite calculatePROR_binary64_no_beginning_value. exact I.
Qed.

(** ** Aggregation of the five checks *)

Section Aggregation.

Context {N : Number}.

Variable host : Host.
Variable fundData : FundData.
Variable performanceData : list PerformanceRow.
Variable alternativeInvestments : list AlternativeInvestment.

Let verdict :=
  checkCompliance host fundData performanceData alternativeInvestments.

(** Case analysis on the five [compliant] flags, the check results taken as
    opaque values. *)
Ltac aggregate_cases :=
  unfold checkCompliance;
  generalize (checkConcentrationLimits alternativeInvestments);
  generalize (checkRiskDisclosure host fundData);
  generalize (checkPerformanceReporting performanceData);
  generalize (checkFeeDisclosure fundData);
  generalize (checkLiquidityRequirements fundData performanceData);
  intros liquidity fee performance risk concentration;
  cbn [concentrationLimits riskDisclosure performanceReporting feeDisclosure
       liquidityRequirements];
  destruct (compliant concentration) eqn:Hconcentration;
  cbn [negb set_overallCompliant push_violation push_warning
       concentrationLimits riskDisclosure performanceReporting feeDisclosure
       liquidityRequirements overallCompliant warnings violations];
  destruct (compliant risk) eqn:Hrisk;
  cbn [negb set_overallCompliant push_violation push_warning
       concentrationLimits riskDisclosure performanceReporting feeDisclosure
       liquidityRequirements overallCompliant warnings violations];
  destruct (compliant performance) eqn:Hperformance;
  cbn [negb set_overallCompliant push_violation push_warning
       concentrationLimits riskDisclosure performanceReporting feeDisclosure
       liquidityRequirements overallCompliant warnings violations];
  destruct (compliant fee) eqn:Hfee;
  cbn [negb set_overallCompliant push_violation push_warning
       concentrationLimits riskDisclosure performanceReporting feeDisclosure
       liquidityRequirements overallCompliant warnings violations];
  destruct (compliant liquidity) eqn:Hliquidity;
  cbn [negb set_overallCompliant push_violation push_warning
       concentrationLimits riskDisclosure performanceReporting feeDisclosure
       liquidityRequirements overallCompliant warnings violations app andb].

(** The aggregation leaves the five sub-results as the checks returned them. *)
Lemma checkCompliance_checks :
  concentrationLimits verdict = checkConcentrationLimits alternativeInvestments
  /\ riskDisclosure verdict = checkRiskDisclosure host fundData
  /\ performanceReporting verdict = checkPerformanceReporting performanceData
  /\ feeDisclosure verdict = checkFeeDisclosure fundData
  /\ liquidityRequirements verdict
     = checkLiquidityRequirements fundData performanceData.
Proof. unfold verdict. aggregate_cases; repeat split; reflexivity. Qed.

Lemma checkCompliance_overallCompliant :
  overallCompliant verdict
  = compliant (checkConcentrationLimits alternativeInvestments)
    && compliant (checkFeeDisclosure fundData).
Proof. unfold verdict. aggregate_cases; reflexivity. Qed.

Lemma checkCompliance_violations :
  violations verdict
  = (if compliant (checkConcentrationLimits alternativeInvestments)
     then [] else ["Concentration Limits"])
    ++ (if compliant (checkFeeDisclosure fundData)
        then [] else ["Fee Disclosure"]).
Proof. unfold verdict. aggregate_cases; reflexivity. Qed.

Lemma checkCompliance_warnings :
  warnings verdict
  = (if compliant (checkRiskDisclosure host fundData)
     then [] else ["Risk Disclosure"])
    ++ (if compliant (checkPerformanceReporting performanceData)
        then [] else ["Performance Reporting"])
    ++ (if compliant (checkLiquidityRequirements fundData performanceData)
        then [] else ["Liquidity Requirements"]).
Proof. unfold verdict. aggregate_cases; reflexivity. Qed.

End Aggregation.

(** C5.  For every fund, series and allocation set, [overallCompliant] is
    false exactly when the concentration-limits check or the fee-disclosure
    check is not compliant; each of these two failures puts its name in
    [violations] and nothing else does; a failure of risk disclosure,
    performance reporting or liquidity requirements puts its name in
    [warnings], nothing else does, and [overallCompliant] is determined by the
    two hard checks alone. *)
Theorem checkCompliance_verdict :
  forall (N : Number) (host : Host) (fundData : FundData)
         (performanceData : list PerformanceRow)
         (alternativeInvestments : list AlternativeInvestment),
    let verdict :=
      checkCompliance host fundData performanceData alternativeInvestments in
    let concentration :=
      compliant (checkConcentrationLimits alternativeInvestments) in
    let fee := compliant (checkFeeDisclosure fundData) in
    let risk := compliant (checkRiskDisclosure host fundData) in
    let performance := compliant (checkPerformanceReporting performanceData) in
    let liquidity :=
      compliant (checkLiquidityRequirements fundData performanceData) in
    (overallCompliant verdict = false
     <-> concentration = false \/ fee = false)
    /\ overallCompliant verdict = concentration && fee
    /\ violations verdict
       = (if concentration then [] else ["Concentration Limits"])
         ++ (if fee then [] else ["Fee Disclosure"])
    /\ warnings verdict
       = (if risk then [] else ["Risk Disclosure"])
         ++ (if performance then [] else ["Performance Reporting"])
         ++ (if liquidity then [] else ["Liquidity Requirements"])
    /\ (In "Concentration Limits" (violations verdict)
        <-> concentration = false)
    /\ (In "Fee Disclosure" (violations verdict) <-> fee = false)
    /\ (In "Risk Disclosure" (warnings verdict) <-> risk = false)
    /\ (In "Performance Reporting" (warnings verdict)
        <-> performance = false)
    /\ (In "Liquidity Requirements" (warnings verdict)
        <-> liquidity = false).
Proof.
  intros N host fundData performanceData alternativeInvestments.
  cbv zeta.
  rewrite checkCompliance_overallCompliant, checkCompliance_violations,
    checkCompliance_warnings.
  destruct (compliant (checkConcentrationLimits alternativeInvestments));
  destruct (compliant (checkRiskDisclosure host fundData));
  destruct (compliant (checkPerformanceReporting performanceData));
  destruct (compliant (checkFeeDisclosure fundData));
  destruct (compliant (checkLiquidityRequirements fundData performanceData));
  cbn; repeat split; intros; try reflexivity; try discriminate;
  try tauto; try (left; reflexivity); try (right; reflexivity);
  repeat match goal with
         | H : _ \/ _ |- _ => destruct H
         | H : False |- _ => destruct H
         end;
  try discriminate; auto.
Qed.

(** ** NaN in the two arithmetics *)

Lemma binary64_nan_propagation : NaNPropagation Binary64.number.
Proof.
  constructor; cbn [JS.add JS.sub JS.mul JS.div JS.sqrt JS.ltb JS.leb JS.eqb
                    JS.toFixed JS.nan JS.num Binary64.number]; intros.
  - apply Prim2SF_inj. rewrite add_spec. reflexivity.
  - apply Prim2SF_inj. rewrite add_spec.
    change (Prim2SF PrimFloat.nan) with S754_nan.
    destruct (Prim2SF x); reflexivity.
  - apply Prim2SF_inj. rewrite sub_spec.
    change (Prim2SF PrimFloat.nan) with S754_nan.
    destruct (Prim2SF x); reflexivity.
  - reflexivity.
  - apply Prim2SF_inj. rewrite div_spec. reflexivity.
  - apply Prim2SF_inj. rewrite div_spec.
    change (Prim2SF PrimFloat.nan) with S754_nan.
    destruct (Prim2SF x); reflexivity.
  - reflexivity.
  - rewrite ltb_spec. reflexivity.
  - rewrite ltb_spec. change (Prim2SF PrimFloat.nan) with S754_nan.
    unfold SFltb, SFcompare. destruct (Prim2SF x); reflexivity.
  - rewrite leb_spec. reflexivity.
  - rewrite eqb_spec. reflexivity.
  - reflexivity.
Qed.

Lemma exact_nan_propagation : NaNPropagation Exact.number.
Proof.
  constructor; cbn [JS.add JS.sub JS.mul JS.div JS.sqrt JS.ltb JS.leb JS.eqb
                    JS.toFixed JS.nan JS.num Exact.number]; intros;
    try reflexivity;
    try (destruct x as [a | s | ]; reflexivity).
Qed.

(** ** Risk score *)

(** The seven types of the table have the scores the claim lists, the names
    every object inherits are not numbers, and any other type has 5. *)
Lemma fundTypeRisk_or_5_table :
  forall type : option string,
    fundTypeRisk_or_5 type
    = match type with
      | Some t => if inherited t then NotANumber else Score (base_score type)
      | None => Score 5
      end.
Proof.
  intros [t | ]; [ | reflexivity ].
  unfold fundTypeRisk_or_5, base_score, fundTypeRisk, property.
  rewrite !(String.eqb_sym _ t).
  destruct (String.eqb_spec t "Fixed Income") as [-> | _]; [ reflexivity | ].
  destruct (String.eqb_spec t "Balanced") as [-> | _]; [ reflexivity | ].
  destruct (String.eqb_spec t "Canadian Equity") as [-> | _];
    [ reflexivity | ].
  destruct (String.eqb_spec t "Global Equity") as [-> | _]; [ reflexivity | ].
  destruct (String.eqb_spec t "Alternative") as [-> | _]; [ reflexivity | ].
  destruct (String.eqb_spec t "Sector") as [-> | _]; [ reflexivity | ].
  destruct (String.eqb_spec t "Real Estate") as [-> | _]; [ reflexivity | ].
  destruct (inherited t); reflexivity.
Qed.

Lemma base_score_bounds :
  forall type : option string, (2 <= base_score type <= 9)%Z.
Proof.
  intros [t | ]; unfold base_score; [ | lia ].
  repeat match goal with
         | |- context [String.eqb ?a ?b] => destruct (String.eqb a b)
         end; lia.
Qed.

(** The names the code takes for inherited are the twelve of the list. *)
Lemma inherited_names_listed :
  forall t : string, inherited t = existsb (String.eqb t) inherited_names.
Proof.
  intros t. unfold inherited, Object_prototype, inherited_names.
  cbn [existsb].
  repeat match goal with
         | |- context [String.eqb t ?name] => destruct (String.eqb t name)
         end; reflexivity.
Qed.

(** An inherited name is none of the seven types of the table. *)
Lemma base_score_inherited :
  forall t : string,
    existsb (String.eqb t) inherited_names = true ->
    base_score (Some t) = 5%Z.
Proof.
  intros t Ht.
  apply existsb_exists in Ht. destruct Ht as (name & Hin & Heq).
  apply String.eqb_eq in Heq. subst name.
  repeat (destruct Hin as [<- | Hin]; [ reflexivity | ]).
  destruct Hin.
Qed.

Section RiskScore.

Context {N : Number} {P : NaNPropagation N}.

Lemma calculateRiskScore_not_inherited :
  forall (host : Host) (fundData : FundData),
    inherits fundData = false ->
    calculateRiskScore host fundData = Score (risk_score host fundData).
Proof.
  intros host fundData Hown.
  unfold calculateRiskScore, risk_score, expense_points, fee_points,
    age_points, calendar_age, fundAge, number_of.
  rewrite fundTypeRisk_or_5_table.
  unfold inherits in Hown.
  set (base := base_score (fund_type fundData)).
  assert (match fund_type fundData with
          | Some t => if inherited t then NotANumber else Score base
          | None => Score 5
          end = Score base) as ->.
  { unfold base. destruct (fund_type fundData) as [t | ];
      [ rewrite inherited_names_listed, Hown | ]; reflexivity. }
  destruct (expense_ratio fundData) as [e | ].
  - destruct (ltb (of_Z 2) e); [ | destruct (ltb (dec 15 1) e) ];
      (destruct (inception_date fundData) as [d | ];
       [ destruct (date_getFullYear host d) as [y | ];
         [ destruct (now_getFullYear host - y <? 3)%Z;
           [ | destruct (now_getFullYear host - y <? 5)%Z ] | ] | ]);
      cbn [plus Math_min_10]; f_equal; lia.
  - rewrite !ltb_nan_r.
      (destruct (inception_date fundData) as [d | ];
       [ destruct (date_getFullYear host d) as [y | ];
         [ destruct (now_getFullYear host - y <? 3)%Z;
           [ | destruct (now_getFullYear host - y <? 5)%Z ] | ] | ]);
      cbn [plus Math_min_10]; f_equal; lia.
Qed.

Lemma calculateRiskScore_inherited :
  forall (host : Host) (fundData : FundData),
    inherits fundData = true ->
    calculateRiskScore host fundData = NotANumber.
Proof.
  intros host fundData Hinherited.
  unfold calculateRiskScore. rewrite fundTypeRisk_or_5_table.
  unfold inherits in Hinherited.
  destruct (fund_type fundData) as [t | ]; [ | discriminate ].
  rewrite <- inherited_names_listed in Hinherited.
  rewrite Hinherited. cbn [plus].
  repeat match goal with
         | |- context [if ?b then _ else _] => destruct b
         | |- context [match ?o with Some _ => _ | None => _ end] =>
             destruct o
         end; reflexivity.
Qed.

Lemma risk_score_range :
  forall (host : Host) (fundData : FundData),
    (1 <= risk_score host fundData <= 10)%Z.
Proof.
  intros host fundData. unfold risk_score.
  pose proof (base_score_bounds (fund_type fundData)) as Hbase.
  assert (0 <= expense_points (expense_ratio fundData))%Z as Hfee.
  { unfold expense_points, fee_points.
    destruct (expense_ratio fundData); [ | lia ].
    repeat match goal with
           | |- context [if ?b then _ else _] => destruct b
           end; lia. }
  assert (0 <= age_points
                 (calendar_age host (inception_date fundData)))%Z as Hage.
  { unfold age_points.
    destruct (calendar_age host (inception_date fundData)); [ | lia ].
    repeat match goal with
           | |- context [if ?b then _ else _] => destruct b
           end; lia. }
  lia.
Qed.

End RiskScore.

Lemma getRiskLevel_buckets :
  forall score : Z, getRiskLevel (Score score) = risk_bucket score.
Proof. reflexivity. Qed.

(** A fixed-income fund with an expense ratio of 1.0, ten years after its
    inception, on binary64. *)
Lemma calculateRiskScore_binary64_fixed_income :
  forall (host : Host) (fee : option (@num Binary64.number)) (date : string),
    date_getFullYear host date = Some (now_getFullYear host - 10)%Z ->
    let fund : @FundData Binary64.number :=
      {| fund_type := Some "Fixed Income";
         management_fee := fee;
         expense_ratio := Some (@of_Z Binary64.number 1);
         inception_date := Some date |} in
    calculateRiskScore host fund = Score 2
    /\ getRiskLevel (calculateRiskScore host fund) = "Low".
Proof.
  intros host fee date Hdate fund.
  assert (calculateRiskScore host fund = Score 2) as Hscore.
  { rewrite (calculateRiskScore_not_inherited
               (P := binary64_nan_propagation)) by reflexivity.
    unfold risk_score, fund, calendar_age;
      cbn [fund_type expense_ratio inception_date].
    rewrite Hdate.
    replace (now_getFullYear host - (now_getFullYear host - 10))%Z
      with 10%Z by lia.
    vm_compute. reflexivity. }
  rewrite Hscore. split; reflexivity.
Qed.

(** C8, at inputs where the code fails: a fund whose type is the name of a
    property that every object inherits, such as [constructor].  The lookup
    [fundTypeRisk[fund_type] || 5] then yields the inherited function instead
    of the default 5, the additions concatenate strings, and [Math.min]
    returns NaN: the score is not a number from 1 to 10 and the level is
    [High], where the claim gives an unknown type the base score 5 (for
    [constructor] with an expense ratio of 1.0, ten years after inception:
    score 5, level Low-Medium).  For every other fund the score is the one
    the claim states, with the age counted in calendar years: the minimum of
    10 and the sum of the base score of the type, 2 points for an expense
    ratio above 2.0 or else 1 above 1.5, and 2 points for an age below 3 or
    else 1 below 5; it lies between 1 and 10 and the level is its bucket.
    The Fixed Income fund of the claim scores 2, level Low. *)
Theorem calculateRiskScore_inherited_type :
  (forall (N : Number) (host : Host) (fundData : FundData),
      inherits fundData = true ->
      calculateRiskScore host fundData = NotANumber
      /\ riskLevel (checkRiskDisclosure host fundData) = "High"
      /\ base_score (fund_type fundData) = 5%Z)
  /\ (let host := host_at 2026 "2026-11-01T00:00:00.000Z" in
      let fund := constructor_fund (N := Binary64.number) in
      calculateRiskScore host fund = NotANumber
      /\ getRiskLevel (calculateRiskScore host fund) = "High"
      /\ risk_score host fund = 5%Z
      /\ risk_bucket (risk_score host fund) = "Low-Medium")
  /\ (forall (N : Number) (host : Host) (fundData : FundData),
         NaNPropagation N ->
         inherits fundData = false ->
         calculateRiskScore host fundData = Score (risk_score host fundData)
         /\ (1 <= risk_score host fundData <= 10)%Z
         /\ riskScore (checkRiskDisclosure host fundData)
            = Score (risk_score host fundData)
         /\ riskLevel (checkRiskDisclosure host fundData)
            = risk_bucket (risk_score host fundData))
  /\ (forall score : Z, getRiskLevel (Score score) = risk_bucket score)
  /\ (forall (host : Host) (fee : option (@num Binary64.number))
             (date : string),
         date_getFullYear host date = Some (now_getFullYear host - 10)%Z ->
         let fund : @FundData Binary64.number :=
           {| fund_type := Some "Fixed Income";
              management_fee := fee;
              expense_ratio := Some (@of_Z Binary64.number 1);
              inception_date := Some date |} in
         calculateRiskScore host fund = Score 2
         /\ getRiskLevel (calculateRiskScore host fund) = "Low")
  /\ calculateRiskScore (N := Binary64.number)
       (host_at 2026 "2026-11-01T00:00:00.000Z") fixed_income_fund
     = Score 2.
Proof.
  split; [ | split; [ | split; [ | split; [ | split ] ] ] ].
  - intros N host fundData Hinherited. split; [ | split ].
    + apply calculateRiskScore_inherited. exact Hinherited.
    + unfold checkRiskDisclosure. cbn [riskLevel].
      rewrite (calculateRiskScore_inherited host fundData Hinherited).
      reflexivity.
    + unfold inherits in Hinherited.
      destruct (fund_type fundData) as [t | ]; [ | reflexivity ].
      apply base_score_inherited. exact Hinherited.
  - cbv zeta. repeat split; vm_compute; reflexivity.
  - intros N host fundData P Hown.
    pose proof (calculateRiskScore_not_inherited host fundData Hown)
      as Hscore.
    split; [ exact Hscore | ].
    split; [ apply risk_score_range | ].
    unfold checkRiskDisclosure. cbn [riskScore riskLevel].
    rewrite Hscore. split; reflexivity.
  - exact getRiskLevel_buckets.
  - exact calculateRiskScore_binary64_fixed_income.
  - vm_compute. reflexivity.
Qed.

(** ** Dependence on the clock *)

(** The same fund and series, evaluated by two hosts whose clocks differ:
    the risk score, the alerts and the report date differ. *)
Lemma results_change_with_the_clock :
  let early := host_at 2020 "2020-12-31T12:00:00.000Z" in
  let late := host_at 2030 "2030-01-01T12:00:00.000Z" in
  let fund := balanced_fund (N := Binary64.number) in
  let verdict := checkCompliance early fund [] [] in
  calculateRiskScore early fund = 7%Z
  /\ calculateRiskScore late fund = 5%Z
  /\ map (@alert_type _) (checkRegulatoryAlerts early fund []) = ["NEW_FUND"]
  /\ map (@alert_type _) (checkRegulatoryAlerts late fund []) = []
  /\ reportDate (generateComplianceReport early 1%Z verdict)
     = "2020-12-31T12:00:00.000Z"
  /\ reportDate (generateComplianceReport late 1%Z verdict)
     = "2030-01-01T12:00:00.000Z".
Proof. cbv zeta. repeat split; vm_compute; reflexivity. Qed.

Section Clock.

Context {N : Number}.

Variables host1 host2 : Host.
Variable fundData : FundData.

Hypothesis same_year : now_getFullYear host1 = now_getFullYear host2.
Hypothesis same_inception_year :
  forall d : string,
    inception_date fundData = Some d ->
    date_getFullYear host1 d = date_getFullYear host2 d.

Lemma fundAge_same : fundAge host1 fundData = fundAge host2 fundData.
Proof.
  unfold fundAge.
  destruct (inception_date fundData) as [d | ] eqn:Hd; [ | reflexivity ].
  rewrite (same_inception_year d eq_refl), same_year. reflexivity.
Qed.

Lemma calculateRiskScore_same :
  calculateRiskScore host1 fundData = calculateRiskScore host2 fundData.
Proof. unfold calculateRiskScore. rewrite fundAge_same. reflexivity. Qed.

Lemma checkRegulatoryAlerts_same :
  forall performanceData : list PerformanceRow,
    checkRegulatoryAlerts host1 fundData performanceData
    = checkRegulatoryAlerts host2 fundData performanceData.
Proof.
  intros performanceData. unfold checkRegulatoryAlerts.
  rewrite fundAge_same. reflexivity.
Qed.

Lemma checkCompliance_same :
  forall (performanceData : list PerformanceRow)
         (alternativeInvestments : list AlternativeInvestment),
    checkCompliance host1 fundData performanceData alternativeInvestments
    = checkCompliance host2 fundData performanceData alternativeInvestments.
Proof.
  intros performanceData alternativeInvestments.
  unfold checkCompliance, checkRiskDisclosure.
  rewrite calculateRiskScore_same. reflexivity.
Qed.

End Clock.

(** C3, as the code has it.  The results of the engine are determined by the
    arguments together with what the host's clock reads: for the same
    arguments, two hosts that agree on the current calendar year and on the
    calendar year of the fund's inception date give the same risk score, the
    same alerts and the same compliance verdict; two compliance reports of the
    same verdict differ at most in [reportDate], which is the clock's
    timestamp, and are equal when the timestamps are. *)
Theorem engine_deterministic_given_clock :
  forall (N : Number) (host1 host2 : Host) (fundData : FundData)
         (performanceData : list PerformanceRow)
         (alternativeInvestments : list AlternativeInvestment)
         (Id : Type) (id : Id) (complianceData : ComplianceChecks),
    now_getFullYear host1 = now_getFullYear host2 ->
    (forall d : string,
        inception_date fundData = Some d ->
        date_getFullYear host1 d = date_getFullYear host2 d) ->
    calculateRiskScore host1 fundData = calculateRiskScore host2 fundData
    /\ checkRegulatoryAlerts host1 fundData performanceData
       = checkRegulatoryAlerts host2 fundData performanceData
    /\ checkCompliance host1 fundData performanceData alternativeInvestments
       = checkCompliance host2 fundData performanceData alternativeInvestments
    /\ (let report1 := generateComplianceReport host1 id complianceData in
        let report2 := generateComplianceReport host2 id complianceData in
        fundId report1 = fundId report2
        /\ complianceStatus report1 = complianceStatus report2
        /\ summary report1 = summary report2
        /\ details report1 = details report2
        /\ recommendations report1 = recommendations report2
        /\ reportDate report1 = now_toISOString host1
        /\ reportDate report2 = now_toISOString host2
        /\ (now_toISOString host1 = now_toISOString host2 ->
            report1 = report2)).
Proof.
  intros N host1 host2 fundData performanceData alternativeInvestments
    Id id complianceData Hyear Hdate.
  split; [ | split; [ | split ] ].
  - apply calculateRiskScore_same; assumption.
  - apply checkRegulatoryAlerts_same; assumption.
  - apply checkCompliance_same; assumption.
  - cbv zeta. repeat split.
    intros Htimestamp. unfold generateComplianceReport.
    rewrite Htimestamp. reflexivity.
Qed.

(** Two hosts in the same year, a second apart. *)
Lemma engine_deterministic_given_clock_witness :
  let host1 := host_at 2026 "2026-11-01T09:00:00.000Z" in
  let host2 := host_at 2026 "2026-11-01T09:00:01.000Z" in
  let fund := balanced_fund (N := Binary64.number) in
  calculateRiskScore host1 fund = calculateRiskScore host2 fund
  /\ checkRegulatoryAlerts host1 fund [] = checkRegulatoryAlerts host2 fund []
  /\ checkCompliance host1 fund [] [] = checkCompliance host2 fund [] [].
Proof.
  intros host1 host2 fund.
  destruct (@engine_deterministic_given_clock Binary64.number host1 host2 fund
              [] [] Z 1%Z (checkCompliance host1 fund [] []))
    as (Hscore & Halerts & Hverdict & _).
  - reflexivity.
  - intros d _. reflexivity.
  - repeat split; assumption.
Defined.

(** ** The mean *)

Section Mean.

Context {N : Number}.

Lemma total_from_reduce :
  forall (xs : list num) (subtotal : num),
    total_from subtotal xs = fold_left (fun sum ret => add sum ret) xs subtotal.
Proof.
  intros xs. induction xs as [ | x xs IH]; intros subtotal;
    cbn [total_from fold_left]; [ reflexivity | apply IH ].
Qed.

(** The mean of the specification is the quotient the functions compute:
    the [reduce] from 0 over the [length]. *)
Lemma mean_computed :
  forall xs : list num, mean xs = div (sum_of xs) (length_of xs).
Proof.
  intros xs. unfold mean, sum_of, length_of.
  rewrite total_from_reduce. reflexivity.
Qed.

End Mean.

(** ** Defaults on degenerate input *)

Section Defaults.

Context {N : Number} {S : ArraySort N}.
Local Open Scope js_scope.

(** The functions that guard the empty sequence return their default. *)
Lemma defaults_on_empty_sequences :
  forall x : num,
    calculateVolatility [] = #0
    /\ calculateMaxDrawdown [] = #0
    /\ calculateSharpeRatio [] x = #0
    /\ calculateSortinoRatio [] x = #0
    /\ calculateBeta [] [] = #1
    /\ calculateCorrelation [] [] = #0
    /\ calculateInformationRatio [] [] = #0
    /\ calculateVaR [] x = Return #0
    /\ calculateCVaR [] x = Return #0
    /\ calculateConcentrationRisk [] = #0.
Proof. intros x. repeat split; reflexivity. Qed.

(** The three functions of two sequences that guard a length mismatch. *)
Lemma defaults_on_length_mismatch :
  forall xs ys : list num,
    List.length xs <> List.length ys ->
    calculateBeta xs ys = #1
    /\ calculateCorrelation xs ys = #0
    /\ calculateInformationRatio xs ys = #0.
Proof.
  intros xs ys Hlen.
  unfold calculateBeta, calculateCorrelation, calculateInformationRatio.
  apply Nat.eqb_neq in Hlen. rewrite Hlen. repeat split; reflexivity.
Qed.

End Defaults.

(** [Reqb], [Rltb] and [Rleb] on closed comparisons. *)
Ltac decide_reals :=
  unfold Exact.Reqb, Exact.Rltb, Exact.Rleb;
  repeat match goal with
         | |- context [Req_dec_T ?a ?b] => destruct (Req_dec_T a b); try lra
         | |- context [Rlt_dec ?a ?b] => destruct (Rlt_dec a b); try lra
         | |- context [Rle_dec ?a ?b] => destruct (Rle_dec a b); try lra
         end.

Lemma calculateTreynorRatio_exact_empty :
  forall riskFreeRate : Exact.xreal,
    calculateTreynorRatio (N := Exact.number) [] [] riskFreeRate = Exact.NaN.
Proof.
  intros riskFreeRate.
  unfold calculateTreynorRatio, calculateBeta, sum_of, length_of.
  cbn. decide_reals. cbn. decide_reals. destruct riskFreeRate; reflexivity.
Qed.

Lemma calculateJensensAlpha_exact_empty :
  forall riskFreeRate : Exact.xreal,
    calculateJensensAlpha (N := Exact.number) [] [] riskFreeRate = Exact.NaN.
Proof.
  intros riskFreeRate.
  unfold calculateJensensAlpha, calculateBeta, sum_of, length_of.
  cbn. decide_reals. cbn. destruct riskFreeRate as [r | s | ]; cbn.
  - reflexivity.
  - destruct s; reflexivity.
  - reflexivity.
Qed.

(** C1, at the inputs where the code fails.  On the empty sequence
    [calculateTreynorRatio] and [calculateJensensAlpha] divide a zero sum by a
    zero length and return NaN, on binary64 and in exact arithmetic, where
    the claim promises the default 0.  On binary64 the constant sequence
    [0.1, 0.1, 0.1] has a computed deviation of about 1.4e-17, which the
    zero-deviation guard of [calculateSharpeRatio] lets through: the ratio
    returned is below -1e17. *)
Theorem degenerate_inputs_without_default :
  calculateTreynorRatio (N := Binary64.number) [] [] riskFreeRate_default
  = PrimFloat.nan
  /\ calculateJensensAlpha (N := Binary64.number) [] [] riskFreeRate_default
     = PrimFloat.nan
  /\ (forall riskFreeRate : Exact.xreal,
         calculateTreynorRatio (N := Exact.number) [] [] riskFreeRate
         = Exact.NaN
         /\ calculateJensensAlpha (N := Exact.number) [] [] riskFreeRate
            = Exact.NaN)
  /\ ltb (calculateSharpeRatio (N := Binary64.number)
            [dec 1 1; dec 1 1; dec 1 1] riskFreeRate_default)
         (of_Z (- 10 ^ 17))
     = true.
Proof.
  split; [ | split; [ | split ] ].
  - vm_compute. reflexivity.
  - vm_compute. reflexivity.
  - intros riskFreeRate. split.
    + apply calculateTreynorRatio_exact_empty.
    + apply calculateJensensAlpha_exact_empty.
  - vm_compute. reflexivity.
Qed.

(** ** Annualized return *)

Lemma calculateAnnualizedReturn_empty :
  forall (N : Number) (pow : num -> num -> num) (timePeriod : num),
    calculateAnnualizedReturn pow [] timePeriod = of_Z 0
    /\ AnnualizedReturn pow [] timePeriod = of_Z 0.
Proof. intros N pow timePeriod. split; reflexivity. Qed.

(** C2, at inputs where the code fails: one period return of 10% over 12
    months, and two of 10% each.  The code adds the growth factors to 1
    ([1 + 1.1 = 2.1] and [1 + 1.1 + 1.1 = 3.2]) and reports 110% and 220%;
    compounding them ([1.1] and [1.1 * 1.1]) gives 10% and 21%.  The exponent
    [12 / 12] is 1, and [Math.pow(x, 1)] is [x]. *)
Theorem calculateAnnualizedReturn_sums_growth_factors :
  forall pow : float -> float -> float,
    (forall x : float, pow x 1%float = x) ->
    calculateAnnualizedReturn (N := Binary64.number) pow [of_Z 10] (of_Z 12)
    = of_Z 110
    /\ AnnualizedReturn (N := Binary64.number) pow [of_Z 10] (of_Z 12)
       = of_Z 10
    /\ calculateAnnualizedReturn (N := Binary64.number) pow
         [of_Z 10; of_Z 10] (of_Z 12)
       = of_Z 220
    /\ AnnualizedReturn (N := Binary64.number) pow
         [of_Z 10; of_Z 10] (of_Z 12)
       = of_Z 21.
Proof.
  intros pow Hpow.
  assert (div (Number := Binary64.number) (of_Z 12) (of_Z 12) = 1%float) as Hexp
    by (vm_compute; reflexivity).
  unfold calculateAnnualizedReturn, AnnualizedReturn.
  cbn [List.length Nat.eqb].
  rewrite Hexp, !Hpow.
  repeat split; vm_compute; reflexivity.
Qed.

(** [Math.pow] that returns its base when the exponent is 1. *)
Lemma calculateAnnualizedReturn_sums_growth_factors_witness :
  calculateAnnualizedReturn (N := Binary64.number) (fun x _ => x)
    [of_Z 10] (of_Z 12)
  = of_Z 110.
Proof.
  apply (calculateAnnualizedReturn_sums_growth_factors (fun x _ => x)).
  intros x. reflexivity.
Defined.

(** ** Rounding inside the information ratio *)

Section TrackingError.

Context {N : Number}.
Local Open Scope js_scope.

Lemma calculateVolatility_rounds_standard_deviation :
  forall xs : list num,
    xs <> [] -> calculateVolatility xs = toFixed 2 (standard_deviation xs).
Proof.
  intros [ | x xs] Hxs; [ contradiction | ].
  unfold standard_deviation. rewrite mean_computed. reflexivity.
Qed.

(** The tracking error the code divides by is the volatility of the excess
    returns after its rounding to 2 decimals. *)
Lemma calculateInformationRatio_rounded_tracking_error :
  forall fundReturns benchmarkReturns : list num,
    List.length fundReturns = List.length benchmarkReturns ->
    fundReturns <> [] ->
    let excess :=
      map (fun p => fst p - snd p) (combine fundReturns benchmarkReturns) in
    let trackingError := toFixed 2 (standard_deviation excess) in
    calculateInformationRatio fundReturns benchmarkReturns
    = if trackingError === #0 then #0
      else toFixed 3 (mean excess / trackingError).
Proof.
  intros fundReturns benchmarkReturns Hlen Hne excess trackingError.
  unfold calculateInformationRatio.
  rewrite Hlen, Nat.eqb_refl.
  destruct fundReturns as [ | f fs]; [ contradiction | ].
  destruct benchmarkReturns as [ | b bs]; [ discriminate | ].
  unfold trackingError, standard_deviation. rewrite mean_computed.
  reflexivity.
Qed.

(** The siblings divide by deviations that were never rounded. *)
Lemma calculateSharpeRatio_full_precision :
  forall (returns : list num) (riskFreeRate : num),
    returns <> [] ->
    calculateSharpeRatio returns riskFreeRate
    = if standard_deviation returns === #0 then #0
      else toFixed 3 ((mean returns - riskFreeRate)
                      / standard_deviation returns).
Proof.
  intros [ | r returns] riskFreeRate Hne; [ contradiction | ].
  unfold standard_deviation. rewrite mean_computed. reflexivity.
Qed.

Lemma calculateSortinoRatio_full_precision :
  forall (returns : list num) (riskFreeRate : num),
    returns <> [] ->
    let downside := filter (fun ret => ret <? mean returns) returns in
    let downsideDeviation :=
      sqrt (fold_left
              (fun sum ret =>
                 sum + (ret - mean returns) * (ret - mean returns))
              downside #0
            / length_of returns) in
    calculateSortinoRatio returns riskFreeRate
    = match downside with
      | [] => #0
      | _ => if downsideDeviation === #0 then #0
             else toFixed 3 ((mean returns - riskFreeRate)
                             / downsideDeviation)
      end.
Proof.
  intros [ | r returns] riskFreeRate Hne; [ contradiction | ].
  cbv zeta. rewrite mean_computed.
  unfold calculateSortinoRatio. cbn [List.length Nat.eqb].
  destruct (filter _ (r :: returns)); reflexivity.
Qed.

End TrackingError.

(** C9, at inputs where the code fails, on binary64.  Returns of 1.01 and
    1.00 against a benchmark of 1.00 and 1.00 have excess returns of mean
    0.005 and standard deviation 0.005; [calculateVolatility] rounds the
    deviation to 0.01, and [calculateInformationRatio] returns 0.5 where the
    ratio at full precision is 1.  Excess returns of 0.01 and 0.002 have mean
    0.006 and standard deviation 0.004, which is rounded to 0.00: the code
    takes the tracking error for zero and returns 0 where the ratio at full
    precision is 1.5. *)
Theorem calculateInformationRatio_uses_rounded_volatility :
  let fundReturns := [dec (N := Binary64.number) 101 2; of_Z 1] in
  let benchmarkReturns := [of_Z (Number := Binary64.number) 1; of_Z 1] in
  let smallReturns := [dec (N := Binary64.number) 1 2; dec 2 3] in
  let zeroBenchmark := [of_Z (Number := Binary64.number) 0; of_Z 0] in
  calculateInformationRatio fundReturns benchmarkReturns = dec 5 1
  /\ InformationRatio fundReturns benchmarkReturns = of_Z 1
  /\ calculateVolatility smallReturns = of_Z 0
  /\ ltb (dec 39 4) (standard_deviation smallReturns) = true
  /\ ltb (standard_deviation smallReturns) (dec 41 4) = true
  /\ calculateInformationRatio smallReturns zeroBenchmark = of_Z 0
  /\ InformationRatio smallReturns zeroBenchmark = dec 15 1.
Proof. cbv zeta. repeat split; vm_compute; reflexivity. Qed.

(** ** Liquidity requirements *)

Lemma last_cons_default :
  forall (A : Type) (l : list A) (a d : A), last (a :: l) d = last l a.
Proof.
  intros A l. induction l as [ | b l IH]; intros a d.
  - reflexivity.
  - change (last (a :: b :: l) d) with (last (b :: l) d).
    rewrite (IH b d), (IH b a). reflexivity.
Qed.



Lemma dec_exact :
  forall (m : Z) (k : nat),
    dec (N := Exact.number) m k
    = Exact.Fin (IZR m / IZR (10 ^ Z.of_nat k)).
Proof.
  intros m k. unfold dec. cbn.
  assert (0 < IZR (10 ^ Z.of_nat k))%R as Hpos.
  { apply IZR_lt. apply Z.pow_pos_nonneg; lia. }
  decide_reals. reflexivity.
Qed.







(** ** The comparator of the sort on binary64 *)

(** [a - b] is positive exactly when [b < a]: from the specification of the
    binary64 subtraction (alignment of the mantissas, exact difference,
    rounding to nearest) and of the comparison, for canonical operands. *)
Section Binary64Comparator.

Import Binary64.

(** Swapping the operands of a comparison reverses its outcome. *)
Lemma SFcompare_swap :
  forall x y : spec_float,
    SFcompare y x = option_map CompOpp (SFcompare x y).
Proof.
  intros [sx | sx | | sx mx ex] [sy | sy | | sy my ey]; cbn;
    try reflexivity;
    try (destruct sx; reflexivity);
    try (destruct sy; reflexivity);
    try (destruct sx, sy; reflexivity).
  destruct sx, sy; cbn; try reflexivity.
  - rewrite (Z.compare_antisym ex ey).
    destruct (ex ?= ey)%Z; cbn; try reflexivity.
    rewrite (ZC4 my mx). reflexivity.
  - rewrite (Z.compare_antisym ex ey).
    destruct (ex ?= ey)%Z; cbn; try reflexivity.
    rewrite (ZC4 my mx).
    destruct (Pos.compare_cont Eq mx my); reflexivity.
Qed.

Lemma digits2_pos_size : forall m : positive, digits2_pos m = Pos.size m.
Proof. intros m. induction m; cbn; congruence. Qed.

Lemma digits2_pos_bounds :
  forall m : positive,
    (2 ^ (Zpos (digits2_pos m) - 1) <= Zpos m < 2 ^ Zpos (digits2_pos m))%Z.
Proof.
  intros m. rewrite digits2_pos_size.
  pose proof (Pos.size_gt m) as Hgt. pose proof (Pos.size_le m) as Hle.
  apply Pos2Z.pos_lt_pos in Hgt. apply Pos2Z.pos_le_pos in Hle.
  rewrite Pos2Z.inj_pow in Hgt, Hle.
  change (Z.pos m~0) with (2 * Z.pos m)%Z in Hle.
  split; [ | exact Hgt ].
  assert (2 ^ Z.pos (Pos.size m) = 2 * 2 ^ (Z.pos (Pos.size m) - 1))%Z as E.
  { rewrite <- Z.pow_succ_r by lia. f_equal. lia. }
  lia.
Qed.

Lemma iter_xO_value :
  forall (m d : positive), Zpos (Pos.iter xO m d) = (Zpos m * 2 ^ Zpos d)%Z.
Proof.
  intros m d. induction d as [ | d IH] using Pos.peano_ind.
  - cbn. lia.
  - rewrite Pos.iter_succ, Pos2Z.inj_xO, IH, Pos2Z.inj_succ, Z.pow_succ_r
      by lia.
    lia.
Qed.

Lemma shl_align_value :
  forall (m : positive) (e e' : Z),
    (e' <= e)%Z ->
    Zpos (fst (shl_align m e e')) = (Zpos m * 2 ^ (e - e'))%Z
    /\ snd (shl_align m e e') = e'.
Proof.
  intros m e e' Hle. unfold shl_align.
  destruct (e' - e)%Z as [ | d | d] eqn:Hd; cbn [fst snd].
  - replace (e - e')%Z with 0%Z by lia. split; lia.
  - lia.
  - rewrite iter_xO_value. replace (e - e')%Z with (Zpos d) by lia. split; lia.
Qed.

Lemma binary_round_aux_sign :
  forall (s : bool) (m e : Z) (l : location),
    sign_is s (binary_round_aux prec emax s m e l).
Proof.
  intros s m e l. unfold binary_round_aux.
  destruct (shr_fexp prec emax m e l) as [mrs' e'].
  destruct (shr_fexp prec emax _ e' loc_Exact) as [mrs'' e''].
  unfold sign_is.
  destruct (shr_m mrs''); try reflexivity; try exact I.
  destruct (e'' <=? emax - prec)%Z; reflexivity.
Qed.

Lemma binary_round_sign :
  forall (s : bool) (m : positive) (e : Z),
    sign_is s (binary_round prec emax s m e).
Proof.
  intros s m e. unfold binary_round.
  destruct (shl_align m e _) as [mz ez]. apply binary_round_aux_sign.
Qed.

Lemma shr_1_m :
  forall mrs : shr_record,
    (0 <= shr_m mrs)%Z -> shr_m (shr_1 mrs) = (shr_m mrs / 2)%Z.
Proof.
  intros [m r s] Hm. cbn [shr_m] in *. unfold shr_1.
  destruct m as [ | [p | p | ] | p]; cbn [shr_m]; try lia.
  all: try reflexivity.
  all: rewrite <- Z.div2_div; reflexivity.
Qed.

Lemma iter_pos_shr_1_m :
  forall (p : positive) (mrs : shr_record),
    (0 <= shr_m mrs)%Z ->
    shr_m (SpecFloat.iter_pos shr_1 p mrs) = (shr_m mrs / 2 ^ Zpos p)%Z.
Proof.
  intros p. induction p as [p IH | p IH | ]; intros mrs Hm;
    cbn [SpecFloat.iter_pos].
  - assert (0 <= shr_m (shr_1 mrs))%Z as H1
      by (rewrite shr_1_m by exact Hm; apply Z.div_pos; lia).
    assert (0 <= shr_m (SpecFloat.iter_pos shr_1 p (shr_1 mrs)))%Z as H2
      by (rewrite IH by exact H1; apply Z.div_pos; lia).
    rewrite IH by exact H2. rewrite IH by exact H1. rewrite shr_1_m by exact Hm.
    rewrite !Z.div_div by lia. f_equal.
    rewrite (Pos2Z.inj_xI p), Z.pow_add_r, Z.pow_mul_r by lia.
    change (2 ^ 2)%Z with 4%Z. change (2 ^ 1)%Z with 2%Z.
    replace (4 ^ Z.pos p)%Z with (2 ^ Z.pos p * 2 ^ Z.pos p)%Z.
    + lia.
    + rewrite <- Z.pow_mul_l. reflexivity.
  - assert (0 <= shr_m (SpecFloat.iter_pos shr_1 p mrs))%Z as H2
      by (rewrite IH by exact Hm; apply Z.div_pos; lia).
    rewrite IH by exact H2. rewrite IH by exact Hm.
    rewrite !Z.div_div by lia. f_equal.
    rewrite (Pos2Z.inj_xO p), Z.pow_mul_r by lia.
    change (2 ^ 2)%Z with 4%Z.
    rewrite <- Z.pow_mul_l. reflexivity.
  - rewrite shr_1_m by exact Hm. reflexivity.
Qed.

Lemma fexp_ge_emin :
  forall z : Z, (SpecFloat.emin prec emax <= fexp prec emax z)%Z.
Proof. intros z. unfold fexp. lia. Qed.

(** Shifting a positive mantissa to its canonical exponent keeps it
    positive, when the exponent is not below the smallest one. *)
Lemma shr_fexp_positive :
  forall (m e : Z) (l : location),
    (0 < m)%Z -> (SpecFloat.emin prec emax <= e)%Z ->
    (0 < shr_m (fst (shr_fexp prec emax m e l)))%Z
    /\ (SpecFloat.emin prec emax <= snd (shr_fexp prec emax m e l))%Z.
Proof.
  intros m e l Hm He. unfold shr_fexp, shr.
  assert (shr_m (shr_record_of_loc m l) = m) as Hrec.
  { destruct l as [ | [ | | ]]; reflexivity. }
  destruct (fexp prec emax (Zdigits2 m + e) - e)%Z as [ | p | p] eqn:Hn;
    cbn [fst snd]; try (rewrite Hrec; split; lia).
  rewrite iter_pos_shr_1_m by (rewrite Hrec; lia). rewrite Hrec.
  destruct m as [ | q | q]; try lia. cbn [Zdigits2] in Hn.
  pose proof (digits2_pos_bounds q) as [Hlow _].
  unfold fexp in Hn. change prec with 53%Z in *.
  assert (Z.pos p = Z.pos (digits2_pos q) - 53)%Z as Hp by lia.
  split; [ | lia ].
  apply Z.div_str_pos. split; [ apply Z.pow_pos_nonneg; lia | ].
  apply Z.le_trans with (2 ^ (Z.pos (digits2_pos q) - 1))%Z; [ | exact Hlow ].
  apply Z.pow_le_mono_r; lia.
Qed.

Lemma round_nearest_even_ge :
  forall (m : Z) (l : location), (m <= round_nearest_even m l)%Z.
Proof.
  intros m [ | [ | | ]]; cbn; try lia. destruct (Z.even m); lia.
Qed.

Lemma binary_round_aux_nonzero :
  forall (s : bool) (m e : Z) (l : location),
    (0 < m)%Z -> (SpecFloat.emin prec emax <= e)%Z ->
    nonzero (binary_round_aux prec emax s m e l).
Proof.
  intros s m e l Hm He. unfold binary_round_aux.
  pose proof (shr_fexp_positive m e l Hm He) as [Hm' He'].
  destruct (shr_fexp prec emax m e l) as [mrs' e']. cbn [fst snd] in *.
  pose proof (round_nearest_even_ge (shr_m mrs') (loc_of_shr_record mrs'))
    as Hround.
  assert (0 < round_nearest_even (shr_m mrs') (loc_of_shr_record mrs'))%Z
    as Hpos by lia.
  pose proof (shr_fexp_positive _ e' loc_Exact Hpos He') as [Hm'' _].
  destruct (shr_fexp prec emax _ e' loc_Exact) as [mrs'' e''].
  cbn [fst] in Hm''.
  destruct (shr_m mrs''); try lia.
  destruct (e'' <=? emax - prec)%Z; exact I.
Qed.

Lemma binary_round_nonzero :
  forall (s : bool) (m : positive) (e : Z),
    (SpecFloat.emin prec emax <= e)%Z -> nonzero (binary_round prec emax s m e).
Proof.
  intros s m e He. unfold binary_round.
  pose proof (fexp_ge_emin (Z.pos (digits2_pos m) + e)) as Hfexp.
  unfold shl_align.
  destruct (fexp prec emax (Z.pos (digits2_pos m) + e) - e)%Z eqn:Hd;
    apply binary_round_aux_nonzero; lia.
Qed.

(** What [valid_binary] says of a finite value. *)
Lemma bounded_canonical :
  forall (m : positive) (e : Z),
    SpecFloat.bounded prec emax m e = true ->
    (SpecFloat.emin prec emax <= e)%Z
    /\ (Z.pos (digits2_pos m) <= prec)%Z
    /\ (SpecFloat.emin prec emax < e -> Z.pos (digits2_pos m) = prec)%Z.
Proof.
  intros m e H. unfold SpecFloat.bounded, canonical_mantissa, fexp in H.
  apply andb_prop in H. destruct H as [H _]. apply Z.eqb_eq in H.
  change prec with 53%Z in *. unfold SpecFloat.emin in *.
  change emax with 1024%Z in *.
  lia.
Qed.

(** A canonical mantissa at a larger exponent is the larger value. *)
Lemma canonical_magnitude :
  forall (mx my : positive) (ex ey : Z),
    SpecFloat.bounded prec emax mx ex = true ->
    SpecFloat.bounded prec emax my ey = true ->
    (ey < ex)%Z ->
    (Z.pos my < Z.pos mx * 2 ^ (ex - ey))%Z.
Proof.
  intros mx my ex ey Hx Hy Hlt.
  destruct (bounded_canonical mx ex Hx) as (_ & _ & Hnormal).
  destruct (bounded_canonical my ey Hy) as (Hemin & Hdigits & _).
  pose proof (digits2_pos_bounds mx) as [Hlow _].
  pose proof (digits2_pos_bounds my) as [_ Hhigh].
  rewrite Hnormal in Hlow by lia.
  change prec with 53%Z in *.
  assert (2 ^ Z.pos (digits2_pos my) <= 2 ^ 53)%Z as Hpow
    by (apply Z.pow_le_mono_r; lia).
  assert (2 ^ 1 <= 2 ^ (ex - ey))%Z as Hshift
    by (apply Z.pow_le_mono_r; lia).
  change (2 ^ (53 - 1))%Z with 4503599627370496%Z in Hlow.
  change (2 ^ 53)%Z with 9007199254740992%Z in Hpow.
  change (2 ^ 1)%Z with 2%Z in Hshift.
  nia.
Qed.

(** The aligned difference of two finite values is positive exactly when
    the comparison says the second is below the first. *)
Lemma aligned_difference_sign :
  forall (sx sy : bool) (mx my : positive) (ex ey : Z),
    SpecFloat.bounded prec emax mx ex = true ->
    SpecFloat.bounded prec emax my ey = true ->
    let ez := Z.min ex ey in
    let difference :=
      (cond_Zopp sx (Z.pos (fst (shl_align mx ex ez)))
       - cond_Zopp sy (Z.pos (fst (shl_align my ey ez))))%Z in
    SFltb (S754_finite sy my ey) (S754_finite sx mx ex)
    = (0 <? difference)%Z.
Proof.
  intros sx sy mx my ex ey Hx Hy ez difference.
  destruct (shl_align_value mx ex ez) as [HX _]; [ unfold ez; lia | ].
  destruct (shl_align_value my ey ez) as [HY _]; [ unfold ez; lia | ].
  unfold difference. rewrite HX, HY. clear HX HY difference.
  assert (0 < Z.pos mx * 2 ^ (ex - ez))%Z as HXpos
    by (apply Z.mul_pos_pos; [ lia | apply Z.pow_pos_nonneg; unfold ez; lia ]).
  assert (0 < Z.pos my * 2 ^ (ey - ez))%Z as HYpos
    by (apply Z.mul_pos_pos; [ lia | apply Z.pow_pos_nonneg; unfold ez; lia ]).
  unfold SFltb, SFcompare.
  destruct sx, sy; cbn [cond_Zopp].
  - (* both negative *)
    destruct (Z.compare_spec ey ex) as [Heq | Hlt | Hgt].
    + subst ey. unfold ez in *. rewrite Z.min_id, Z.sub_diag in *.
      rewrite Z.pow_0_r, !Z.mul_1_r in *.
      rewrite Pos.compare_cont_spec. cbn [Pos.switch_Eq].
      destruct (Pos.compare_spec my mx) as [E | L | G]; cbn [CompOpp].
      * subst. symmetry. apply Z.ltb_ge. lia.
      * symmetry. apply Z.ltb_ge. lia.
      * symmetry. apply Z.ltb_lt. lia.
    + pose proof (canonical_magnitude mx my ex ey Hx Hy Hlt) as Hmag.
      replace ez with ey in * by (unfold ez; lia).
      rewrite Z.sub_diag, Z.pow_0_r, Z.mul_1_r in *.
      symmetry. apply Z.ltb_ge. lia.
    + pose proof (canonical_magnitude my mx ey ex Hy Hx Hgt) as Hmag.
      replace ez with ex in * by (unfold ez; lia).
      rewrite Z.sub_diag, Z.pow_0_r, Z.mul_1_r in *.
      symmetry. apply Z.ltb_lt. lia.
  - (* x negative, y positive *)
    symmetry. apply Z.ltb_ge. lia.
  - (* x positive, y negative *)
    symmetry. apply Z.ltb_lt. lia.
  - (* both positive *)
    destruct (Z.compare_spec ey ex) as [Heq | Hlt | Hgt].
    + subst ey. unfold ez in *. rewrite Z.min_id, Z.sub_diag in *.
      rewrite Z.pow_0_r, !Z.mul_1_r in *.
      rewrite Pos.compare_cont_spec. cbn [Pos.switch_Eq].
      destruct (Pos.compare_spec my mx) as [E | L | G].
      * subst. symmetry. apply Z.ltb_ge. lia.
      * symmetry. apply Z.ltb_lt. lia.
      * symmetry. apply Z.ltb_ge. lia.
    + pose proof (canonical_magnitude mx my ex ey Hx Hy Hlt) as Hmag.
      replace ez with ey in * by (unfold ez; lia).
      rewrite Z.sub_diag, Z.pow_0_r, Z.mul_1_r in *.
      symmetry. apply Z.ltb_lt. lia.
    + pose proof (canonical_magnitude my mx ey ex Hy Hx Hgt) as Hmag.
      replace ez with ex in * by (unfold ez; lia).
      rewrite Z.sub_diag, Z.pow_0_r, Z.mul_1_r in *.
      symmetry. apply Z.ltb_ge. lia.
Qed.

Lemma SFltb_zero_sign :
  forall r : spec_float,
    sign_is true r -> SFltb (S754_zero false) r = false.
Proof.
  intros [s | s | | s m e] Hs; cbn in *; subst; reflexivity.
Qed.

Lemma SFltb_zero_positive :
  forall r : spec_float,
    sign_is false r -> nonzero r -> SFltb (S754_zero false) r = true.
Proof.
  intros [s | s | | s m e] Hs Hnz; cbn in *; subst;
    try contradiction; reflexivity.
Qed.

(** The comparator of the sort, on specification floats: the difference is
    positive exactly when the second operand is below the first. *)
Lemma SFsub_positive :
  forall x y : spec_float,
    valid_binary x = true ->
    valid_binary y = true ->
    SFltb (S754_zero false) (SFsub prec emax x y) = SFltb y x.
Proof.
  intros [sx | sx | | sx mx ex] [sy | sy | | sy my ey] Hx Hy;
    try reflexivity;
    try (destruct sx; reflexivity);
    try (destruct sy; reflexivity);
    try (destruct sx, sy; reflexivity).
  cbn [SpecFloat.valid_binary] in Hx, Hy.
  rewrite (aligned_difference_sign sx sy mx my ex ey Hx Hy).
  cbv zeta. unfold SFsub.
  destruct (bounded_canonical mx ex Hx) as (Hex & _).
  destruct (bounded_canonical my ey Hy) as (Hey & _).
  set (difference :=
         (cond_Zopp sx (Z.pos (fst (shl_align mx ex (Z.min ex ey))))
          - cond_Zopp sy (Z.pos (fst (shl_align my ey (Z.min ex ey)))))%Z).
  destruct difference as [ | d | d]; cbn [binary_normalize].
  - reflexivity.
  - apply SFltb_zero_positive.
    + apply binary_round_sign.
    + apply binary_round_nonzero. lia.
  - apply SFltb_zero_sign. apply binary_round_sign.
Qed.

(** The comparator of the sort, on binary64. *)
Lemma sub_positive :
  forall a b : float, (0 <? a - b)%float = (b <? a)%float.
Proof.
  intros a b. rewrite !ltb_spec, sub_spec.
  change (Prim2SF 0) with (S754_zero false).
  apply SFsub_positive; apply Prim2SF_valid.
Qed.

Lemma ltb_asymmetric :
  forall a b : float, (a <? b)%float = true -> (b <? a)%float = false.
Proof.
  intros a b. rewrite !ltb_spec. unfold SFltb.
  rewrite (SFcompare_swap (Prim2SF a) (Prim2SF b)).
  destruct (SFcompare (Prim2SF a) (Prim2SF b)) as [[ | | ] | ]; cbn;
    intros H; try discriminate; reflexivity.
Qed.

(** Between two numbers that are not NaN, "not above" is "at most". *)
Lemma not_above_leb :
  forall a b : float,
    (a =? a)%float = true -> (b =? b)%float = true ->
    (b <? a)%float = false -> (a <=? b)%float = true.
Proof.
  intros a b. rewrite !eqb_spec, ltb_spec, leb_spec.
  unfold SFeqb, SFltb, SFleb.
  rewrite (SFcompare_swap (Prim2SF a) (Prim2SF b)).
  destruct (Prim2SF a) as [sa | sa | | sa ma ea];
    destruct (Prim2SF b) as [sb | sb | | sb mb eb];
    cbn; try discriminate; intros _ _;
    try (destruct sa; cbn; intros H; try discriminate; reflexivity);
    try (destruct sb; cbn; intros H; try discriminate; reflexivity);
    try (destruct sa, sb; cbn; intros H; try discriminate; reflexivity).
  all: try (intros H; reflexivity).
  destruct sa, sb; cbn; try (intros H; try discriminate; reflexivity).
  - destruct (ea ?= eb)%Z; cbn; try (intros H; try discriminate; reflexivity).
    destruct (Pos.compare_cont Eq ma mb); cbn; intros H; try discriminate;
      reflexivity.
  - destruct (ea ?= eb)%Z; cbn; try (intros H; try discriminate; reflexivity).
    destruct (Pos.compare_cont Eq ma mb); cbn; intros H; try discriminate;
      reflexivity.
Qed.


Lemma SFltb_sign_positive :
  forall r : spec_float,
    sign_is false r -> SFltb r (S754_zero false) = false.
Proof.
  intros [s | s | | s m e] Hs; cbn in *; subst; reflexivity.
Qed.

Lemma SFltb_sign_negative :
  forall r : spec_float,
    sign_is true r -> nonzero r -> SFltb r (S754_zero false) = true.
Proof.
  intros [s | s | | s m e] Hs Hnz; cbn in *; subst;
    try contradiction; reflexivity.
Qed.

(** The difference is negative exactly when the first operand is below the
    second. *)
Lemma SFsub_negative :
  forall x y : spec_float,
    valid_binary x = true ->
    valid_binary y = true ->
    SFltb (SFsub prec emax x y) (S754_zero false) = SFltb x y.
Proof.
  intros [sx | sx | | sx mx ex] [sy | sy | | sy my ey] Hx Hy;
    try reflexivity;
    try (destruct sx; reflexivity);
    try (destruct sy; reflexivity);
    try (destruct sx, sy; reflexivity).
  cbn [SpecFloat.valid_binary] in Hx, Hy.
  rewrite (aligned_difference_sign sy sx my mx ey ex Hy Hx).
  cbv zeta. unfold SFsub.
  destruct (bounded_canonical mx ex Hx) as (Hex & _).
  destruct (bounded_canonical my ey Hy) as (Hey & _).
  rewrite (Z.min_comm ey ex).
  set (X := cond_Zopp sx (Z.pos (fst (shl_align mx ex (Z.min ex ey))))).
  set (Y := cond_Zopp sy (Z.pos (fst (shl_align my ey (Z.min ex ey))))).
  destruct (X - Y)%Z as [ | d | d] eqn:Hd; cbn [binary_normalize].
  - replace (Y - X)%Z with 0%Z by lia. reflexivity.
  - replace (0 <? Y - X)%Z with false by (symmetry; apply Z.ltb_ge; lia).
    apply SFltb_sign_positive. apply binary_round_sign.
  - replace (0 <? Y - X)%Z with true by (symmetry; apply Z.ltb_lt; lia).
    apply SFltb_sign_negative.
    + apply binary_round_sign.
    + apply binary_round_nonzero. lia.
Qed.

Lemma sub_negative :
  forall a b : float, (a - b <? 0)%float = (a <? b)%float.
Proof.
  intros a b. rewrite !ltb_spec, sub_spec.
  change (Prim2SF 0) with (S754_zero false).
  apply SFsub_negative; apply Prim2SF_valid.
Qed.

(** The exponent of a finite value is at most [emax - prec]. *)
Lemma bounded_exponent :
  forall (m : positive) (e : Z),
    SpecFloat.bounded prec emax m e = true -> (e <= emax - prec)%Z.
Proof.
  intros m e H. unfold SpecFloat.bounded in H.
  apply andb_prop in H. destruct H as [_ H]. apply Z.leb_le in H. exact H.
Qed.

(** A finite value is worth less than an infinity. *)
Lemma rank_finite :
  forall (s : bool) (m : positive) (e : Z),
    SpecFloat.bounded prec emax m e = true ->
    (- 2 ^ 2098 < rank (S754_finite s m e) < 2 ^ 2098)%Z
    /\ (if s then rank (S754_finite s m e) < 0
        else 0 < rank (S754_finite s m e))%Z.
Proof.
  intros s m e H.
  destruct (bounded_canonical m e H) as (Hemin & Hdigits & _).
  pose proof (bounded_exponent m e H) as Hemax.
  pose proof (digits2_pos_bounds m) as [_ Hhigh].
  change prec with 53%Z in *. change emax with 1024%Z in *.
  unfold SpecFloat.emin in Hemin. change emax with 1024%Z in Hemin.
  change prec with 53%Z in Hemin.
  assert (2 ^ Z.pos (digits2_pos m) <= 2 ^ 53)%Z as Hpow
    by (apply Z.pow_le_mono_r; lia).
  assert (0 < 2 ^ (e + 1074))%Z as Hpos
    by (apply Z.pow_pos_nonneg; lia).
  assert (2 ^ (e + 1074) <= 2 ^ 2045)%Z as Hscale
    by (apply Z.pow_le_mono_r; lia).
  assert (Z.pos m * 2 ^ (e + 1074) < 2 ^ 53 * 2 ^ 2045)%Z as Hbound.
  { apply Z.le_lt_trans with (Z.pos m * 2 ^ 2045)%Z.
    - apply Z.mul_le_mono_nonneg_l; lia.
    - apply Z.mul_lt_mono_pos_r; [ apply Z.pow_pos_nonneg; lia | lia ]. }
  rewrite <- Z.pow_add_r in Hbound by lia.
  change (53 + 2045)%Z with 2098%Z in Hbound.
  assert (0 < Z.pos m * 2 ^ (e + 1074))%Z as Hworth
    by (apply Z.mul_pos_pos; lia).
  unfold rank. destruct s; cbn [cond_Zopp]; lia.
Qed.

(** Between two numbers, the comparison is the comparison of their worth. *)
Lemma SFltb_rank :
  forall x y : spec_float,
    valid_binary x = true ->
    valid_binary y = true ->
    x <> S754_nan -> y <> S754_nan ->
    SFltb x y = (rank x <? rank y)%Z.
Proof.
  intros x y Hx Hy Hxn Hyn.
  assert (0 < 2 ^ 2098)%Z as Hinf by (apply Z.pow_pos_nonneg; lia).
  destruct x as [sx | sx | | sx mx ex]; [ | | contradiction | ];
    (destruct y as [sy | sy | | sy my ey]; [ | | contradiction | ]);
    cbn [SpecFloat.valid_binary] in Hx, Hy;
    try pose proof (rank_finite sx mx ex Hx) as [Hrx Hsx];
    try pose proof (rank_finite sy my ey Hy) as [Hry Hsy].
  9: {
    rewrite (aligned_difference_sign sy sx my mx ey ex Hy Hx). cbv zeta.
    destruct (bounded_canonical mx ex Hx) as (Hex & _).
    destruct (bounded_canonical my ey Hy) as (Hey & _).
    unfold SpecFloat.emin in Hex, Hey.
    change emax with 1024%Z in Hex, Hey. change prec with 53%Z in Hex, Hey.
    set (ez := Z.min ey ex).
    destruct (shl_align_value mx ex ez) as [-> _]; [ unfold ez; lia | ].
    destruct (shl_align_value my ey ez) as [-> _]; [ unfold ez; lia | ].
    assert (0 < 2 ^ (ez + 1074))%Z as HK
      by (apply Z.pow_pos_nonneg; unfold ez; lia).
    assert (2 ^ (ex + 1074) = 2 ^ (ex - ez) * 2 ^ (ez + 1074))%Z as HX.
    { rewrite <- Z.pow_add_r by (unfold ez; lia). f_equal. lia. }
    assert (2 ^ (ey + 1074) = 2 ^ (ey - ez) * 2 ^ (ez + 1074))%Z as HY.
    { rewrite <- Z.pow_add_r by (unfold ez; lia). f_equal. lia. }
    unfold rank. rewrite HX, HY.
    set (K := (2 ^ (ez + 1074))%Z) in *.
    set (A := (Z.pos mx * 2 ^ (ex - ez))%Z).
    set (B := (Z.pos my * 2 ^ (ey - ez))%Z).
    replace (Z.pos mx * (2 ^ (ex - ez) * K))%Z with (A * K)%Z
      by (unfold A; ring).
    replace (Z.pos my * (2 ^ (ey - ez) * K))%Z with (B * K)%Z
      by (unfold B; ring).
    destruct sx, sy; cbn [cond_Zopp];
      match goal with
      | |- (0 <? ?d)%Z = (?l <? ?r)%Z =>
          destruct (Z.ltb_spec 0 d) as [H1 | H1];
          destruct (Z.ltb_spec l r) as [H2 | H2];
          try reflexivity; exfalso; nia
      end. }
  all: unfold SFltb, SFcompare.
  all: set (infinity := (2 ^ 2098)%Z) in *.
  all: repeat match goal with
         | |- context [rank (S754_finite ?s ?m ?e)] =>
             set (rank (S754_finite s m e)) in *
         end.
  all: unfold rank.
  all: repeat match goal with
         | s : bool |- _ => destruct s
         end.
  all: cbn [cond_Zopp].
  all: symmetry; first [ apply Z.ltb_lt; lia | apply Z.ltb_ge; lia ].
Qed.

(** The worth of a binary64 number. *)
Lemma ltb_rank :
  forall a b : float,
    is_number a -> is_number b ->
    (a <? b)%float = (rank (Prim2SF a) <? rank (Prim2SF b))%Z.
Proof.
  intros a b Ha Hb. rewrite ltb_spec.
  unfold is_number in Ha, Hb. rewrite eqb_spec in Ha, Hb.
  apply SFltb_rank; try apply Prim2SF_valid.
  - intros H. rewrite H in Ha. discriminate.
  - intros H. rewrite H in Hb. discriminate.
Qed.

Lemma ltb_irreflexive : forall x : float, (x <? x)%float = false.
Proof.
  intros x. rewrite ltb_spec. unfold SFltb.
  destruct (Prim2SF x) as [s | s | | s m e]; cbn.
  - reflexivity.
  - destruct s; reflexivity.
  - reflexivity.
  - rewrite Z.compare_refl, Pos.compare_cont_refl. destruct s; reflexivity.
Qed.

End Binary64Comparator.

(** ** Exact arithmetic: rounding to decimals *)

Section ExactRounding.

Import Exact.
Local Open Scope R_scope.

Lemma Int_part_monotone :
  forall x y : R, x <= y -> (Int_part x <= Int_part y)%Z.
Proof.
  intros x y Hxy.
  destruct (base_Int_part x) as [Hx _]. destruct (base_Int_part y) as [_ Hy].
  assert (Int_part x < Int_part y + 1)%Z as H.
  { apply lt_IZR. rewrite plus_IZR. lra. }
  lia.
Qed.

Lemma Int_part_half :
  forall n : Z, Int_part (IZR n + / 2) = n.
Proof.
  intros n. symmetry. apply Int_part_spec. lra.
Qed.

Lemma pow10_positive : forall k : nat, 0 < IZR (10 ^ Z.of_nat k).
Proof. intros k. apply IZR_lt. apply Z.pow_pos_nonneg; lia. Qed.

(** The integer [n] with [round_dec k a = n / 10^k]. *)
Lemma round_dec_quotient :
  forall (k : nat) (a : R),
    exists n : Z,
      round_dec k a = IZR n / IZR (10 ^ Z.of_nat k)
      /\ (0 <= a -> (0 <= n)%Z)
      /\ (a <= 0 -> (n <= 0)%Z).
Proof.
  intros k a. unfold round_dec.
  pose proof (pow10_positive k) as Hp.
  set (p := IZR (10 ^ Z.of_nat k)) in *.
  assert (0 <= Int_part (Rabs a * p + / 2))%Z as Hn.
  { replace 0%Z with (Int_part 0) by (symmetry; apply Int_part_spec; lra).
    apply Int_part_monotone. pose proof (Rabs_pos a). nra. }
  unfold Rltb. destruct (Rlt_dec a 0) as [Hneg | Hpos].
  - exists (- Int_part (Rabs a * p + / 2))%Z. split; [ | split ].
    + rewrite opp_IZR. field. lra.
    + intros Ha. lra.
    + intros _. lia.
  - exists (Int_part (Rabs a * p + / 2)). split; [ reflexivity | split ].
    + intros _. exact Hn.
    + intros Ha. assert (a = 0) as -> by lra.
      rewrite Rabs_R0, Rmult_0_l, Rplus_0_l.
      replace (Int_part (/ 2)) with 0%Z
        by (apply Int_part_spec; lra).
      lia.
Qed.

Lemma round_dec_integer :
  forall (k : nat) (n : Z),
    round_dec k (IZR n / IZR (10 ^ Z.of_nat k))
    = IZR n / IZR (10 ^ Z.of_nat k).
Proof.
  intros k n. unfold round_dec.
  pose proof (pow10_positive k) as Hp.
  set (p := IZR (10 ^ Z.of_nat k)) in *.
  assert (/ p > 0) as Hinv by (apply Rinv_0_lt_compat; exact Hp).
  unfold Rltb. destruct (Rlt_dec (IZR n / p) 0) as [Hneg | Hpos].
  - assert (IZR n < 0) as Hn.
    { unfold Rdiv in Hneg. nra. }
    rewrite Rabs_left by exact Hneg.
    replace (- (IZR n / p) * p + / 2) with (IZR (- n) + / 2)
      by (rewrite opp_IZR; field; lra).
    rewrite Int_part_half, opp_IZR. field. lra.
  - assert (0 <= IZR n) as Hn.
    { apply Rnot_lt_le in Hpos. unfold Rdiv in Hpos.
      apply Rmult_le_reg_r with (/ p); [ exact Hinv | ]. lra. }
    rewrite Rabs_right by lra.
    replace (IZR n / p * p + / 2) with (IZR n + / 2) by (field; lra).
    rewrite Int_part_half. reflexivity.
Qed.

Lemma round_dec_idempotent :
  forall (k : nat) (a : R), round_dec k (round_dec k a) = round_dec k a.
Proof.
  intros k a. destruct (round_dec_quotient k a) as (n & -> & _).
  apply round_dec_integer.
Qed.

Lemma round_dec_monotone :
  forall (k : nat) (a b : R), a <= b -> round_dec k a <= round_dec k b.
Proof.
  intros k a b Hab. unfold round_dec.
  pose proof (pow10_positive k) as Hp.
  set (p := IZR (10 ^ Z.of_nat k)) in *.
  assert (/ p > 0) as Hinv by (apply Rinv_0_lt_compat; exact Hp).
  assert (forall x : R, 0 <= IZR (Int_part (Rabs x * p + / 2))) as Hn.
  { intros x. apply IZR_le.
    replace 0%Z with (Int_part 0) by (symmetry; apply Int_part_spec; lra).
    apply Int_part_monotone. pose proof (Rabs_pos x). nra. }
  unfold Rltb.
  destruct (Rlt_dec a 0) as [Ha | Ha]; destruct (Rlt_dec b 0) as [Hb | Hb].
  - assert (IZR (Int_part (Rabs b * p + / 2))
            <= IZR (Int_part (Rabs a * p + / 2))) as H.
    { apply IZR_le. apply Int_part_monotone.
      rewrite !Rabs_left by assumption. nra. }
    unfold Rdiv. nra.
  - pose proof (Hn a). pose proof (Hn b). unfold Rdiv. nra.
  - lra.
  - assert (IZR (Int_part (Rabs a * p + / 2))
            <= IZR (Int_part (Rabs b * p + / 2))) as H.
    { apply IZR_le. apply Int_part_monotone.
      rewrite !Rabs_right by lra. nra. }
    unfold Rdiv. nra.
Qed.

Lemma round_dec_zero : forall k : nat, round_dec k 0 = 0.
Proof.
  intros k. replace 0 with (IZR 0 / IZR (10 ^ Z.of_nat k)) at 1 2.
  - rewrite round_dec_integer. unfold Rdiv. ring.
  - unfold Rdiv. ring.
Qed.

Lemma round_dec_nonnegative :
  forall (k : nat) (a : R), 0 <= a -> 0 <= round_dec k a.
Proof.
  intros k a Ha. rewrite <- (round_dec_zero k) at 1.
  apply round_dec_monotone. exact Ha.
Qed.

(** An integer bound is kept by the rounding. *)
Lemma round_dec_upper_bound :
  forall (k : nat) (a : R) (n : Z), a <= IZR n -> round_dec k a <= IZR n.
Proof.
  intros k a n Ha.
  replace (IZR n) with (round_dec k (IZR n)).
  - apply round_dec_monotone. exact Ha.
  - pose proof (pow10_positive k) as Hp.
    replace (IZR n) with (IZR (n * 10 ^ Z.of_nat k) / IZR (10 ^ Z.of_nat k))
      by (rewrite mult_IZR; field; lra).
    apply round_dec_integer.
Qed.

(** [toFixed] on a finite value of moderate size. *)
Lemma toFixed_Fin :
  forall (k : nat) (a : R),
    Rabs a < IZR (10 ^ 21) ->
    JS.toFixed (Number := Exact.number) k (Fin a) = Fin (round_dec k a).
Proof.
  intros k a Ha. cbn [JS.toFixed Exact.number toFixed]. unfold Rleb.
  destruct (Rle_dec (IZR (10 ^ 21)) (Rabs a)); [ lra | reflexivity ].
Qed.

Lemma toFixed_finite :
  forall (k : nat) (a : R),
    exists b : R,
      JS.toFixed (Number := Exact.number) k (Fin a) = Fin b
      /\ (b = round_dec k a \/ b = a).
Proof.
  intros k a. cbn [JS.toFixed Exact.number toFixed].
  destruct (Rleb (IZR (10 ^ 21)) (Rabs a)); eexists; split;
    try reflexivity; tauto.
Qed.

Lemma toFixed_zero :
  forall k : nat, JS.toFixed (Number := Exact.number) k (Fin 0) = Fin 0.
Proof.
  intros k. rewrite toFixed_Fin.
  - rewrite round_dec_zero. reflexivity.
  - rewrite Rabs_R0. apply IZR_lt. reflexivity.
Qed.

End ExactRounding.

(** ** The sort of the host *)

(** Sorted by one relation, sorted by every relation that holds between the
    same elements. *)
Lemma StronglySorted_weaken :
  forall (A : Type) (P Q : A -> A -> Prop) (xs : list A),
    (forall a b : A, In a xs -> In b xs -> P a b -> Q a b) ->
    StronglySorted P xs -> StronglySorted Q xs.
Proof.
  intros A P Q xs HPQ Hsorted.
  induction Hsorted as [ | a xs Hxs IH Hall]; [ constructor | ].
  constructor.
  - apply IH. intros x y Hx Hy. apply HPQ; right; assumption.
  - rewrite Forall_forall in *. intros x Hx.
    apply HPQ; [ left; reflexivity | right; exact Hx | apply Hall; exact Hx ].
Qed.

(** The sample sort conforms. *)
Section InsertionSort.

Context {N : Number}.

Variable comparefn : num -> num -> num.

Lemma insert_by_permutation :
  forall (a : num) (sorted : list num),
    Permutation (a :: sorted) (insert_by comparefn a sorted).
Proof.
  intros a sorted. induction sorted as [ | b rest IH]; cbn [insert_by].
  - apply Permutation_refl.
  - destruct (sorts_after comparefn a b).
    + apply perm_trans with (b :: a :: rest).
      * apply perm_swap.
      * apply perm_skip. exact IH.
    + apply Permutation_refl.
Qed.

Lemma insertion_sort_permutation :
  forall xs : list num, Permutation xs (insertion_sort comparefn xs).
Proof.
  intros xs. unfold insertion_sort.
  induction xs as [ | a xs IH]; cbn [fold_right].
  - apply perm_nil.
  - apply perm_trans with (a :: fold_right (insert_by comparefn) [] xs).
    + apply perm_skip. exact IH.
    + apply insert_by_permutation.
Qed.

Lemma insert_by_sorted :
  forall (xs : list num) (a : num) (sorted : list num),
    consistent_comparator comparefn xs ->
    In a xs -> incl sorted xs ->
    StronglySorted (fun x y => sorts_after comparefn x y = false) sorted ->
    StronglySorted (fun x y => sorts_after comparefn x y = false)
      (insert_by comparefn a sorted).
Proof.
  intros xs a sorted Hconsistent Ha.
  induction sorted as [ | b rest IH]; intros Hincl Hsorted; cbn [insert_by].
  - repeat constructor.
  - assert (In b xs) as Hb by (apply Hincl; left; reflexivity).
    assert (incl rest xs) as Hrest
      by (intros x Hx; apply Hincl; right; exact Hx).
    inversion Hsorted as [ | ? ? Hsorted' Hall]; subst.
    destruct (sorts_after comparefn a b) eqn:Hab.
    + constructor.
      * apply IH; assumption.
      * apply (Permutation_Forall (insert_by_permutation a rest)).
        constructor; [ | exact Hall ].
        destruct (sorts_after comparefn b a) eqn:Hba; [ | reflexivity ].
        destruct (Hconsistent a b a Ha Hb Ha) as (Hirr & _ & Htrans & _).
        rewrite (Htrans Hab Hba) in Hirr. discriminate.
    + constructor; [ exact Hsorted | ].
      constructor; [ exact Hab | ].
      rewrite Forall_forall in *. intros x Hx.
      destruct (Hconsistent a b x Ha Hb (Hrest x Hx)) as (_ & _ & _ & Hnot).
      apply Hnot; [ exact Hab | apply Hall; exact Hx ].
Qed.

Lemma insertion_sort_sorted :
  forall xs : list num,
    consistent_comparator comparefn xs ->
    StronglySorted (fun x y => sorts_after comparefn x y = false)
      (insertion_sort comparefn xs).
Proof.
  intros xs Hconsistent.
  assert (forall ys : list num,
             incl ys xs ->
             StronglySorted (fun x y => sorts_after comparefn x y = false)
               (insertion_sort comparefn ys)) as Hany.
  { induction ys as [ | a ys IH]; intros Hincl.
    - constructor.
    - unfold insertion_sort. cbn [fold_right].
      apply (insert_by_sorted xs).
      + exact Hconsistent.
      + apply Hincl. left. reflexivity.
      + intros x Hx. apply Hincl. right.
        apply (Permutation_in x
                 (Permutation_sym (insertion_sort_permutation ys))).
        exact Hx.
      + apply IH. intros x Hx. apply Hincl. right. exact Hx. }
  apply Hany. apply incl_refl.
Qed.

End InsertionSort.

Lemma insertion_sort_conforms :
  forall N : Number, SortConforms (insertion_sort (N := N)).
Proof.
  intros N. constructor.
  - intros comparefn xs. apply insertion_sort_permutation.
  - intros comparefn xs. apply insertion_sort_sorted.
Qed.

(** *** The comparator [(a, b) => a - b] *)

(** On finite values in exact arithmetic the comparator is consistent. *)
Lemma subtraction_consistent_exact :
  forall rs : list R,
    consistent_comparator (N := Exact.number) (fun a b => sub a b)
      (map Exact.Fin rs).
Proof.
  intros rs a b c Ha Hb Hc.
  apply in_map_iff in Ha, Hb, Hc.
  destruct Ha as (x & <- & _), Hb as (y & <- & _), Hc as (z & <- & _).
  unfold sorts_after, sorts_before.
  cbn [ltb sub of_Z Exact.number Exact.sub Exact.add Exact.neg Exact.ltb].
  unfold Exact.Rltb.
  repeat match goal with
         | |- context [Rlt_dec ?p ?q] => destruct (Rlt_dec p q)
         end;
    repeat split; intros; try reflexivity; try discriminate; lra.
Qed.

(** On binary64 numbers other than NaN the comparator is consistent. *)
Lemma subtraction_consistent_binary64 :
  forall xs : list float,
    Forall Binary64.is_number xs ->
    consistent_comparator (N := Binary64.number) (fun a b => sub a b) xs.
Proof.
  intros xs Hnumbers a b c Ha Hb Hc.
  rewrite Forall_forall in Hnumbers.
  pose proof (Hnumbers a Ha) as Hna.
  pose proof (Hnumbers b Hb) as Hnb.
  pose proof (Hnumbers c Hc) as Hnc.
  unfold sorts_after, sorts_before.
  cbn [ltb sub of_Z Binary64.number].
  change (Binary64.Z2F 0) with 0%float.
  rewrite !sub_positive, sub_negative.
  rewrite !ltb_rank by assumption.
  split; [ apply Z.ltb_irrefl | ].
  split; [ reflexivity | ].
  split.
  - intros H1 H2. apply Z.ltb_lt in H1, H2. apply Z.ltb_lt. lia.
  - intros H1 H2. apply Z.ltb_ge in H1, H2. apply Z.ltb_ge. lia.
Qed.

(** ** Value at risk *)

Section HostSort.

Context {N : Number} {S : ArraySort N}.

(** The conditional value at risk, from the value at risk it calls. *)
Lemma calculateCVaR_from_VaR :
  forall (returns : list num) (confidenceLevel varValue : num),
    returns <> [] ->
    calculateVaR returns confidenceLevel = Return varValue ->
    calculateCVaR returns confidenceLevel
    = Return match filter (fun ret => leb ret varValue) returns with
             | [] => varValue
             | tail => toFixed 2 (mean tail)
             end.
Proof.
  intros returns confidenceLevel varValue Hne HVaR.
  unfold calculateCVaR.
  destruct returns as [ | r returns']; [ contradiction | ].
  cbn [List.length Nat.eqb]. rewrite HVaR. cbn [bind].
  destruct (filter (fun ret => leb ret varValue) (r :: returns'))
    as [ | t tail]; [ reflexivity | ].
  rewrite mean_computed. reflexivity.
Qed.

Context {C : SortConforms S}.

(** In any arithmetic the sort rearranges the sequence. *)
Lemma sort_ascending_permutation :
  forall xs : list num, Permutation xs (sort_ascending xs).
Proof. intros xs. apply sort_rearranges. Qed.

Lemma sort_ascending_length :
  forall xs : list num,
    List.length (sort_ascending xs) = List.length xs.
Proof.
  intros xs. symmetry. apply Permutation_length.
  apply sort_ascending_permutation.
Qed.

(** The three outcomes of [calculateVaR] on a sequence that is not empty. *)
Lemma calculateVaR_cases :
  forall (returns : list num) (confidenceLevel : num),
    returns <> [] ->
    match floorZ (mul (sub (of_Z 1) confidenceLevel) (length_of returns)) with
    | Some i =>
        if ((0 <=? i) && (i <? Z.of_nat (List.length returns)))%Z
        then exists r : num,
               In r returns
               /\ nth_error (sort_ascending returns) (Z.to_nat i) = Some r
               /\ calculateVaR returns confidenceLevel
                  = Return (toFixed 2 r)
        else calculateVaR returns confidenceLevel = Throw TypeError
    | None => calculateVaR returns confidenceLevel = Throw TypeError
    end.
Proof.
  intros returns confidenceLevel Hne. unfold calculateVaR, at_floor.
  set (index :=
         floorZ (mul (sub (of_Z 1) confidenceLevel) (length_of returns))).
  destruct returns as [ | r0 rest] eqn:Hreturns; [ contradiction | ].
  rewrite <- Hreturns in *.
  assert (Nat.eqb (List.length returns) 0 = false) as Hlen.
  { rewrite Hreturns. reflexivity. }
  rewrite Hlen.
  destruct index as [i | ]; [ | reflexivity ].
  destruct (Z.leb_spec 0 i) as [Hpos | Hneg]; cbn [andb].
  - destruct (Z.ltb_spec i 0) as [Hneg | _]; [ lia | ].
    destruct (Z.ltb_spec i (Z.of_nat (List.length returns)))
      as [Hlt | Hge].
    + destruct (nth_error (sort_ascending returns) (Z.to_nat i)) as [r | ]
        eqn:Hnth.
      * exists r. split; [ | split; reflexivity ].
        apply (Permutation_in r
                 (Permutation_sym (sort_ascending_permutation returns))).
        apply (nth_error_In _ _ Hnth).
      * apply nth_error_None in Hnth. rewrite sort_ascending_length in Hnth.
        lia.
    + assert (nth_error (sort_ascending returns) (Z.to_nat i) = None) as ->.
      { apply nth_error_None. rewrite sort_ascending_length. lia. }
      reflexivity.
  - destruct (Z.ltb_spec i 0) as [_ | Hpos]; [ reflexivity | lia ].
Qed.

(** When the floor of [(1 - c) * n] is an index of the sequence, the value at
    risk is the sorted element there, rounded. *)
Lemma calculateVaR_at_index :
  forall (returns : list num) (confidenceLevel : num) (i : Z),
    returns <> [] ->
    floorZ (mul (sub (of_Z 1) confidenceLevel) (length_of returns)) = Some i ->
    (0 <= i < Z.of_nat (List.length returns))%Z ->
    exists v : num,
      nth_error (sort_ascending returns) (Z.to_nat i) = Some v
      /\ calculateVaR returns confidenceLevel = Return (toFixed 2 v).
Proof.
  intros returns confidenceLevel i Hne Hfloor Hrange.
  pose proof (calculateVaR_cases returns confidenceLevel Hne) as Hcases.
  rewrite Hfloor in Hcases.
  destruct (Z.leb_spec 0 i) as [_ | H]; [ | lia ].
  destruct (Z.ltb_spec i (Z.of_nat (List.length returns))) as [_ | H];
    [ | lia ].
  destruct Hcases as (r & _ & Hnth & HVaR).
  exists r. split; assumption.
Qed.

(** When it is not, both functions raise a TypeError. *)
Lemma calculateVaR_outside :
  forall (returns : list num) (confidenceLevel : num),
    returns <> [] ->
    match floorZ (mul (sub (of_Z 1) confidenceLevel) (length_of returns)) with
    | Some i => (i < 0 \/ Z.of_nat (List.length returns) <= i)%Z
    | None => True
    end ->
    calculateVaR returns confidenceLevel = Throw TypeError
    /\ calculateCVaR returns confidenceLevel = Throw TypeError.
Proof.
  intros returns confidenceLevel Hne Houtside.
  assert (calculateVaR returns confidenceLevel = Throw TypeError) as HVaR.
  { pose proof (calculateVaR_cases returns confidenceLevel Hne) as Hcases.
    destruct (floorZ (mul (sub (of_Z 1) confidenceLevel)
                        (length_of returns))) as [i | ];
      [ | exact Hcases ].
    destruct (Z.leb_spec 0 i) as [Hpos | Hneg]; cbn [andb] in Hcases;
      [ | exact Hcases ].
    destruct (Z.ltb_spec i (Z.of_nat (List.length returns))) as [Hlt | Hge];
      [ lia | exact Hcases ]. }
  split; [ exact HVaR | ].
  unfold calculateCVaR.
  destruct returns as [ | r returns']; [ contradiction | ].
  cbn [List.length Nat.eqb]. rewrite HVaR. reflexivity.
Qed.

End HostSort.

(** *** Exact arithmetic *)

Section ExactSums.

Import Exact.
Local Open Scope R_scope.

Lemma sum_of_reals :
  forall (rs : list R) (x : R),
    fold_left (fun sum ret => JS.add (Number := Exact.number) sum ret)
      (map Fin rs) (Fin x)
    = Fin (fold_left Rplus rs x).
Proof.
  intros rs. induction rs as [ | r rs IH]; intros x; cbn [map fold_left].
  - reflexivity.
  - cbn [JS.add Exact.number add]. apply IH.
Qed.

Lemma length_of_reals :
  forall (A : Type) (xs : list A),
    length_of (N := Exact.number) xs = Fin (IZR (Z.of_nat (List.length xs))).
Proof. reflexivity. Qed.

Lemma mean_reals :
  forall rs : list R,
    rs <> [] ->
    JS.div (Number := Exact.number) (sum_of (map Fin rs))
      (length_of (A := (@num Exact.number)) (map Fin rs))
    = Fin (fold_left Rplus rs 0 / IZR (Z.of_nat (List.length rs))).
Proof.
  intros rs Hne. unfold sum_of. cbn [JS.of_Z Exact.number].
  rewrite sum_of_reals, length_of_reals, length_map.
  cbn [JS.div Exact.number div].
  assert (1 <= IZR (Z.of_nat (List.length rs))) as Hn.
  { apply IZR_le. destruct rs; [ contradiction | cbn [List.length]; lia ]. }
  decide_reals. reflexivity.
Qed.

Lemma filter_reals :
  forall (v : R) (rs : list R),
    filter (fun ret : @num Exact.number => JS.leb ret (Fin v)) (map Fin rs)
    = map Fin (filter (fun r => Rleb r v) rs).
Proof.
  intros v rs. induction rs as [ | r rs IH]; cbn [map filter].
  - reflexivity.
  - rewrite IH. cbn [JS.leb Exact.number leb].
    destruct (Rleb r v); reflexivity.
Qed.

End ExactSums.

Section ExactValueAtRisk.

Import Exact.
Local Open Scope R_scope.

Context {S : ArraySort Exact.number} {C : SortConforms S}.

(** On finite values in exact arithmetic the sort is the ascending sort. *)
Lemma sort_ascending_reals :
  forall rs : list R,
    exists sorted : list R,
      sort_ascending (N := Exact.number) (map Fin rs) = map Fin sorted
      /\ Permutation rs sorted
      /\ Sorted Rle sorted.
Proof.
  intros rs.
  pose proof (sort_ascending_permutation (N := Exact.number) (map Fin rs))
    as Hperm.
  destruct (Permutation_map_inv Fin rs (Permutation_sym Hperm))
    as (sorted & Heq & Hperm').
  exists sorted. split; [ exact Heq | ]. split; [ exact Hperm' | ].
  pose proof (sort_orders (subtraction_consistent_exact rs)) as Hsorted.
  unfold sort_ascending in Heq. rewrite Heq in Hsorted.
  clear Heq Hperm Hperm'.
  apply StronglySorted_Sorted.
  induction sorted as [ | a sorted IH]; [ constructor | ].
  cbn [map] in Hsorted.
  inversion Hsorted as [ | ? ? Hrest Hall]; subst.
  constructor; [ apply IH; exact Hrest | ].
  rewrite Forall_forall in *. intros b Hb.
  specialize (Hall (Fin b) (in_map Fin sorted b Hb)).
  unfold sorts_after in Hall.
  cbn [JS.ltb JS.sub JS.of_Z Exact.number sub add neg ltb] in Hall.
  unfold Rltb in Hall.
  destruct (Rlt_dec (IZR 0) (a + - b)) as [H | H]; [ discriminate | lra ].
Qed.

(** For a confidence level in (0, 1] the index is one of the sequence. *)
Lemma floor_index_in_range :
  forall (c : R) (n : nat),
    (0 < n)%nat -> 0 < c <= 1 ->
    (0 <= Int_part ((1 - c) * IZR (Z.of_nat n)) < Z.of_nat n)%Z.
Proof.
  intros c n Hn Hc.
  assert (1 <= IZR (Z.of_nat n)) as Hn' by (apply IZR_le; lia).
  set (x := (1 - c) * IZR (Z.of_nat n)).
  assert (0 <= x < IZR (Z.of_nat n)) as Hx by (unfold x; nra).
  destruct (base_Int_part x) as [Hle Hgt].
  split.
  - assert (-1 < Int_part x)%Z as H by (apply lt_IZR; lra). lia.
  - apply lt_IZR. lra.
Qed.

Lemma calculateVaR_exact :
  forall (rs : list R) (c : R),
    rs <> [] -> 0 < c <= 1 ->
    let returns := map Fin rs in
    let k := Z.to_nat (Int_part ((1 - c) * IZR (Z.of_nat (List.length rs)))) in
    exists (sorted : list R) (v : R),
      Permutation rs sorted
      /\ Sorted Rle sorted
      /\ nth_error sorted k = Some v
      /\ calculateVaR (N := Exact.number) returns (Fin c)
         = Return (toFixed 2 (Fin v)).
Proof.
  intros rs c Hne Hc returns k.
  assert (0 < List.length rs)%nat as Hlen.
  { destruct rs; [ contradiction | cbn; lia ]. }
  pose proof (floor_index_in_range c (List.length rs) Hlen Hc) as Hrange.
  assert (k < List.length rs)%nat as Hk by (unfold k; lia).
  destruct (sort_ascending_reals rs) as (sorted & Heq & Hperm & Hsorted).
  destruct (nth_error sorted k) as [v | ] eqn:Hnth.
  - exists sorted, v. repeat split; try assumption.
    assert (@List.length (@num Exact.number) returns = List.length rs)
      as Hreturns by (unfold returns; apply length_map).
    unfold calculateVaR, at_floor, length_of. fold returns in Heq.
    rewrite Heq.
    cbn [JS.floorZ JS.mul JS.sub JS.of_Z Exact.number].
    cbn [sub add neg mul floorZ].
    change (1 + - c) with (1 - c).
    rewrite !Hreturns.
    destruct (Nat.eqb_spec (List.length rs) 0) as [H0 | _]; [ lia | ].
    destruct (Z.ltb_spec
                (Int_part ((1 - c) * IZR (Z.of_nat (List.length rs)))) 0)
      as [Hneg | _]; [ lia | ].
    fold k.
    assert (@nth_error (@num Exact.number) (map Fin sorted) k = Some (Fin v))
      as Hv by (apply (map_nth_error Fin k sorted Hnth)).
    rewrite Hv. reflexivity.
  - apply nth_error_None in Hnth.
    rewrite <- (Permutation_length Hperm) in Hnth. lia.
Qed.

(** The conditional value at risk of finite returns, with the mean of the
    returns at or below the value at risk as a quotient of real numbers. *)
Lemma calculateCVaR_exact :
  forall (rs : list R) (c v : R),
    rs <> [] ->
    calculateVaR (N := Exact.number) (map Fin rs) (Fin c) = Return (Fin v) ->
    calculateCVaR (N := Exact.number) (map Fin rs) (Fin c)
    = Return match filter (fun r => Rleb r v) rs with
             | [] => Fin v
             | tail =>
                 JS.toFixed (Number := Exact.number) 2
                   (Fin (fold_left Rplus tail 0
                         / IZR (Z.of_nat (List.length tail))))
             end.
Proof.
  intros rs c v Hne HVaR. unfold calculateCVaR.
  assert (Nat.eqb (@List.length (@num Exact.number) (map Fin rs)) 0 = false)
    as ->.
  { rewrite length_map. destruct rs; [ contradiction | reflexivity ]. }
  rewrite HVaR. cbn [bind]. rewrite filter_reals.
  destruct (filter (fun r => Rleb r v) rs) as [ | t tail];
    [ reflexivity | ].
  assert (t :: tail <> []) as Hne' by discriminate.
  rewrite <- (mean_reals (t :: tail) Hne'). reflexivity.
Qed.

End ExactValueAtRisk.

(** *** Binary64 *)

(** A sorted rearrangement is unique when no two distinct elements are at
    most each other. *)
Lemma sorted_permutation_unique :
  forall (A : Type) (le : A -> A -> Prop) (xs ys : list A),
    (forall a b : A, In a xs -> In b xs -> le a b -> le b a -> a = b) ->
    Permutation xs ys ->
    StronglySorted le xs -> StronglySorted le ys -> xs = ys.
Proof.
  intros A le xs. induction xs as [ | a xs IH]; intros ys Hanti Hperm Hxs Hys.
  - apply Permutation_nil in Hperm. symmetry. exact Hperm.
  - destruct ys as [ | b ys].
    + apply Permutation_sym, Permutation_nil in Hperm. discriminate.
    + inversion Hxs as [ | ? ? Hxs' Hallx]; subst.
      inversion Hys as [ | ? ? Hys' Hally]; subst.
      rewrite Forall_forall in Hallx, Hally.
      assert (In a (b :: ys)) as Ha
        by (apply (Permutation_in a Hperm); left; reflexivity).
      assert (In b (a :: xs)) as Hb
        by (apply (Permutation_in b (Permutation_sym Hperm)); left;
            reflexivity).
      assert (a = b) as Hab.
      { destruct Ha as [Ha | Ha]; [ symmetry; exact Ha | ].
        destruct Hb as [Hb | Hb]; [ exact Hb | ].
        apply Hanti.
        - left. reflexivity.
        - right. exact Hb.
        - apply Hallx. exact Hb.
        - apply Hally. exact Ha. }
      subst b. f_equal. apply IH.
      * intros x y Hx Hy. apply Hanti; right; assumption.
      * apply (Permutation_cons_inv Hperm).
      * exact Hxs'.
      * exact Hys'.
Qed.

Section Binary64ValueAtRisk.

Import Binary64.

Context {S : ArraySort Binary64.number} {C : SortConforms S}.

(** On binary64 the sort of a sequence without NaN is its ascending sort. *)
Lemma sort_ascending_binary64 :
  forall xs : list float,
    Forall is_number xs ->
    Permutation xs (sort_ascending (N := Binary64.number) xs)
    /\ StronglySorted at_most (sort_ascending (N := Binary64.number) xs).
Proof.
  intros xs Hnumbers.
  pose proof (sort_ascending_permutation (N := Binary64.number) xs) as Hperm.
  split; [ exact Hperm | ].
  pose proof (sort_orders (subtraction_consistent_binary64 xs Hnumbers))
    as Hsorted.
  pose proof (Permutation_Forall Hperm Hnumbers) as Hsorted_numbers.
  rewrite Forall_forall in Hsorted_numbers.
  refine (StronglySorted_weaken _ _ _ _ _ Hsorted).
  intros a b Ha Hb Hab.
  unfold sorts_after in Hab.
  cbn [JS.ltb JS.sub JS.of_Z Binary64.number] in Hab.
  change (Z2F 0) with 0%float in Hab. rewrite sub_positive in Hab.
  apply not_above_leb; [ apply Hsorted_numbers; exact Ha
                       | apply Hsorted_numbers; exact Hb | exact Hab ].
Qed.

(** On a sequence without NaN in which no two distinct numbers are equal
    (as [0] and [-0] are), every conforming sort returns what the sample
    sort returns, and the two functions with it. *)
Lemma sort_ascending_any_host :
  forall xs : list float,
    Forall is_number xs ->
    (forall a b : float, In a xs -> In b xs -> at_most a b -> at_most b a ->
                         a = b) ->
    sort_ascending (N := Binary64.number) (S := S) xs
    = sort_ascending (N := Binary64.number) (S := insertion_sort) xs.
Proof.
  intros xs Hnumbers Hdistinct.
  destruct (sort_ascending_binary64 xs Hnumbers) as [Hperm Hsorted].
  pose proof (insertion_sort_conforms Binary64.number) as Hconforms.
  pose proof (sort_ascending_permutation (N := Binary64.number)
                (S := insertion_sort) xs) as Hperm'.
  assert (StronglySorted at_most
            (sort_ascending (N := Binary64.number) (S := insertion_sort) xs))
    as Hsorted'.
  { pose proof (sort_orders (S := insertion_sort)
                  (subtraction_consistent_binary64 xs Hnumbers)) as H.
    pose proof (Permutation_Forall Hperm' Hnumbers) as Hn.
    rewrite Forall_forall in Hn.
    refine (StronglySorted_weaken _ _ _ _ _ H).
    intros a b Ha Hb Hab.
    unfold sorts_after in Hab.
    cbn [JS.ltb JS.sub JS.of_Z Binary64.number] in Hab.
    change (Z2F 0) with 0%float in Hab. rewrite sub_positive in Hab.
    apply not_above_leb; [ apply Hn; exact Ha | apply Hn; exact Hb
                         | exact Hab ]. }
  apply (sorted_permutation_unique _ at_most).
  - intros a b Ha Hb. apply Hdistinct.
    + apply (Permutation_in a (Permutation_sym Hperm)). exact Ha.
    + apply (Permutation_in b (Permutation_sym Hperm)). exact Hb.
  - apply perm_trans with xs; [ apply Permutation_sym; exact Hperm | ].
    exact Hperm'.
  - exact Hsorted.
  - exact Hsorted'.
Qed.

Lemma calculateVaR_any_host :
  forall (returns : list float) (c : float),
    Forall is_number returns ->
    (forall a b : float,
        In a returns -> In b returns -> at_most a b -> at_most b a -> a = b) ->
    calculateVaR (S := S) returns c
    = calculateVaR (N := Binary64.number) (S := insertion_sort) returns c
    /\ calculateCVaR (S := S) returns c
       = calculateCVaR (N := Binary64.number) (S := insertion_sort) returns c.
Proof.
  intros returns c Hnumbers Hdistinct.
  assert (calculateVaR (S := S) returns c
          = calculateVaR (N := Binary64.number) (S := insertion_sort)
              returns c) as HVaR.
  { unfold calculateVaR.
    rewrite (sort_ascending_any_host returns Hnumbers Hdistinct).
    reflexivity. }
  split; [ exact HVaR | ].
  unfold calculateCVaR. rewrite HVaR. reflexivity.
Qed.

End Binary64ValueAtRisk.

(** Sequences of distinct numbers. *)
Ltac distinct_numbers :=
  match goal with
  | |- Forall Binary64.is_number _ =>
      repeat constructor
  | |- forall a b : _, In a _ -> In b _ -> _ =>
      let a := fresh "a" in
      let b := fresh "b" in
      let Ha := fresh "Ha" in
      let Hb := fresh "Hb" in
      let H1 := fresh "H" in
      let H2 := fresh "H" in
      intros a b Ha Hb H1 H2; cbn [In] in Ha, Hb;
      repeat (destruct Ha as [<- | Ha]; [ | ]);
      try contradiction;
      repeat (destruct Hb as [<- | Hb]; [ | ]);
      try contradiction;
      try reflexivity;
      first [ vm_compute in H1; discriminate H1
            | vm_compute in H2; discriminate H2 ]
  end.

(** Four observations at 95% confidence on binary64: the index is
    [floor(0.05 * 4) = 0], the smallest observation. *)
Lemma calculateVaR_binary64_sample :
  forall S : ArraySort Binary64.number,
    SortConforms S ->
    let returns :=
      [of_Z (Number := Binary64.number) 3; of_Z 1; of_Z 2; dec (-15) 1] in
    calculateVaR returns confidenceLevel_default = Return (dec (-15) 1)
    /\ calculateCVaR returns confidenceLevel_default = Return (dec (-15) 1).
Proof.
  intros S C returns.
  destruct (calculateVaR_any_host (S := S) returns
              (confidenceLevel_default (N := Binary64.number)))
    as [-> ->]; [ distinct_numbers | distinct_numbers | ].
  split; vm_compute; reflexivity.
Qed.

(** Ten observations at 90% confidence on binary64: [1 - 0.9] is
    0.09999999999999998, the product with 10 is below 1, and the index is 0. *)
Lemma calculateVaR_binary64_ten_at_ninety :
  forall S : ArraySort Binary64.number,
    SortConforms S ->
    let returns :=
      map (of_Z (Number := Binary64.number))
        [10; 9; 8; 7; 6; 5; 4; 3; 2; 1]%Z in
    floorZ (Number := Binary64.number)
      (mul (sub (of_Z 1) (dec 9 1)) (length_of returns)) = Some 0%Z
    /\ calculateVaR returns (dec 9 1) = Return (of_Z 1).
Proof.
  intros S C returns.
  destruct (calculateVaR_any_host (S := S) returns
              (dec (N := Binary64.number) 9 1))
    as [-> _]; [ unfold returns; cbn [map]; distinct_numbers
               | unfold returns; cbn [map]; distinct_numbers | ].
  split; vm_compute; reflexivity.
Qed.

(** At a confidence level of 0 the index is the length of the sequence: the
    element read is [undefined] and its rounding raises a TypeError, on
    binary64 and in exact arithmetic, with the sample sort as with every
    sort that rearranges the sequence. *)
Lemma calculateVaR_zero_confidence :
  let returns := [of_Z (Number := Binary64.number) 3; of_Z 1; of_Z 2] in
  let reals := map Exact.Fin [3; 1; 2]%R in
  floorZ (Number := Binary64.number)
    (mul (sub (of_Z 1) (of_Z 0)) (length_of returns)) = Some 3%Z
  /\ nth_error (sort_ascending (S := insertion_sort) returns) 3 = None
  /\ calculateVaR (S := insertion_sort) returns (of_Z 0) = Throw TypeError
  /\ calculateCVaR (S := insertion_sort) returns (of_Z 0) = Throw TypeError
  /\ calculateVaR (N := Exact.number) (S := insertion_sort) reals
       (Exact.Fin 0)
     = Throw TypeError
  /\ calculateCVaR (N := Exact.number) (S := insertion_sort) reals
       (Exact.Fin 0)
     = Throw TypeError.
Proof.
  cbv zeta.
  split; [ vm_compute; reflexivity | ].
  split; [ vm_compute; reflexivity | ].
  split; [ vm_compute; reflexivity | ].
  split; [ vm_compute; reflexivity | ].
  assert (map Exact.Fin [3; 1; 2]%R <> []) as Hne by discriminate.
  apply (calculateVaR_outside (N := Exact.number) (S := insertion_sort)
           (C := insertion_sort_conforms Exact.number)
           (map Exact.Fin [3; 1; 2]%R) (Exact.Fin 0) Hne).
  cbn [floorZ mul sub of_Z Exact.number length_of map List.length].
  cbn [Exact.sub Exact.add Exact.neg Exact.mul Exact.floorZ].
  right.
  set (x := ((1 + - 0) * IZR (Z.of_nat 3))%R).
  assert (x = 3%R) as Hx by (unfold x; cbn; lra).
  destruct (base_Int_part x) as [_ Hgt].
  assert (2 < Int_part x)%Z by (apply lt_IZR; lra).
  cbn. lia.
Qed.

(** C6, as the code has it, for every sort of the host that conforms.  Both
    functions return 0 on the empty sequence.  For a sequence that is not
    empty and a confidence level [c] for which [floor((1 - c) * n)] is an
    index of the sequence, [calculateVaR] returns, rounded to 2 decimals, the
    element at that index of the sorted sequence, and for any other [c]
    both functions raise a TypeError.  The sorted sequence is the ascending
    sort of the returns, a rearrangement in which every element is at most
    the later ones: on binary64 for returns without NaN, and in exact
    arithmetic for finite returns, where the floor is an index for every
    confidence level in (0, 1].  [calculateCVaR] returns, rounded to 2
    decimals, the mean of the returns at or below the value [calculateVaR]
    returned, and that value itself when no return qualifies; in exact
    arithmetic the mean is the sum of those returns over their number. *)
Theorem calculateVaR_calculateCVaR_spec :
  (forall (N : Number) (S : ArraySort N) (c : num),
      calculateVaR [] c = Return (of_Z 0)
      /\ calculateCVaR [] c = Return (of_Z 0))
  /\ (forall (N : Number) (S : ArraySort N),
         SortConforms S ->
         forall (returns : list num) (c : num),
           returns <> [] ->
           match floorZ (mul (sub (of_Z 1) c) (length_of returns)) with
           | Some i =>
               if ((0 <=? i) && (i <? Z.of_nat (List.length returns)))%Z
               then exists v : num,
                      nth_error (sort_ascending returns) (Z.to_nat i)
                      = Some v
                      /\ calculateVaR returns c = Return (toFixed 2 v)
               else calculateVaR returns c = Throw TypeError
                    /\ calculateCVaR returns c = Throw TypeError
           | None => calculateVaR returns c = Throw TypeError
                     /\ calculateCVaR returns c = Throw TypeError
           end)
  /\ (forall S : ArraySort Binary64.number,
         SortConforms S ->
         forall returns : list float,
           Forall Binary64.is_number returns ->
           Permutation returns
             (sort_ascending (N := Binary64.number) returns)
           /\ StronglySorted Binary64.at_most
                (sort_ascending (N := Binary64.number) returns))
  /\ (forall S : ArraySort Exact.number,
         SortConforms S ->
         forall (rs : list R) (c : R),
           rs <> [] -> (0 < c <= 1)%R ->
           let returns := map Exact.Fin rs in
           let k :=
             Z.to_nat
               (Int_part ((1 - c) * IZR (Z.of_nat (List.length rs)))) in
           exists (sorted : list R) (v w : R),
             Permutation rs sorted
             /\ Sorted Rle sorted
             /\ nth_error sorted k = Some v
             /\ toFixed (Number := Exact.number) 2 (Exact.Fin v)
                = Exact.Fin w
             /\ calculateVaR (N := Exact.number) returns (Exact.Fin c)
                = Return (Exact.Fin w)
             /\ calculateCVaR (N := Exact.number) returns (Exact.Fin c)
                = Return match filter (fun r => Exact.Rleb r w) rs with
                         | [] => Exact.Fin w
                         | tail =>
                             toFixed (Number := Exact.number) 2
                               (Exact.Fin
                                  (fold_left Rplus tail 0
                                   / IZR (Z.of_nat (List.length tail)))%R)
                         end)
  /\ (forall (N : Number) (S : ArraySort N) (returns : list num)
             (c varValue : num),
         returns <> [] ->
         calculateVaR returns c = Return varValue ->
         calculateCVaR returns c
         = Return match filter (fun ret => leb ret varValue) returns with
                  | [] => varValue
                  | tail => toFixed 2 (mean tail)
                  end)
  /\ (forall S : ArraySort Binary64.number,
         SortConforms S ->
         calculateVaR (N := Binary64.number)
           (map of_Z [10; 9; 8; 7; 6; 5; 4; 3; 2; 1]%Z) (dec 9 1)
         = Return (of_Z 1)
         /\ calculateCVaR (N := Binary64.number)
              [of_Z 3; of_Z 1; of_Z 2; dec (-15) 1] confidenceLevel_default
            = Return (dec (-15) 1)).
Proof.
  split; [ | split; [ | split; [ | split; [ | split ] ] ] ].
  - intros N S c. split; reflexivity.
  - intros N S C returns c Hne.
    pose proof (calculateVaR_cases returns c Hne) as Hcases.
    pose proof (calculateVaR_outside returns c Hne) as Houtside.
    destruct (floorZ (mul (sub (of_Z 1) c) (length_of returns))) as [i | ].
    + destruct (Z.leb_spec 0 i) as [Hpos | Hneg]; cbn [andb] in *.
      * destruct (Z.ltb_spec i (Z.of_nat (List.length returns)))
          as [Hlt | Hge].
        -- destruct Hcases as (v & _ & Hnth & HVaR).
           exists v. split; assumption.
        -- apply Houtside. right. exact Hge.
      * apply Houtside. left. exact Hneg.
    + apply Houtside. exact I.
  - intros S C. exact sort_ascending_binary64.
  - intros S C rs c Hne Hc returns k.
    destruct (calculateVaR_exact rs c Hne Hc)
      as (sorted & v & Hperm & Hsorted & Hnth & HVaR).
    destruct (toFixed_finite 2 v) as (w & Hw & _).
    change (Exact.toFixed 2 (Exact.Fin v))
      with (toFixed (Number := Exact.number) 2 (Exact.Fin v)) in HVaR.
    rewrite Hw in HVaR.
    exists sorted, v, w.
    repeat (split; [ assumption | ]).
    apply calculateCVaR_exact; assumption.
  - intros N S. exact calculateCVaR_from_VaR.
  - intros S C. split.
    + apply (calculateVaR_binary64_ten_at_ninety S C).
    + apply (calculateVaR_binary64_sample S C).
Qed.

(** Three returns at 95% confidence, in exact arithmetic and on binary64,
    with the sample sort. *)
Lemma calculateVaR_calculateCVaR_spec_witness :
  (exists w : R,
      calculateVaR (N := Exact.number) (S := insertion_sort)
        (map Exact.Fin [3; 1; 2]%R) (Exact.Fin (95 / 100))
      = Return (Exact.Fin w))
  /\ StronglySorted Binary64.at_most
       (sort_ascending (N := Binary64.number) (S := insertion_sort)
          [of_Z 3; of_Z 1; of_Z 2]).
Proof.
  destruct calculateVaR_calculateCVaR_spec as (_ & _ & Hsorted & HVaR & _).
  split.
  - destruct (HVaR insertion_sort (insertion_sort_conforms Exact.number)
                [3; 1; 2]%R (95 / 100)%R)
      as (sorted & v & w & _ & _ & _ & _ & H & _).
    + discriminate.
    + lra.
    + exists w. exact H.
  - apply (Hsorted insertion_sort (insertion_sort_conforms Binary64.number)).
    repeat constructor.
Defined.

(** ** A sequence against itself *)

Section ExactSelfCorrelation.

Import Exact.
Local Open Scope R_scope.

Lemma beta_step_reals :
  forall (m : R) (rs : list R) (x y : R),
    fold_left (beta_step (N := Exact.number) (Fin m) (Fin m))
      (combine (A := (@num Exact.number)) (B := (@num Exact.number))
         (map Fin rs) (map Fin rs))
      ((Fin x : (@num Exact.number)), (Fin y : (@num Exact.number)))
    = (Fin (squares_from m rs x), Fin (squares_from m rs y)).
Proof.
  intros m rs. induction rs as [ | r rs IH]; intros x y;
    cbn [map combine fold_left].
  - reflexivity.
  - unfold squares_from. cbn [fold_left].
    fold (squares_from m rs (x + (r - m) * (r - m))).
    fold (squares_from m rs (y + (r - m) * (r - m))).
    rewrite <- IH. reflexivity.
Qed.

Lemma correlation_step_reals :
  forall (m : R) (rs : list R) (x y z : R),
    fold_left (correlation_step (N := Exact.number) (Fin m) (Fin m))
      (combine (A := (@num Exact.number)) (B := (@num Exact.number))
         (map Fin rs) (map Fin rs))
      ((Fin x : (@num Exact.number)), (Fin y : (@num Exact.number)),
       (Fin z : (@num Exact.number)))
    = (Fin (squares_from m rs x), Fin (squares_from m rs y),
       Fin (squares_from m rs z)).
Proof.
  intros m rs. induction rs as [ | r rs IH]; intros x y z;
    cbn [map combine fold_left].
  - reflexivity.
  - unfold squares_from. cbn [fold_left].
    fold (squares_from m rs (x + (r - m) * (r - m))).
    fold (squares_from m rs (y + (r - m) * (r - m))).
    fold (squares_from m rs (z + (r - m) * (r - m))).
    rewrite <- IH. reflexivity.
Qed.

Lemma squares_from_ge :
  forall (m : R) (rs : list R) (x : R), x <= squares_from m rs x.
Proof.
  intros m rs. induction rs as [ | r rs IH]; intros x; unfold squares_from;
    cbn [fold_left].
  - lra.
  - fold (squares_from m rs (x + (r - m) * (r - m))).
    specialize (IH (x + (r - m) * (r - m))).
    pose proof (Rle_0_sqr (r - m)) as Hsq. unfold Rsqr in Hsq. lra.
Qed.

Lemma squares_from_zero :
  forall (m : R) (rs : list R) (x : R),
    squares_from m rs x = x <-> Forall (eq m) rs.
Proof.
  intros m rs. induction rs as [ | r rs IH]; intros x; unfold squares_from;
    cbn [fold_left].
  - split; [ constructor | reflexivity ].
  - fold (squares_from m rs (x + (r - m) * (r - m))).
    pose proof (squares_from_ge m rs (x + (r - m) * (r - m))) as Hge.
    split.
    + intros Heq.
      pose proof (Rle_0_sqr (r - m)) as Hsq. unfold Rsqr in Hsq.
      assert ((r - m) * (r - m) = 0) as Hzero by lra.
      apply Rsqr_0_uniq in Hzero.
      assert (r = m) as -> by lra.
      constructor; [ reflexivity | ].
      apply (IH (x + (m - m) * (m - m))). rewrite Heq. ring.
    + intros Hall. inversion Hall as [ | ? ? Hr Hrs]; subst.
      replace (x + (r - r) * (r - r)) with x by ring.
      apply IH. exact Hrs.
Qed.

Lemma sum_constant :
  forall (c : R) (rs : list R) (x : R),
    Forall (eq c) rs ->
    fold_left Rplus rs x = x + IZR (Z.of_nat (List.length rs)) * c.
Proof.
  intros c rs. induction rs as [ | r rs IH]; intros x Hall;
    cbn [fold_left List.length].
  - cbn. ring.
  - inversion Hall as [ | ? ? Hr Hrs]; subst.
    rewrite (IH _ Hrs). rewrite Nat2Z.inj_succ, succ_IZR. ring.
Qed.

Lemma toFixed_one :
  forall k : nat, JS.toFixed (Number := Exact.number) k (Fin 1) = Fin 1.
Proof.
  intros k. cbn [JS.toFixed Exact.number toFixed].
  rewrite Rabs_R1. unfold Rleb.
  destruct (Rle_dec (IZR (10 ^ 21)) 1) as [H | _].
  - exfalso.
    assert (IZR (10 ^ 21) = 1000000000000000000000) as E by reflexivity.
    lra.
  - unfold round_dec. rewrite Rabs_R1.
    assert (0 < IZR (10 ^ Z.of_nat k)) as Hpos.
    { apply IZR_lt. apply Z.pow_pos_nonneg; lia. }
    rewrite <- (Int_part_spec (1 * IZR (10 ^ Z.of_nat k) + / 2)
                  (10 ^ Z.of_nat k)) by lra.
    unfold Rltb. destruct (Rlt_dec 1 0); [ lra | ]. f_equal. field. lra.
Qed.

Lemma div_Fin :
  forall a b : R,
    b <> 0 -> JS.div (Number := Exact.number) (Fin a) (Fin b) = Fin (a / b).
Proof.
  intros a b Hb. cbn [JS.div Exact.number div]. decide_reals; reflexivity.
Qed.

Lemma eqb_Fin_true :
  forall a b : R,
    a = b -> JS.eqb (Number := Exact.number) (Fin a) (Fin b) = true.
Proof.
  intros a b Hab. cbn [JS.eqb Exact.number eqb]. decide_reals; reflexivity.
Qed.

Lemma eqb_Fin_false :
  forall a b : R,
    a <> b -> JS.eqb (Number := Exact.number) (Fin a) (Fin b) = false.
Proof.
  intros a b Hab. cbn [JS.eqb Exact.number eqb]. decide_reals; reflexivity.
Qed.

Lemma calculateBeta_self_exact :
  forall rs : list R,
    rs <> [] ->
    calculateBeta (N := Exact.number) (map Fin rs) (map Fin rs) = Fin 1.
Proof.
  intros rs Hne. unfold calculateBeta.
  rewrite Nat.eqb_refl. cbn [negb orb].
  assert (Nat.eqb (@List.length (@num Exact.number) (map Fin rs)) 0 = false)
    as Hlen.
  { rewrite length_map. destruct rs; [ contradiction | reflexivity ]. }
  rewrite Hlen, (mean_reals rs Hne).
  cbn [JS.of_Z Exact.number]. rewrite beta_step_reals.
  set (m := fold_left Rplus rs 0 / IZR (Z.of_nat (List.length rs))).
  set (V := squares_from m rs 0).
  rewrite length_of_reals, length_map.
  assert (1 <= IZR (Z.of_nat (List.length rs))) as Hn.
  { apply IZR_le. destruct rs; [ contradiction | cbn [List.length]; lia ]. }
  rewrite !div_Fin by lra.
  destruct (Req_dec_T (V / IZR (Z.of_nat (List.length rs))) 0) as [Hz | Hnz].
  - rewrite (eqb_Fin_true _ _ Hz). reflexivity.
  - rewrite (eqb_Fin_false _ _ Hnz), (div_Fin _ _ Hnz).
    replace (V / IZR (Z.of_nat (List.length rs))
             / (V / IZR (Z.of_nat (List.length rs)))) with 1
      by (field; split; [ lra | intros HV; apply Hnz; rewrite HV; field; lra ]).
    apply toFixed_one.
Qed.

Lemma calculateCorrelation_self_exact :
  forall rs : list R,
    rs <> [] ->
    let m := fold_left Rplus rs 0 / IZR (Z.of_nat (List.length rs)) in
    calculateCorrelation (N := Exact.number) (map Fin rs) (map Fin rs)
    = if Req_dec_T (squares_from m rs 0) 0 then Fin 0 else Fin 1.
Proof.
  intros rs Hne m. unfold calculateCorrelation.
  rewrite Nat.eqb_refl. cbn [negb orb].
  assert (Nat.eqb (@List.length (@num Exact.number) (map Fin rs)) 0 = false)
    as Hlen.
  { rewrite length_map. destruct rs; [ contradiction | reflexivity ]. }
  rewrite Hlen, (mean_reals rs Hne).
  cbn [JS.of_Z Exact.number]. rewrite correlation_step_reals.
  fold m. set (V := squares_from m rs 0).
  pose proof (squares_from_ge m rs 0) as HV. fold V in HV.
  cbn [JS.mul JS.sqrt Exact.number mul sqrt].
  unfold Rltb. destruct (Rlt_dec (V * V) 0) as [Hneg | _]; [ nra | ].
  rewrite sqrt_square by exact HV.
  destruct (Req_dec_T V 0) as [Hz | Hnz].
  - rewrite (eqb_Fin_true _ _ Hz). reflexivity.
  - rewrite (eqb_Fin_false _ _ Hnz), (div_Fin _ _ Hnz).
    replace (V / V) with 1 by (field; exact Hnz).
    apply toFixed_one.
Qed.

(** In exact arithmetic the claim about a sequence against itself holds. *)
Lemma self_correlation_exact :
  forall rs : list R,
    rs <> [] ->
    let r := map Fin rs in
    calculateBeta (N := Exact.number) r r = Fin 1
    /\ ((exists a b : R, In a rs /\ In b rs /\ a <> b) ->
        calculateCorrelation (N := Exact.number) r r = Fin 1)
    /\ ((forall a b : R, In a rs -> In b rs -> a = b) ->
        calculateCorrelation (N := Exact.number) r r = Fin 0).
Proof.
  intros rs Hne r. split; [ | split ].
  - apply calculateBeta_self_exact. exact Hne.
  - intros (a & b & Ha & Hb & Hab). unfold r.
    rewrite (calculateCorrelation_self_exact rs Hne). cbv zeta.
    destruct (Req_dec_T _ 0) as [Hz | _]; [ | reflexivity ].
    exfalso. apply Hab.
    apply (squares_from_zero _ rs 0) in Hz.
    rewrite Forall_forall in Hz.
    rewrite <- (Hz a Ha), <- (Hz b Hb). reflexivity.
  - intros Hconst. unfold r.
    rewrite (calculateCorrelation_self_exact rs Hne). cbv zeta.
    destruct (Req_dec_T _ 0) as [_ | Hnz]; [ reflexivity | ].
    exfalso. apply Hnz.
    destruct rs as [ | c rs']; [ contradiction | ].
    assert (Forall (eq c) (c :: rs')) as Hall.
    { apply Forall_forall. intros x Hx.
      apply Hconst; [ left; reflexivity | exact Hx ]. }
    assert (1 <= IZR (Z.of_nat (List.length (c :: rs')))) as Hn.
    { apply IZR_le. cbn [List.length]. lia. }
    rewrite (sum_constant c (c :: rs') 0 Hall).
    replace ((0 + IZR (Z.of_nat (List.length (c :: rs'))) * c)
             / IZR (Z.of_nat (List.length (c :: rs')))) with c
      by (field; lra).
    apply (squares_from_zero c (c :: rs') 0). exact Hall.
Qed.

End ExactSelfCorrelation.

(** C10, at an input where the code fails: the constant sequence
    [0.1, 0.1, 0.1] on binary64.  The sum is 0.30000000000000004 and the mean
    0.10000000000000002, so every deviation is about -1.4e-17 instead of 0,
    the denominator is not zero, and [calculateCorrelation] returns 1 where
    the claim says 0.  A constant sequence whose mean is computed exactly,
    such as [5, 5, 5], gives 0; [calculateBeta] gives 1 on both.  In exact
    arithmetic the claim holds ([self_correlation_exact]). *)
Theorem calculateCorrelation_constant_tenths :
  let tenths := [dec (N := Binary64.number) 1 1; dec 1 1; dec 1 1] in
  let fives := [of_Z (Number := Binary64.number) 5; of_Z 5; of_Z 5] in
  Prim2SF (dec (N := Binary64.number) 1 1)
  = S754_finite false 7205759403792794 (-56)
  /\ Prim2SF (mean tenths) = S754_finite false 7205759403792795 (-56)
  /\ calculateCorrelation tenths tenths = of_Z 1
  /\ calculateCorrelation fives fives = of_Z 0
  /\ calculateBeta tenths tenths = of_Z 1
  /\ calculateBeta fives fives = of_Z 1.
Proof. cbv zeta. repeat split; vm_compute; reflexivity. Qed.

Import Quantity.

(** ** The report generated from a verdict *)

Section Report.

Context {N : Number}.

Variable host : Host.
Variable fundData : FundData.
Variable performanceData : list PerformanceRow.
Variable alternativeInvestments : list AlternativeInvestment.

Let verdict :=
  checkCompliance host fundData performanceData alternativeInvestments.

Let concentration :=
  compliant (checkConcentrationLimits alternativeInvestments).
Let fee := compliant (checkFeeDisclosure fundData).
Let risk := compliant (checkRiskDisclosure host fundData).
Let performance := compliant (checkPerformanceReporting performanceData).
Let liquidity :=
  compliant (checkLiquidityRequirements fundData performanceData).

Lemma count_passed_verdict :
  count_passed verdict
  = List.length
      (filter (fun passed : bool => passed)
         [concentration; risk; performance; fee; liquidity]).
Proof.
  unfold count_passed.
  destruct (checkCompliance_checks host fundData performanceData
              alternativeInvestments) as (Hc & Hr & Hp & Hf & Hl).
  fold verdict in Hc, Hr, Hp, Hf, Hl.
  rewrite Hc, Hr, Hp, Hf, Hl. reflexivity.
Qed.

Lemma generateRecommendations_verdict :
  generateRecommendations verdict
  = (if concentration then []
     else [{| priority := "HIGH";
              category := "Concentration Limits";
              action :=
  "Review and rebalance portfolio to meet IIROC concentration limits";
              deadline := "30 days" |}])
    ++ (if fee then []
        else [{| priority := "HIGH";
                 category := "Fee Disclosure";
                 action :=
  "Review fee structure and ensure compliance with IIROC fee limits";
                 deadline := "15 days" |}])
    ++ (if risk then []
        else [{| priority := "MEDIUM";
                 category := "Risk Disclosure";
                 action :=
                   "Update fund documentation with complete risk disclosures";
                 deadline := "60 days" |}])
    ++ (if liquidity then []
        else [{| priority := "MEDIUM";
                 category := "Liquidity";
                 action :=
  "Monitor liquidity ratios and consider portfolio adjustments";
                 deadline := "90 days" |}]).
Proof.
  unfold generateRecommendations.
  destruct (checkCompliance_checks host fundData performanceData
              alternativeInvestments) as (Hc & _ & _ & Hf & _).
  fold verdict in Hc, Hf. rewrite Hc, Hf.
  pose proof (checkCompliance_warnings host fundData performanceData
                alternativeInvestments) as Hw.
  fold verdict in Hw. rewrite Hw.
  fold concentration fee risk performance liquidity.
  destruct concentration, fee, risk, performance, liquidity; reflexivity.
Qed.

End Report.

(** X1.  In the report generated from the verdict of [checkCompliance], the
    five checks are all accounted for: the number of passed checks, of
    warnings and of violations add up to [totalChecks], which is 5; there are
    at most two violations and three warnings; the status is [COMPLIANT]
    exactly when there is no violation; and [details] is the verdict. *)
Theorem report_summary_accounts_for_every_check :
  forall (N : Number) (Id : Type) (host clock : Host) (id : Id)
         (fundData : FundData) (performanceData : list PerformanceRow)
         (alternativeInvestments : list AlternativeInvestment),
    let verdict :=
      checkCompliance host fundData performanceData alternativeInvestments in
    let report := generateComplianceReport clock id verdict in
    totalChecks (summary report) = 5
    /\ passedChecks (summary report) + summary_warnings (summary report)
       + summary_violations (summary report)
       = totalChecks (summary report)
    /\ summary_violations (summary report) <= 2
    /\ summary_warnings (summary report) <= 3
    /\ (complianceStatus report = "COMPLIANT"
        <-> summary_violations (summary report) = 0)
    /\ (complianceStatus report = "NON-COMPLIANT"
        <-> summary_violations (summary report) <> 0)
    /\ details report = verdict.
Proof.
  intros N Id host clock id fundData performanceData alternativeInvestments.
  cbv zeta.
  unfold generateComplianceReport.
  cbn [summary totalChecks passedChecks summary_warnings summary_violations
       complianceStatus details].
  rewrite count_passed_verdict, checkCompliance_overallCompliant,
    checkCompliance_violations, checkCompliance_warnings.
  destruct (compliant (checkConcentrationLimits alternativeInvestments));
  destruct (compliant (checkRiskDisclosure host fundData));
  destruct (compliant (checkPerformanceReporting performanceData));
  destruct (compliant (checkFeeDisclosure fundData));
  destruct (compliant (checkLiquidityRequirements fundData performanceData));
  cbn; repeat split; intros; try reflexivity; try discriminate; try lia;
  try congruence.
Qed.

(** X2.  The recommendations generated from the verdict of [checkCompliance]
    follow the failed checks: one HIGH recommendation for each violation
    (concentration limits, then fee disclosure), then one MEDIUM
    recommendation for a failed risk disclosure and one for failed liquidity
    requirements, in that order.  A failed performance-reporting check is a
    warning for which no recommendation is made, so the list is empty exactly
    when the four other checks pass. *)
Theorem recommendations_follow_failed_checks :
  forall (N : Number) (host : Host) (fundData : FundData)
         (performanceData : list PerformanceRow)
         (alternativeInvestments : list AlternativeInvestment),
    let verdict :=
      checkCompliance host fundData performanceData alternativeInvestments in
    let recommendations := generateRecommendations verdict in
    let concentration :=
      compliant (checkConcentrationLimits alternativeInvestments) in
    let fee := compliant (checkFeeDisclosure fundData) in
    let risk := compliant (checkRiskDisclosure host fundData) in
    let performance := compliant (checkPerformanceReporting performanceData) in
    let liquidity :=
      compliant (checkLiquidityRequirements fundData performanceData) in
    map category recommendations
    = (if concentration then [] else ["Concentration Limits"])
      ++ (if fee then [] else ["Fee Disclosure"])
      ++ (if risk then [] else ["Risk Disclosure"])
      ++ (if liquidity then [] else ["Liquidity"])
    /\ map priority recommendations
       = map (fun _ => "HIGH") (violations verdict)
         ++ (if risk then [] else ["MEDIUM"])
         ++ (if liquidity then [] else ["MEDIUM"])
    /\ List.length recommendations + (if performance then 0 else 1)
       = List.length (violations verdict) + List.length (warnings verdict)
    /\ (recommendations = []
        <-> concentration && fee && risk && liquidity = true)
    /\ (overallCompliant verdict = true
        <-> ~ In "HIGH" (map priority recommendations)).
Proof.
  intros N host fundData performanceData alternativeInvestments.
  cbv zeta.
  rewrite generateRecommendations_verdict, checkCompliance_overallCompliant,
    checkCompliance_violations, checkCompliance_warnings.
  destruct (compliant (checkConcentrationLimits alternativeInvestments));
  destruct (compliant (checkRiskDisclosure host fundData));
  destruct (compliant (checkPerformanceReporting performanceData));
  destruct (compliant (checkFeeDisclosure fundData));
  destruct (compliant (checkLiquidityRequirements fundData performanceData));
  cbn; repeat split; intros; try reflexivity; try discriminate;
  try tauto;
  try (intros Hin;
       repeat match goal with
              | H : _ \/ _ |- _ => destruct H
              | H : False |- _ => destruct H
              end; discriminate);
  try (exfalso;
       match goal with
       | H : ~ _ |- _ => apply H; left; reflexivity
       end).
Qed.

(** ** Regulatory alerts *)

Section Alerts.

Context {N : Number}.

Variable host : Host.
Variable fundData : FundData.
Variable performanceData : list PerformanceRow.

(** The types of the alerts raised, in the order they are pushed. *)
Lemma checkRegulatoryAlerts_types :
  map alert_type (checkRegulatoryAlerts host fundData performanceData)
  = (if Nat.ltb 0 (List.length performanceData)
        && ltb (of_Z 25)
             (calculateVolatility (map total_return performanceData))
     then ["HIGH_VOLATILITY"] else [])
    ++ (if ltb (of_Z 2) (number_of (expense_ratio fundData))
        then ["HIGH_FEES"] else [])
    ++ match fundAge host fundData with
       | Some age => if (age <? 1)%Z then ["NEW_FUND"] else []
       | None => []
       end.
Proof.
  unfold checkRegulatoryAlerts.
  destruct (Nat.ltb 0 (List.length performanceData));
  [ destruct (ltb (of_Z 25)
                (calculateVolatility (map total_return performanceData))) | ];
  (destruct (ltb (of_Z 2) (number_of (expense_ratio fundData)));
   (destruct (fundAge host fundData) as [age | ];
    [ destruct (age <? 1)%Z | ])); reflexivity.
Qed.

Lemma high_fees_alert_iff :
  In "HIGH_FEES"
    (map alert_type (checkRegulatoryAlerts host fundData performanceData))
  <-> ltb (of_Z 2) (number_of (expense_ratio fundData)) = true.
Proof.
  rewrite checkRegulatoryAlerts_types.
  destruct (Nat.ltb 0 (List.length performanceData)
            && ltb (of_Z 25)
                 (calculateVolatility (map total_return performanceData)));
  destruct (ltb (of_Z 2) (number_of (expense_ratio fundData)));
  (destruct (fundAge host fundData) as [age | ];
   [ destruct (age <? 1)%Z | ]); cbn;
  (split; [ intros H | intros H; try discriminate; tauto ]);
  try reflexivity;
  repeat match goal with
         | H : _ \/ _ |- _ => destruct H
         | H : False |- _ => destruct H
         end; discriminate.
Qed.

Lemma new_fund_alert_iff :
  In "NEW_FUND"
    (map alert_type (checkRegulatoryAlerts host fundData performanceData))
  <-> exists age : Z, fundAge host fundData = Some age /\ (age < 1)%Z.
Proof.
  rewrite checkRegulatoryAlerts_types.
  destruct (Nat.ltb 0 (List.length performanceData)
            && ltb (of_Z 25)
                 (calculateVolatility (map total_return performanceData)));
  destruct (ltb (of_Z 2) (number_of (expense_ratio fundData)));
  (destruct (fundAge host fundData) as [age | ];
   [ destruct (Z.ltb_spec age 1) as [Hage1 | Hage1] | ]); cbn;
  (split;
   [ intros Hin;
     repeat match goal with
            | H : _ \/ _ |- _ => destruct H
            | H : False |- _ => destruct H
            end; try discriminate;
     try (exists age; split; [ reflexivity | assumption ])
   | intros (age' & Hage & Hlt); try discriminate;
     try (injection Hage as <-); try lia; tauto ]).
Qed.

Lemma high_volatility_alert_iff :
  In "HIGH_VOLATILITY"
    (map alert_type (checkRegulatoryAlerts host fundData performanceData))
  <-> performanceData <> []
      /\ ltb (of_Z 25)
           (calculateVolatility (map total_return performanceData))
         = true.
Proof.
  rewrite checkRegulatoryAlerts_types.
  destruct performanceData as [ | p rest] eqn:Hdata;
    cbn [List.length Nat.ltb Nat.leb andb].
  - destruct (ltb (of_Z 2) (number_of (expense_ratio fundData)));
    (destruct (fundAge host fundData) as [age | ];
     [ destruct (age <? 1)%Z | ]); cbn;
    (split; [ intros H | intros [H _]; contradiction ]);
    repeat match goal with
           | H : _ \/ _ |- _ => destruct H
           | H : False |- _ => destruct H
           end; discriminate.
  - destruct (ltb (of_Z 25)
                (calculateVolatility (map total_return (p :: rest))));
    destruct (ltb (of_Z 2) (number_of (expense_ratio fundData)));
    (destruct (fundAge host fundData) as [age | ];
     [ destruct (age <? 1)%Z | ]); cbn;
    (split;
     [ intros H; split; [ discriminate | ];
       repeat match goal with
              | H : _ \/ _ |- _ => destruct H
              | H : False |- _ => destruct H
              end; try discriminate; reflexivity
     | intros [_ H]; try discriminate; tauto ]).
Qed.

End Alerts.

(** X3.  The alerts agree with the risk score computed under the same clock,
    in any arithmetic in which a comparison with NaN is false.  The score is
    not a number exactly when the fund type names an inherited property, and
    the level is then [High].  Otherwise a fund that raises the HIGH_FEES
    alert has the two fee points in its score, and one that raises the
    NEW_FUND alert the two age points: either way the score is at least 4; a
    fund that raises both scores at least 6.  So a fund that raises one of
    the two alerts is never at level [Low], and one that raises both is at
    level Medium or above.  A fund whose age the clock cannot compute
    (inception date absent or invalid) never raises NEW_FUND and gets no age
    points. *)
Theorem alerts_agree_with_risk_score :
  forall N : Number,
    NaNPropagation N ->
    forall (host : Host) (fundData : FundData)
           (performanceData : list PerformanceRow),
      let types :=
        map alert_type
          (checkRegulatoryAlerts host fundData performanceData) in
      let score := calculateRiskScore host fundData in
      (score = NotANumber <-> inherits fundData = true)
      /\ (In "HIGH_FEES" types ->
          (forall n : Z, score = Score n -> (4 <= n)%Z)
          /\ getRiskLevel score <> "Low")
      /\ (In "NEW_FUND" types ->
          (forall n : Z, score = Score n -> (4 <= n)%Z)
          /\ getRiskLevel score <> "Low")
      /\ (In "HIGH_FEES" types -> In "NEW_FUND" types ->
          (forall n : Z, score = Score n -> (6 <= n)%Z)
          /\ getRiskLevel score <> "Low"
          /\ getRiskLevel score <> "Low-Medium")
      /\ (fundAge host fundData = None ->
          ~ In "NEW_FUND" types
          /\ (inherits fundData = false ->
              score
              = Score (Z.min 10
                         (base_score (fund_type fundData)
                          + expense_points (expense_ratio fundData))))).
Proof.
  intros N P host fundData performanceData. cbv zeta.
  rewrite high_fees_alert_iff, new_fund_alert_iff.
  destruct (inherits fundData) eqn:Hinherits.
  - rewrite (calculateRiskScore_inherited host fundData Hinherits).
    cbn [getRiskLevel].
    split; [ split; reflexivity | ].
    split; [ intros _; split; [ discriminate | discriminate ] | ].
    split; [ intros _; split; [ discriminate | discriminate ] | ].
    split; [ intros _ _; repeat split; discriminate | ].
    intros Hnone. split; [ | discriminate ].
    intros (age & Hsome & _). congruence.
  - rewrite (calculateRiskScore_not_inherited host fundData Hinherits).
    unfold risk_score.
    change (calendar_age host (inception_date fundData))
      with (fundAge host fundData).
    pose proof (base_score_bounds (fund_type fundData)) as Hbase.
    assert (0 <= expense_points (expense_ratio fundData) <= 2)%Z as Hfee.
    { unfold expense_points, fee_points.
      destruct (expense_ratio fundData); [ | lia ].
      repeat match goal with
             | |- context [if ?b then _ else _] => destruct b
             end; lia. }
    assert (0 <= age_points (fundAge host fundData) <= 2)%Z as Hage.
    { unfold age_points. destruct (fundAge host fundData); [ | lia ].
      repeat match goal with
             | |- context [if ?b then _ else _] => destruct b
             end; lia. }
    assert (ltb (of_Z 2) (number_of (expense_ratio fundData)) = true ->
            expense_points (expense_ratio fundData) = 2%Z) as Hhigh.
    { unfold number_of, expense_points, fee_points.
      destruct (expense_ratio fundData) as [e | ].
      - intros ->. reflexivity.
      - rewrite ltb_nan_r. discriminate. }
    assert ((exists age : Z,
                fundAge host fundData = Some age /\ (age < 1)%Z) ->
            age_points (fundAge host fundData) = 2%Z) as Hnew.
    { intros (age & -> & Hlt). unfold age_points.
      destruct (Z.ltb_spec age 3); [ reflexivity | lia ]. }
    assert (forall s : Z, (4 <= s)%Z -> getRiskLevel (Score s) <> "Low")
      as Hlow.
    { intros s Hs. unfold getRiskLevel.
      destruct (Z.leb_spec s 3); [ lia | ].
      repeat match goal with
             | |- context [if ?b then _ else _] => destruct b
             end; discriminate. }
    assert (forall s : Z,
               (6 <= s)%Z -> getRiskLevel (Score s) <> "Low-Medium")
      as Hmedium.
    { intros s Hs. unfold getRiskLevel.
      destruct (Z.leb_spec s 3); [ lia | ].
      destruct (Z.leb_spec s 5); [ lia | ].
      repeat match goal with
             | |- context [if ?b then _ else _] => destruct b
             end; discriminate. }
    split; [ split; discriminate | ].
    split; [ | split; [ | split ] ].
    + intros H. apply Hhigh in H.
      split; [ intros n Hn; injection Hn as <-; lia | apply Hlow; lia ].
    + intros H. apply Hnew in H.
      split; [ intros n Hn; injection Hn as <-; lia | apply Hlow; lia ].
    + intros H1 H2. apply Hhigh in H1. apply Hnew in H2.
      split; [ intros n Hn; injection Hn as <-; lia | ].
      split; [ apply Hlow; lia | apply Hmedium; lia ].
    + intros Hnone. split.
      * intros (age & Hsome & _). congruence.
      * intros _. rewrite Hnone. unfold age_points. do 2 f_equal. lia.
Qed.

(** A clock in 2020 and a sector fund with an expense ratio of 2.5 launched
    that year: both alerts are raised. *)
Lemma alerts_agree_with_risk_score_witness :
  let fund : @FundData Binary64.number :=
    {| fund_type := Some "Sector";
       management_fee := Some (of_Z 1);
       expense_ratio := Some (dec 25 1);
       inception_date := Some "2020-03-01" |} in
  let host := host_at 2020 "2020-11-01T00:00:00.000Z" in
  (forall n : Z, calculateRiskScore host fund = Score n -> (6 <= n)%Z)
  /\ getRiskLevel (calculateRiskScore host fund) <> "Low"
  /\ getRiskLevel (calculateRiskScore host fund) <> "Low-Medium".
Proof.
  cbv zeta.
  refine (let H := alerts_agree_with_risk_score Binary64.number
                     binary64_nan_propagation
                     (host_at 2020 "2020-11-01T00:00:00.000Z")
                     {| fund_type := Some "Sector";
                        management_fee := Some (of_Z 1);
                        expense_ratio := Some (dec 25 1);
                        inception_date := Some "2020-03-01" |} [] in _).
  cbv zeta in H. destruct H as (_ & _ & _ & H & _).
  apply H.
  - vm_compute. left. reflexivity.
  - vm_compute. right. left. reflexivity.
Defined.

(** X4.  The HIGH_VOLATILITY alert agrees with the performance-reporting
    check of the same series.  On an empty series the check reports that no
    data is available and the alert is never raised.  On a non-empty series
    the check reports a volatility, the alert is raised exactly when that
    volatility exceeds 25, and the alert then is a WARNING with threshold 25
    whose message carries the same volatility. *)
Theorem volatility_alert_agrees_with_performance_report :
  forall (N : Number) (host : Host) (fundData : FundData)
         (performanceData : list PerformanceRow),
    let alerts := checkRegulatoryAlerts host fundData performanceData in
    (performanceData = [] ->
     ~ In "HIGH_VOLATILITY" (map alert_type alerts)
     /\ checkPerformanceReporting performanceData
        = PerformanceUnavailable "No performance data available")
    /\ (performanceData <> [] ->
        exists (volatility maxDrawdown : num) (enough : bool),
          checkPerformanceReporting performanceData
          = PerformanceSummary enough volatility maxDrawdown
              (List.length performanceData) enough
          /\ (In "HIGH_VOLATILITY" (map alert_type alerts)
              <-> ltb (of_Z 25) volatility = true)
          /\ (forall a : Alert,
                 In a alerts -> alert_type a = "HIGH_VOLATILITY" ->
                 message a = VolatilityExceedsNormalRange volatility
                 /\ severity a = "WARNING"
                 /\ threshold a = of_Z 25)).
Proof.
  intros N host fundData performanceData. cbv zeta. split.
  - intros ->. split; [ | reflexivity ].
    rewrite high_volatility_alert_iff. intros [H _]. apply H. reflexivity.
  - intros Hne.
    exists (calculateVolatility (map total_return performanceData)),
           (calculateMaxDrawdown (map nav performanceData)),
           (Nat.leb 12 (List.length performanceData)).
    split; [ | split ].
    + unfold checkPerformanceReporting.
      destruct performanceData; [ contradiction | reflexivity ].
    + rewrite high_volatility_alert_iff. tauto.
    + intros a Hin Htype. revert Hin. unfold checkRegulatoryAlerts.
      destruct (Nat.ltb 0 (List.length performanceData));
      [ destruct (ltb (of_Z 25)
                    (calculateVolatility
                       (map total_return performanceData))) | ];
      (destruct (ltb (of_Z 2) (number_of (expense_ratio fundData)));
       (destruct (fundAge host fundData) as [age | ];
        [ destruct (age <? 1)%Z | ])); cbn [app In];
      intros Hin;
      repeat match goal with
             | H : _ \/ _ |- _ => destruct H
             | H : False |- _ => destruct H
             end; subst a; cbn in Htype; try discriminate;
      repeat split.
Qed.

(** Thirteen monthly observations of the same return: the volatility is 0
    and no alert is raised. *)
Lemma volatility_alert_agrees_with_performance_report_witness :
  exists (volatility maxDrawdown : @num Binary64.number) (enough : bool),
    checkPerformanceReporting (repeat (observation (of_Z 20000000)) 13)
    = PerformanceSummary enough volatility maxDrawdown 13 enough.
Proof.
  destruct (volatility_alert_agrees_with_performance_report Binary64.number
              (host_at 2020 "2020-11-01T00:00:00.000Z") balanced_fund
              (repeat (observation (of_Z 20000000)) 13)) as [_ H].
  destruct H as (v & m & e & H & _).
  - discriminate.
  - exists v, m, e. exact H.
Defined.

(** ** Risk disclosure *)

Section Disclosure.

Context {N : Number}.

Variable host : Host.
Variable fundData : FundData.

Lemma missingDisclosures_fields :
  missingDisclosures (checkRiskDisclosure host fundData)
  = (if field_missing fundData "fund_type" then ["fund_type"] else [])
    ++ (if field_missing fundData "management_fee"
        then ["management_fee"] else [])
    ++ (if field_missing fundData "expense_ratio"
        then ["expense_ratio"] else [])
    ++ (if field_missing fundData "inception_date"
        then ["inception_date"] else []).
Proof.
  unfold checkRiskDisclosure. cbn [missingDisclosures filter].
  destruct (field_missing fundData "fund_type");
  destruct (field_missing fundData "management_fee");
  destruct (field_missing fundData "expense_ratio");
  destruct (field_missing fundData "inception_date"); reflexivity.
Qed.

Lemma checkRiskDisclosure_compliant :
  compliant (checkRiskDisclosure host fundData)
  = negb (field_missing fundData "fund_type")
    && negb (field_missing fundData "management_fee")
    && negb (field_missing fundData "expense_ratio")
    && negb (field_missing fundData "inception_date").
Proof.
  change (compliant (checkRiskDisclosure host fundData))
    with (Nat.eqb
            (List.length
               (missingDisclosures (checkRiskDisclosure host fundData))) 0).
  rewrite missingDisclosures_fields.
  destruct (field_missing fundData "fund_type");
  destruct (field_missing fundData "management_fee");
  destruct (field_missing fundData "expense_ratio");
  destruct (field_missing fundData "inception_date"); reflexivity.
Qed.

Lemma field_missing_management_fee :
  field_missing fundData "management_fee"
  = match management_fee fundData with
    | Some x => falsy x
    | None => true
    end.
Proof. reflexivity. Qed.

Lemma field_missing_expense_ratio :
  field_missing fundData "expense_ratio"
  = match expense_ratio fundData with
    | Some x => falsy x
    | None => true
    end.
Proof. reflexivity. Qed.

Lemma field_missing_fund_type :
  field_missing fundData "fund_type"
  = match fund_type fundData with
    | Some s => String.eqb s ""
    | None => true
    end.
Proof. reflexivity. Qed.

Lemma field_missing_inception_date :
  field_missing fundData "inception_date"
  = match inception_date fundData with
    | Some s => String.eqb s ""
    | None => true
    end.
Proof. reflexivity. Qed.

End Disclosure.

(** Zero and NaN are the falsy numbers of binary64. *)
Lemma falsy_binary64 :
  forall x : float,
    falsy (N := Binary64.number) x
    = match Prim2SF x with
      | S754_zero _ | S754_nan => true
      | _ => false
      end.
Proof.
  intros x. unfold falsy. cbn [eqb of_Z Binary64.number].
  rewrite !eqb_spec.
  replace (Prim2SF (Binary64.Z2F 0)) with (S754_zero false)
    by (vm_compute; reflexivity).
  destruct (Prim2SF x) as [s | s | | s m e]; try reflexivity.
  - destruct s; reflexivity.
  - unfold SFeqb, SFcompare. rewrite Z.compare_refl, Pos.compare_cont_refl.
    destruct s; reflexivity.
Qed.

Lemma falsy_exact :
  forall x : Exact.xreal,
    falsy (N := Exact.number) x
    = match x with
      | Exact.Fin a => if Req_dec_T a 0 then true else false
      | Exact.Inf _ => false
      | Exact.NaN => true
      end.
Proof.
  intros [a | s | ]; unfold falsy; cbn.
  - unfold Exact.Reqb.
    destruct (Req_dec_T a 0); destruct (Req_dec_T a a); try reflexivity.
    congruence.
  - destruct s; reflexivity.
  - reflexivity.
Qed.

(** X5.  The risk-disclosure check passes exactly when the four required
    fields are present and truthy: the fund type and the inception date are
    non-empty strings, the management fee and the expense ratio are numbers
    other than zero and NaN.  A fund that charges no management fee (a fee
    of 0), or has an expense ratio of 0, is therefore reported as not
    disclosing it and fails the check, on binary64 and in exact arithmetic;
    the outcome does not depend on the clock. *)
Theorem checkRiskDisclosure_requires_truthy_fields :
  (forall (N : Number) (host : Host) (fundData : FundData),
      (compliant (checkRiskDisclosure host fundData) = true
       <-> (exists t : string, fund_type fundData = Some t /\ t <> "")
           /\ (exists m : num,
                  management_fee fundData = Some m /\ falsy m = false)
           /\ (exists e : num,
                  expense_ratio fundData = Some e /\ falsy e = false)
           /\ (exists d : string,
                  inception_date fundData = Some d /\ d <> ""))
      /\ (In "management_fee"
            (missingDisclosures (checkRiskDisclosure host fundData))
          <-> forall m : num,
                management_fee fundData = Some m -> falsy m = true)
      /\ (In "expense_ratio"
            (missingDisclosures (checkRiskDisclosure host fundData))
          <-> forall e : num,
                expense_ratio fundData = Some e -> falsy e = true))
  /\ (forall x : float,
         falsy (N := Binary64.number) x = true
         <-> (exists s : bool, Prim2SF x = S754_zero s)
             \/ Prim2SF x = S754_nan)
  /\ (forall x : Exact.xreal,
         falsy (N := Exact.number) x = true
         <-> x = Exact.Fin 0 \/ x = Exact.NaN)
  /\ (forall (host : Host) (fundData : @FundData Binary64.number),
         management_fee fundData = Some (of_Z 0)
         \/ expense_ratio fundData = Some (of_Z 0) ->
         compliant (checkRiskDisclosure host fundData) = false)
  /\ (forall (host : Host) (fundData : @FundData Exact.number),
         management_fee fundData = Some (of_Z 0)
         \/ expense_ratio fundData = Some (of_Z 0) ->
         compliant (checkRiskDisclosure host fundData) = false).
Proof.
  split; [ | split; [ | split; [ | split ] ] ].
  - intros N host fundData. split; [ | split ].
    + rewrite checkRiskDisclosure_compliant, field_missing_fund_type,
        field_missing_management_fee, field_missing_expense_ratio,
        field_missing_inception_date.
      destruct (fund_type fundData) as [t | ];
      destruct (management_fee fundData) as [m | ];
      destruct (expense_ratio fundData) as [e | ];
      destruct (inception_date fundData) as [d | ];
      try (destruct (String.eqb_spec t "") as [Ht | Ht]);
      try (destruct (falsy m) eqn:Hm);
      try (destruct (falsy e) eqn:He);
      try (destruct (String.eqb_spec d "") as [Hd | Hd]);
      cbn;
      (split;
       [ intros H; try discriminate;
         repeat split; eexists; split; try reflexivity; assumption
       | intros ((t' & Ht' & Hne) & (m' & Hm' & Hfm) & (e' & He' & Hfe)
                 & (d' & Hd' & Hnd));
         try discriminate;
         try (injection Ht' as <-); try (injection Hm' as <-);
         try (injection He' as <-); try (injection Hd' as <-);
         try congruence; reflexivity ]).
    + rewrite missingDisclosures_fields, field_missing_management_fee.
      destruct (field_missing fundData "fund_type");
      destruct (field_missing fundData "expense_ratio");
      destruct (field_missing fundData "inception_date");
      (destruct (management_fee fundData) as [m | ];
       [ destruct (falsy m) eqn:Hm | ]); cbn;
      (split;
       [ intros H m' Hm'; try discriminate; try (injection Hm' as <-);
         try assumption;
         repeat match goal with
                | H : _ \/ _ |- _ => destruct H
                | H : False |- _ => destruct H
                end; discriminate
       | intros H; try tauto;
         specialize (H m eq_refl); congruence ]).
    + rewrite missingDisclosures_fields, field_missing_expense_ratio.
      destruct (field_missing fundData "fund_type");
      destruct (field_missing fundData "management_fee");
      destruct (field_missing fundData "inception_date");
      (destruct (expense_ratio fundData) as [e | ];
       [ destruct (falsy e) eqn:He | ]); cbn;
      (split;
       [ intros H e' He'; try discriminate; try (injection He' as <-);
         try assumption;
         repeat match goal with
                | H : _ \/ _ |- _ => destruct H
                | H : False |- _ => destruct H
                end; discriminate
       | intros H; try tauto;
         specialize (H e eq_refl); congruence ]).
  - intros x. rewrite falsy_binary64.
    destruct (Prim2SF x) as [s | s | | s m e]; split;
      try (intros H; discriminate H);
      try (intros [[s' H] | H]; discriminate H);
      try reflexivity.
    + intros _. left. exists s. reflexivity.
    + intros _. right. reflexivity.
  - intros x. rewrite falsy_exact.
    destruct x as [a | s | ].
    + destruct (Req_dec_T a 0) as [-> | Hne]; split;
        try (intros H; discriminate H); try reflexivity.
      * intros _. left. reflexivity.
      * intros [H | H]; [ | discriminate H ].
        injection H as H. contradiction.
    + split; [ intros H; discriminate H | intros [H | H]; discriminate H ].
    + split; [ intros _; right; reflexivity | reflexivity ].
  - intros host fundData Hzero.
    rewrite checkRiskDisclosure_compliant, field_missing_management_fee,
      field_missing_expense_ratio.
    destruct Hzero as [-> | ->].
    + replace (falsy (N := Binary64.number) (of_Z 0)) with true
        by (vm_compute; reflexivity).
      cbn. rewrite andb_false_r. reflexivity.
    + replace (falsy (N := Binary64.number) (of_Z 0)) with true
        by (vm_compute; reflexivity).
      cbn. rewrite andb_false_r. reflexivity.
  - intros host fundData Hzero.
    assert (falsy (N := Exact.number) (of_Z 0) = true) as Hfalsy.
    { rewrite falsy_exact. cbn. destruct (Req_dec_T 0 0); congruence. }
    rewrite checkRiskDisclosure_compliant, field_missing_management_fee,
      field_missing_expense_ratio.
    destruct Hzero as [-> | ->]; rewrite Hfalsy; cbn;
      rewrite andb_false_r; reflexivity.
Qed.

(** ** Risk-adjusted return *)

Lemma toLowerCase_ascii_idempotent :
  forall c : Ascii.ascii,
    toLowerCase_ascii (toLowerCase_ascii c) = toLowerCase_ascii c.
Proof.
  intros [b0 b1 b2 b3 b4 b5 b6 b7].
  destruct b0, b1, b2, b3, b4, b5, b6, b7; reflexivity.
Qed.

Lemma toLowerCase_idempotent :
  forall s : string, toLowerCase (toLowerCase s) = toLowerCase s.
Proof.
  intros s. induction s as [ | c s IH]; cbn [toLowerCase].
  - reflexivity.
  - rewrite toLowerCase_ascii_idempotent, IH. reflexivity.
Qed.

(** X6.  [calculateRiskAdjustedReturn] raises a TypeError for every sequence
    of returns when the measure, in lower case, is [treynor]: the Treynor
    ratio is called without a benchmark, and the beta it starts with reads
    the length of an undefined array.  For every other measure the call
    returns: the Sortino ratio for [sortino], the Sharpe ratio for [sharpe]
    and for any unknown name, all at the default risk-free rate.  The measure
    is matched without regard to case.  With a benchmark the Treynor ratio is
    the one of [calculateTreynorRatio]. *)
Theorem calculateRiskAdjustedReturn_treynor_raises :
  forall (N : Number) (returns : list num) (riskMeasure : string),
    let measure := toLowerCase riskMeasure in
    (raises (calculateRiskAdjustedReturn returns riskMeasure)
     <-> measure = "treynor")
    /\ (measure = "treynor" ->
        calculateRiskAdjustedReturn returns riskMeasure = Throw TypeError)
    /\ (measure = "sortino" ->
        calculateRiskAdjustedReturn returns riskMeasure
        = Return (calculateSortinoRatio returns riskFreeRate_default))
    /\ (measure <> "treynor" -> measure <> "sortino" ->
        calculateRiskAdjustedReturn returns riskMeasure
        = Return (calculateSharpeRatio returns riskFreeRate_default))
    /\ calculateRiskAdjustedReturn returns measure
       = calculateRiskAdjustedReturn returns riskMeasure
    /\ (forall (benchmarkReturns : list num) (riskFreeRate : num),
           calculateTreynorRatio_of returns (Some benchmarkReturns)
             riskFreeRate
           = Return (calculateTreynorRatio returns benchmarkReturns
                       riskFreeRate)).
Proof.
  intros N returns riskMeasure measure.
  assert (calculateRiskAdjustedReturn returns riskMeasure
          = if String.eqb measure "treynor" then Throw TypeError
            else if String.eqb measure "sortino"
                 then Return (calculateSortinoRatio returns
                                riskFreeRate_default)
                 else Return (calculateSharpeRatio returns
                                riskFreeRate_default)) as Hcases.
  { unfold calculateRiskAdjustedReturn. fold measure.
    destruct (String.eqb_spec measure "sharpe") as [-> | _];
      [ reflexivity | ].
    destruct (String.eqb_spec measure "sortino") as [-> | _];
      [ reflexivity | ].
    destruct (String.eqb_spec measure "treynor"); reflexivity. }
  split; [ | split; [ | split; [ | split; [ | split ] ] ] ].
  - rewrite Hcases.
    destruct (String.eqb_spec measure "treynor") as [Heq | Hne].
    + cbn. tauto.
    + destruct (String.eqb measure "sortino"); cbn; tauto.
  - intros Heq. rewrite Hcases, Heq. reflexivity.
  - intros Heq. rewrite Hcases, Heq. reflexivity.
  - intros Htreynor Hsortino. rewrite Hcases.
    destruct (String.eqb_spec measure "treynor"); [ contradiction | ].
    destruct (String.eqb_spec measure "sortino"); [ contradiction | ].
    reflexivity.
  - unfold calculateRiskAdjustedReturn, measure.
    rewrite toLowerCase_idempotent. reflexivity.
  - intros benchmarkReturns riskFreeRate.
    unfold calculateTreynorRatio_of, calculateTreynorRatio, calculateBeta_of.
    cbn [bind].
    destruct (eqb (calculateBeta returns benchmarkReturns) (of_Z 0));
      reflexivity.
Qed.

(** The measure written [Treynor] or [TREYNOR], on binary64. *)
Lemma calculateRiskAdjustedReturn_treynor_raises_witness :
  calculateRiskAdjustedReturn (N := Binary64.number)
    [of_Z 1; of_Z 2] "Treynor"
  = Throw TypeError
  /\ calculateRiskAdjustedReturn (N := Binary64.number) [] "TREYNOR"
     = Throw TypeError.
Proof.
  split.
  - destruct (calculateRiskAdjustedReturn_treynor_raises Binary64.number
                [of_Z 1; of_Z 2] "Treynor") as (_ & H & _).
    apply H. reflexivity.
  - destruct (calculateRiskAdjustedReturn_treynor_raises Binary64.number
                [] "TREYNOR") as (_ & H & _).
    apply H. reflexivity.
Defined.

(** ** What the value at risk returns and when it raises *)

(** X7.  With every sort of the host that conforms, the value at risk is
    always one of the observed returns, rounded to 2 decimals: it is never
    interpolated between two observations.  The only
    error [calculateVaR] can raise is the TypeError of reading the sorted
    sequence outside its bounds, which happens exactly when the sequence is
    not empty and [floor((1 - c) * n)] is not one of its indices (it is
    negative, at least [n], or not a finite number); [calculateCVaR] raises
    exactly when [calculateVaR] does, with the same error.  In exact
    arithmetic, on finite returns, this is exactly when the confidence level
    lies outside the interval (0, 1]. *)
Theorem calculateVaR_returns_an_observation :
  (forall (N : Number) (S : ArraySort N),
      SortConforms S ->
      forall (returns : list num) (c : num),
      (forall v : num,
          returns <> [] -> calculateVaR returns c = Return v ->
          exists r : num, In r returns /\ v = toFixed 2 r)
      /\ (forall e : JSError,
             calculateVaR returns c = Throw e -> e = TypeError)
      /\ (raises (calculateVaR returns c)
          <-> returns <> []
              /\ match floorZ (mul (sub (of_Z 1) c) (length_of returns)) with
                 | Some i => (i < 0 \/ Z.of_nat (List.length returns) <= i)%Z
                 | None => True
                 end)
      /\ calculateCVaR returns c
         = bind (calculateVaR returns c)
             (fun varValue =>
                Return match filter (fun ret => leb ret varValue) returns with
                       | [] => varValue
                       | tail => toFixed 2 (mean tail)
                       end)
      /\ (raises (calculateCVaR returns c)
          <-> raises (calculateVaR returns c)))
  /\ (forall S : ArraySort Exact.number,
         SortConforms S ->
         forall (rs : list R) (c : R),
           rs <> [] ->
           (raises (calculateVaR (N := Exact.number)
                      (map Exact.Fin rs) (Exact.Fin c))
            <-> ~ (0 < c <= 1)%R)).
Proof.
  assert (forall (N : Number) (S : ArraySort N) (C : SortConforms S)
                 (returns : list num) (c : num),
             raises (calculateVaR returns c)
             <-> returns <> []
                 /\ match floorZ (mul (sub (of_Z 1) c) (length_of returns))
                    with
                    | Some i =>
                        (i < 0 \/ Z.of_nat (List.length returns) <= i)%Z
                    | None => True
                    end) as Hraises.
  { intros N S C returns c.
    destruct returns as [ | r0 rest] eqn:Hreturns.
    - cbn. split; [ contradiction | intros [H _]; apply H; reflexivity ].
    - rewrite <- Hreturns.
      assert (returns <> []) as Hne by (rewrite Hreturns; discriminate).
      pose proof (calculateVaR_cases returns c Hne) as Hcases.
      destruct (floorZ (mul (sub (of_Z 1) c) (length_of returns)))
        as [i | ].
      + destruct (Z.leb_spec 0 i); destruct (Z.ltb_spec i
                   (Z.of_nat (List.length returns)));
          cbn [andb] in Hcases;
          try (destruct Hcases as (r & _ & _ & ->));
          try rewrite Hcases; cbn; split; try tauto; try lia;
          intros [_ [Hlt | Hge]]; lia.
      + rewrite Hcases. cbn. tauto. }
  assert (forall (N : Number) (S : ArraySort N) (returns : list num)
                 (c : num),
             calculateCVaR returns c
             = bind (calculateVaR returns c)
                 (fun varValue =>
                    Return match filter (fun ret => leb ret varValue) returns
                           with
                           | [] => varValue
                           | tail => toFixed 2 (mean tail)
                           end)) as HCVaR.
  { intros N S returns c. unfold calculateCVaR.
    destruct returns as [ | r0 rest] eqn:Hreturns; [ reflexivity | ].
    rewrite <- Hreturns.
    assert (Nat.eqb (List.length returns) 0 = false) as ->
      by (rewrite Hreturns; reflexivity).
    destruct (calculateVaR returns c) as [varValue | e]; [ | reflexivity ].
    cbn [bind].
    destruct (filter (fun ret => leb ret varValue) returns);
      [ reflexivity | ].
    rewrite mean_computed. reflexivity. }
  split.
  - intros N S C returns c. split; [ | split; [ | split; [ | split ] ] ].
    + intros v Hne Hv.
      pose proof (calculateVaR_cases returns c Hne) as Hcases.
      destruct (floorZ (mul (sub (of_Z 1) c) (length_of returns)))
        as [i | ].
      * destruct ((0 <=? i) && (i <? Z.of_nat (List.length returns)))%Z.
        -- destruct Hcases as (r & Hin & _ & Hr).
           exists r. split; [ exact Hin | congruence ].
        -- congruence.
      * congruence.
    + intros e He.
      destruct returns as [ | r0 rest] eqn:Hreturns; [ discriminate He | ].
      rewrite <- Hreturns in *.
      assert (returns <> []) as Hne by (rewrite Hreturns; discriminate).
      pose proof (calculateVaR_cases returns c Hne) as Hcases.
      destruct (floorZ (mul (sub (of_Z 1) c) (length_of returns)))
        as [i | ].
      * destruct ((0 <=? i) && (i <? Z.of_nat (List.length returns)))%Z.
        -- destruct Hcases as (r & _ & _ & Hr). congruence.
        -- congruence.
      * congruence.
    + apply Hraises. exact C.
    + apply HCVaR.
    + rewrite HCVaR.
      destruct (calculateVaR returns c); cbn; tauto.
  - intros S C rs c Hne. rewrite (Hraises _ _ C).
    assert (@List.length (@num Exact.number) (map Exact.Fin rs)
            = List.length rs) as Hlen by apply length_map.
    unfold length_of. rewrite Hlen.
    cbn [floorZ mul sub of_Z Exact.number].
    cbn [Exact.sub Exact.add Exact.neg Exact.mul Exact.floorZ].
    change (1 + - c)%R with (1 - c)%R.
    assert (1 <= IZR (Z.of_nat (List.length rs)))%R as Hn.
    { apply IZR_le. destruct rs; [ contradiction | cbn [List.length]; lia ]. }
    set (n := Z.of_nat (List.length rs)) in *.
    set (x := ((1 - c) * IZR n)%R).
    destruct (base_Int_part x) as [Hle Hgt].
    split.
    + intros [_ [Hneg | Hbig]] [Hc0 Hc1].
      * assert (0 <= x)%R by (unfold x; nra).
        assert (-1 < Int_part x)%Z by (apply lt_IZR; lra). lia.
      * assert (x < IZR n)%R by (unfold x; nra).
        apply IZR_le in Hbig. lra.
    + intros Hout. split.
      * destruct rs; [ contradiction | discriminate ].
      * destruct (Rle_dec c 0) as [Hc0 | Hc0].
        -- right. assert (IZR n <= x)%R by (unfold x; nra).
           assert (n - 1 < Int_part x)%Z as H1.
           { apply lt_IZR. rewrite minus_IZR. lra. }
           lia.
        -- left. assert (1 < c)%R by lra.
           assert (x < 0)%R by (unfold x; nra).
           apply lt_IZR. lra.
Qed.

(** Three returns at 95% confidence on binary64, and at a confidence level of
    0 in exact arithmetic, with the sample sort. *)
Lemma calculateVaR_returns_an_observation_witness :
  (exists r : float,
      In r [of_Z (Number := Binary64.number) 3; of_Z 1; of_Z 2]
      /\ of_Z (Number := Binary64.number) 1
         = toFixed (Number := Binary64.number) 2 r)
  /\ raises (calculateVaR (N := Exact.number) (S := insertion_sort)
               (map Exact.Fin [3; 1; 2]%R) (Exact.Fin 0)).
Proof.
  destruct calculateVaR_returns_an_observation as [Hany Hexact].
  split.
  - destruct (Hany Binary64.number insertion_sort
                (insertion_sort_conforms Binary64.number)
                [of_Z 3; of_Z 1; of_Z 2] confidenceLevel_default)
      as [H _].
    apply H.
    + discriminate.
    + vm_compute. reflexivity.
  - apply (Hexact insertion_sort (insertion_sort_conforms Exact.number)).
    + discriminate.
    + intros [H _]. lra.
Defined.

(** ** Binary64: results that are exact *)

(** The lemmas of this part are read off the specification of the binary64
    operations ([SpecFloat]), to which the primitive operations conform. *)

Section Binary64Arithmetic.

Import Binary64.

Lemma Prim2SF_eq :
  forall (x : float) (r : spec_float), Prim2SF x = r -> x = SF2Prim r.
Proof. intros x r <-. symmetry. apply SF2Prim_Prim2SF. Qed.

Lemma iter_pos_iter :
  forall (A : Type) (f : A -> A) (p : positive) (x : A),
    SpecFloat.iter_pos f p x = Pos.iter f x p.
Proof.
  intros A f p. induction p as [p IH | p IH | ]; intros x; cbn.
  - rewrite !IH. rewrite <- !Pos.iter_swap. reflexivity.
  - rewrite !IH. reflexivity.
  - reflexivity.
Qed.

Lemma shr_exact :
  forall (p m : positive),
    SpecFloat.iter_pos shr_1 p
      {| shr_m := Zpos (Pos.iter xO m p); shr_r := false; shr_s := false |}
    = {| shr_m := Zpos m; shr_r := false; shr_s := false |}.
Proof.
  intros p m. rewrite iter_pos_iter.
  induction p as [ | p IH] using Pos.peano_ind.
  - reflexivity.
  - replace (Pos.iter xO m (Pos.succ p)) with (xO (Pos.iter xO m p))
      by (symmetry; apply Pos.iter_succ).
    rewrite Pos.iter_succ_r. cbn [shr_1 orb]. exact IH.
Qed.

Lemma digits2_pos_iter_xO :
  forall (p m : positive),
    digits2_pos (Pos.iter xO m p) = (digits2_pos m + p)%positive.
Proof.
  intros p m. induction p as [ | p IH] using Pos.peano_ind.
  - cbn. lia.
  - rewrite Pos.iter_succ. cbn [digits2_pos]. rewrite IH. lia.
Qed.

(** A canonical mantissa, shifted left by [k] binary places, rounds back to
    itself. *)
Lemma binary_round_aux_exact :
  forall (s : bool) (m : positive) (e k : Z),
    SpecFloat.bounded prec emax m e = true ->
    (0 <= k)%Z ->
    binary_round_aux prec emax s (Zpos m * 2 ^ k) (e - k) loc_Exact
    = S754_finite s m e.
Proof.
  intros s m e k Hbounded Hk.
  pose proof Hbounded as Hb.
  unfold SpecFloat.bounded, canonical_mantissa in Hb.
  apply andb_prop in Hb. destruct Hb as [Hcanonical Hmax].
  apply Z.eqb_eq in Hcanonical.
  assert (shr_fexp prec emax (Zpos m * 2 ^ k) (e - k) loc_Exact
          = ({| shr_m := Zpos m; shr_r := false; shr_s := false |}, e))
    as Hfirst.
  { unfold shr_fexp. cbn [shr_record_of_loc].
    destruct k as [ | p | p]; [ | | lia ].
    - rewrite Z.mul_1_r, Z.sub_0_r. cbn [Zdigits2].
      rewrite Hcanonical, Z.sub_diag. reflexivity.
    - rewrite <- iter_xO_value. cbn [Zdigits2].
      rewrite digits2_pos_iter_xO.
      replace (Z.pos (digits2_pos m + p) + (e - Z.pos p))%Z
        with (Z.pos (digits2_pos m) + e)%Z by lia.
      rewrite Hcanonical.
      replace (e - (e - Z.pos p))%Z with (Z.pos p) by lia.
      cbn [shr]. rewrite shr_exact. f_equal. lia. }
  unfold binary_round_aux. rewrite Hfirst.
  cbn [shr_m loc_of_shr_record round_nearest_even].
  unfold shr_fexp. cbn [shr_record_of_loc Zdigits2].
  rewrite Hcanonical, Z.sub_diag. cbn [shr shr_m].
  rewrite Hmax. reflexivity.
Qed.

End Binary64Arithmetic.

Section Binary64Division.

Import Binary64.

Lemma Prim2SF_one : Prim2SF 1 = S754_finite false 4503599627370496 (-52).
Proof. reflexivity. Qed.

Lemma div_eucl_exact :
  forall a b : Z, (0 < b)%Z -> Z.div_eucl (a * b) b = (a, 0%Z).
Proof.
  intros a b Hb.
  assert (Z.div_eucl (a * b) b = ((a * b / b)%Z, ((a * b) mod b)%Z)) as ->.
  { unfold Z.div, Z.modulo. destruct (Z.div_eucl (a * b) b). reflexivity. }
  rewrite Z.div_mul, Z.mod_mul by lia. reflexivity.
Qed.

Lemma SFdiv_one :
  forall x : spec_float,
    valid_binary x = true ->
    SFdiv prec emax x (S754_finite false 4503599627370496 (-52)) = x.
Proof.
  intros [s | s | | s m e] Hvalid; cbn [SFdiv].
  - rewrite xorb_false_r. reflexivity.
  - rewrite xorb_false_r. reflexivity.
  - reflexivity.
  - cbn [valid_binary] in Hvalid.
    pose proof (bounded_canonical m e Hvalid) as (Hemin & Hdigits & Hnormal).
    pose proof Hvalid as Hb.
    unfold SpecFloat.bounded, canonical_mantissa in Hb.
    apply andb_prop in Hb. destruct Hb as [Hcanonical _].
    apply Z.eqb_eq in Hcanonical.
    unfold SFdiv_core_binary.
    cbn [Zdigits2].
    change (Z.pos (digits2_pos 4503599627370496)) with 53%Z.
    set (d := Z.pos (digits2_pos m)) in *.
    set (e' := Z.min (fexp prec emax (d + e - (53 + -52))) (e - -52)).
    assert (e' = e \/ e' = e - 1)%Z as He'.
    { unfold e', fexp, SpecFloat.emin, prec, emax in *. lia. }
    assert (exists k : Z, (0 <= k)%Z /\ e' = (e - k)%Z
                          /\ (e - -52 - e' = 52 + k)%Z) as (k & Hk & -> & Hs).
    { destruct He' as [-> | ->]; [ exists 0%Z | exists 1%Z ]; lia. }
    rewrite Hs.
    assert (exists p : positive, (52 + k)%Z = Zpos p) as (p & Hp).
    { destruct (52 + k)%Z as [ | p | p] eqn:E; try lia. exists p.
      reflexivity. }
    rewrite Hp, <- Hp.
    rewrite Z.shiftl_mul_pow2 by lia.
    replace (Z.pos m * 2 ^ (52 + k))%Z
      with ((Z.pos m * 2 ^ k) * 4503599627370496)%Z
      by (rewrite Z.pow_add_r by lia; change (2 ^ 52)%Z with 4503599627370496%Z;
          ring).
    rewrite div_eucl_exact by lia.
    change (new_location 4503599627370496 0) with loc_Exact.
    rewrite xorb_false_r.
    apply binary_round_aux_exact; assumption.
Qed.

Lemma float_div_one : forall x : float, (x / 1)%float = x.
Proof.
  intros x. apply Prim2SF_inj.
  rewrite div_spec, Prim2SF_one. apply SFdiv_one. apply Prim2SF_valid.
Qed.

Lemma SFdiv_self :
  forall (s : bool) (m : positive) (e : Z),
    SFdiv prec emax (S754_finite s m e) (S754_finite s m e)
    = S754_finite false 4503599627370496 (-52).
Proof.
  intros s m e. cbn [SFdiv]. unfold SFdiv_core_binary.
  rewrite !Z.sub_diag.
  change (Z.min (fexp prec emax 0) 0) with (-53)%Z.
  change (0 - -53)%Z with 53%Z.
  rewrite Z.shiftl_mul_pow2 by lia.
  replace (Z.pos m * 2 ^ 53)%Z with (2 ^ 53 * Z.pos m)%Z by ring.
  rewrite div_eucl_exact by lia.
  assert (new_location (Z.pos m) 0 = loc_Exact) as ->.
  { unfold new_location. destruct (Z.even (Z.pos m)); reflexivity. }
  rewrite xorb_nilpotent. reflexivity.
Qed.

Lemma float_div_self :
  forall x : float,
    (exists (s : bool) (m : positive) (e : Z), Prim2SF x = S754_finite s m e) ->
    (x / x)%float = 1%float.
Proof.
  intros x (s & m & e & Hx). apply Prim2SF_inj.
  rewrite div_spec, Hx, Prim2SF_one. apply SFdiv_self.
Qed.

End Binary64Division.

Section Binary64SpecialValues.

Import Binary64.
Local Open Scope float_scope.

Lemma is_finite_spec :
  forall x : float,
    is_finite x = true
    <-> match Prim2SF x with
        | S754_zero _ | S754_finite _ _ _ => True
        | _ => False
        end.
Proof.
  intros x. unfold is_finite, is_nan, is_infinity.
  rewrite !eqb_spec, abs_spec.
  change (Prim2SF infinity) with (S754_infinity false).
  destruct (Prim2SF x) as [s | s | | s m e]; cbn.
  - tauto.
  - destruct s; cbn; (split; [ discriminate | contradiction ]).
  - split; [ discriminate | contradiction ].
  - unfold SFeqb, SFcompare.
    rewrite Z.compare_refl, Pos.compare_cont_refl.
    destruct s; cbn; tauto.
Qed.

Lemma float_cases :
  forall x : float,
    x = PrimFloat.nan
    \/ (exists s : bool, Prim2SF x = S754_infinity s)
    \/ x = 0 \/ x = -0
    \/ (exists (s : bool) (m : positive) (e : Z),
           Prim2SF x = S754_finite s m e).
Proof.
  intros x. destruct (Prim2SF x) as [s | s | | s m e] eqn:Hx.
  - apply Prim2SF_eq in Hx. destruct s; subst x; tauto.
  - right. left. exists s. reflexivity.
  - left. apply Prim2SF_eq in Hx. exact Hx.
  - right. right. right. right. exists s, m, e. reflexivity.
Qed.

Lemma float_add_zero_finite :
  forall x : float,
    (exists (s : bool) (m : positive) (e : Z),
        Prim2SF x = S754_finite s m e) ->
    0 + x = x.
Proof.
  intros x (s & m & e & Hx). apply Prim2SF_inj.
  rewrite add_spec, Hx. reflexivity.
Qed.

Lemma float_sub_self_finite :
  forall x : float,
    (exists (s : bool) (m : positive) (e : Z),
        Prim2SF x = S754_finite s m e) ->
    x - x = 0.
Proof.
  intros x (s & m & e & Hx). apply Prim2SF_inj.
  rewrite sub_spec, Hx. cbn [SFsub SF64sub].
  unfold SF64sub, SFsub. rewrite Z.min_id.
  unfold shl_align. rewrite !Z.sub_diag. reflexivity.
Qed.

(** The deviation of a single observation from the mean computed for it:
    a zero when the observation is finite, NaN otherwise. *)
Lemma single_deviation :
  forall x : float,
    let mean := (0 + x) / 1 in
    (is_finite x = true ->
     (x - mean = 0 \/ x - mean = -0) /\ (x <? mean) = false)
    /\ (is_finite x = false -> x - mean = PrimFloat.nan).
Proof.
  intros x mean. unfold mean. rewrite float_div_one.
  rewrite <- (not_true_iff_false (is_finite x)), is_finite_spec.
  destruct (float_cases x) as [-> | [(s & Hx) | [-> | [-> | Hx]]]].
  - split; [ intros H; contradiction H | reflexivity ].
  - rewrite Hx. split; [ contradiction | intros _ ].
    apply Prim2SF_inj. rewrite sub_spec, add_spec, Hx.
    destruct s; reflexivity.
  - split; [ intros _; split; [ left | ]; reflexivity | ].
    intros H. exfalso. apply H. exact I.
  - split; [ intros _; split; [ right | ]; reflexivity | ].
    intros H. exfalso. apply H. exact I.
  - rewrite (float_add_zero_finite x Hx), (float_sub_self_finite x Hx),
      ltb_irreflexive.
    destruct Hx as (s & m & e & Hx). rewrite Hx.
    split; [ intros _; split; [ left | ]; reflexivity | ].
    intros H. exfalso. apply H. exact I.
Qed.

End Binary64SpecialValues.

(** The operations of the binary64 instance, as the primitive operations. *)
Ltac binary64_ops :=
  cbv [JS.add JS.sub JS.mul JS.div JS.sqrt JS.ltb JS.leb JS.eqb JS.of_Z
       JS.toFixed JS.nan JS.num Binary64.number];
  change (Binary64.Z2F 0) with 0%float; change (Binary64.Z2F 1) with 1%float.

(** ** A single observation, on binary64 *)

Section Binary64SingleObservation.

Import Binary64.
Local Open Scope float_scope.

Ltac single_statistic :=
  cbv [calculateVolatility calculateSharpeRatio calculateSortinoRatio
       calculateBeta calculateCorrelation calculateInformationRatio
       calculateMaxDrawdown beta_step correlation_step
       sum_of length_of pow2 fold_left List.length combine filter map
       fst snd negb orb Nat.eqb Z.of_nat Pos.of_succ_nat];
  binary64_ops.

Lemma calculateVolatility_single_binary64 :
  forall x : float,
    calculateVolatility (N := Binary64.number) [x]
    = if is_finite x then 0 else PrimFloat.nan.
Proof.
  intros x. single_statistic.
  destruct (single_deviation x) as [Hfinite Hother].
  destruct (is_finite x).
  - destruct (Hfinite eq_refl) as [[-> | ->] _]; reflexivity.
  - rewrite (Hother eq_refl). reflexivity.
Qed.

Lemma calculateSharpeRatio_single_binary64 :
  forall x riskFreeRate : float,
    is_finite x = true ->
    calculateSharpeRatio (N := Binary64.number) [x] riskFreeRate = 0.
Proof.
  intros x riskFreeRate Hx. single_statistic.
  destruct (single_deviation x) as [Hfinite _].
  destruct (Hfinite Hx) as [[-> | ->] _]; reflexivity.
Qed.

Lemma calculateSortinoRatio_single_binary64 :
  forall x riskFreeRate : float,
    is_finite x = true ->
    calculateSortinoRatio (N := Binary64.number) [x] riskFreeRate = 0.
Proof.
  intros x riskFreeRate Hx. single_statistic.
  destruct (single_deviation x) as [Hfinite _].
  destruct (Hfinite Hx) as [_ ->]. reflexivity.
Qed.

Lemma calculateBeta_single_binary64 :
  forall x y : float,
    is_finite y = true ->
    calculateBeta (N := Binary64.number) [x] [y] = 1.
Proof.
  intros x y Hy. single_statistic.
  destruct (single_deviation y) as [Hfinite _].
  destruct (Hfinite Hy) as [[-> | ->] _]; reflexivity.
Qed.

Lemma calculateCorrelation_single_binary64 :
  forall x y : float,
    is_finite x = true -> is_finite y = true ->
    calculateCorrelation (N := Binary64.number) [x] [y] = 0.
Proof.
  intros x y Hx Hy. single_statistic.
  destruct (single_deviation x) as [Hfx _].
  destruct (single_deviation y) as [Hfy _].
  destruct (Hfx Hx) as [[-> | ->] _];
    destruct (Hfy Hy) as [[-> | ->] _]; reflexivity.
Qed.

Lemma calculateInformationRatio_single_binary64 :
  forall x y : float,
    is_finite (x - y) = true ->
    calculateInformationRatio (N := Binary64.number) [x] [y] = 0.
Proof.
  intros x y Hxy.
  cbv [calculateInformationRatio List.length combine map fst snd negb orb
       Nat.eqb].
  rewrite calculateVolatility_single_binary64.
  cbv [JS.sub Binary64.number]. rewrite Hxy. reflexivity.
Qed.

Lemma calculateMaxDrawdown_single_binary64 :
  forall x : float, calculateMaxDrawdown (N := Binary64.number) [x] = 0.
Proof. intros x. reflexivity. Qed.

End Binary64SingleObservation.

(** X8.  On binary64, a series of a single finite observation has no
    dispersion, and every statistic returns the value of its zero-deviation
    guard: the volatility and the maximum drawdown are 0, the Sharpe and
    Sortino ratios are 0 whatever the risk-free rate, the beta against a
    single finite benchmark observation is 1 and the correlation 0, and the
    information ratio is 0 when the excess return is finite. *)
Theorem single_observation_statistics :
  forall x y riskFreeRate : float,
    is_finite x = true -> is_finite y = true ->
    calculateVolatility (N := Binary64.number) [x] = 0%float
    /\ calculateMaxDrawdown (N := Binary64.number) [x] = 0%float
    /\ calculateSharpeRatio (N := Binary64.number) [x] riskFreeRate = 0%float
    /\ calculateSortinoRatio (N := Binary64.number) [x] riskFreeRate
       = 0%float
    /\ calculateBeta (N := Binary64.number) [x] [y] = 1%float
    /\ calculateCorrelation (N := Binary64.number) [x] [y] = 0%float
    /\ (is_finite (x - y) = true ->
        calculateInformationRatio (N := Binary64.number) [x] [y] = 0%float).
Proof.
  intros x y riskFreeRate Hx Hy.
  split; [ | split; [ | split; [ | split; [ | split; [ | split ] ] ] ] ].
  - rewrite calculateVolatility_single_binary64, Hx. reflexivity.
  - apply calculateMaxDrawdown_single_binary64.
  - apply calculateSharpeRatio_single_binary64. exact Hx.
  - apply calculateSortinoRatio_single_binary64. exact Hx.
  - apply calculateBeta_single_binary64. exact Hy.
  - apply calculateCorrelation_single_binary64; assumption.
  - apply calculateInformationRatio_single_binary64.
Qed.

(** A return of 7.5 against a benchmark return of 1. *)
Lemma single_observation_statistics_witness :
  calculateVolatility (N := Binary64.number) [dec 75 1] = 0%float
  /\ calculateBeta (N := Binary64.number) [dec 75 1] [of_Z 1] = 1%float.
Proof.
  destruct (single_observation_statistics
              (dec (N := Binary64.number) 75 1)
              (of_Z (Number := Binary64.number) 1)
              (riskFreeRate_default (N := Binary64.number)))
    as (Hvolatility & _ & _ & _ & Hbeta & _).
  - reflexivity.
  - reflexivity.
  - split; [ exact Hvolatility | exact Hbeta ].
Defined.

(** ** A sequence against itself, on binary64 *)

(** Against itself a sequence accumulates the same covariance and variance:
    the two sums are the sum of the squared deviations. *)
Lemma beta_step_self :
  forall (N : Number) (average : num) (returns : list num) (sum : num),
    fold_left (beta_step average average) (combine returns returns) (sum, sum)
    = (fold_left (fun sum ret => add sum (pow2 (sub ret average))) returns sum,
       fold_left (fun sum ret => add sum (pow2 (sub ret average))) returns sum).
Proof.
  intros N average returns.
  induction returns as [ | r returns IH]; intros sum; cbn [combine fold_left].
  - reflexivity.
  - change (beta_step average average (sum, sum) (r, r))
      with (add sum (pow2 (sub r average)), add sum (pow2 (sub r average))).
    apply IH.
Qed.

Lemma calculateBeta_self :
  forall (N : Number) (returns : list num),
    returns <> [] ->
    calculateBeta returns returns
    = if eqb (variance returns) (of_Z 0) then of_Z 1
      else toFixed 3 (div (variance returns) (variance returns)).
Proof.
  intros N returns Hne. unfold calculateBeta.
  rewrite Nat.eqb_refl.
  destruct returns as [ | r0 rest] eqn:Hreturns; [ contradiction | ].
  rewrite <- Hreturns. clear Hne.
  assert (Nat.eqb (List.length returns) 0 = false) as ->
    by (rewrite Hreturns; reflexivity).
  cbn [negb orb].
  rewrite <- (mean_computed returns), beta_step_self. reflexivity.
Qed.

Section Binary64SelfBeta.

Import Binary64.
Local Open Scope float_scope.

Lemma eqb_zero_finite :
  forall x : float,
    (exists (s : bool) (m : positive) (e : Z),
        Prim2SF x = S754_finite s m e) ->
    (x =? 0) = false.
Proof.
  intros x (s & m & e & Hx). rewrite eqb_spec, Hx.
  destruct s; reflexivity.
Qed.

Lemma calculateBeta_self_binary64 :
  forall returns : list float,
    returns <> [] ->
    calculateBeta (N := Binary64.number) returns returns
    = if is_finite (variance (N := Binary64.number) returns)
      then 1 else PrimFloat.nan.
Proof.
  intros returns Hne. rewrite (calculateBeta_self Binary64.number returns Hne).
  generalize (variance (N := Binary64.number) returns). intros V.
  binary64_ops.
  destruct (float_cases V) as [-> | [(s & HV) | [-> | [-> | HV]]]].
  - reflexivity.
  - apply Prim2SF_eq in HV. rewrite HV. destruct s; reflexivity.
  - reflexivity.
  - reflexivity.
  - rewrite (eqb_zero_finite V HV), (float_div_self V HV).
    assert (is_finite V = true) as ->.
    { apply is_finite_spec. destruct HV as (s & m & e & ->). exact I. }
    reflexivity.
Qed.

End Binary64SelfBeta.

(** X9.  On binary64, the beta of a non-empty sequence against itself is 1
    whenever the variance the loop computes is finite, and NaN otherwise
    (a NaN or infinite observation, or an overflow of the squares): no other
    value is ever returned.  The Treynor ratio of a sequence against itself
    is then its mean excess return over the risk-free rate, rounded to 3
    decimals.  Two opposite returns of 1e200 overflow the variance. *)
Theorem calculateBeta_against_itself :
  (forall returns : list float,
      returns <> [] ->
      calculateBeta (N := Binary64.number) returns returns
      = if is_finite (variance (N := Binary64.number) returns)
        then 1%float else PrimFloat.nan)
  /\ (forall returns : list float,
         calculateBeta (N := Binary64.number) returns returns = 1%float
         \/ calculateBeta (N := Binary64.number) returns returns
            = PrimFloat.nan)
  /\ (forall (returns : list float) (riskFreeRate : float),
         returns <> [] ->
         calculateTreynorRatio (N := Binary64.number) returns returns
           riskFreeRate
         = if is_finite (variance (N := Binary64.number) returns)
           then toFixed (Number := Binary64.number) 3
                  (mean (N := Binary64.number) returns - riskFreeRate)%float
           else PrimFloat.nan)
  /\ calculateBeta (N := Binary64.number)
       [of_Z (10 ^ 200); of_Z (- 10 ^ 200)]
       [of_Z (10 ^ 200); of_Z (- 10 ^ 200)]
     = PrimFloat.nan.
Proof.
  split; [ | split; [ | split ] ].
  - exact calculateBeta_self_binary64.
  - intros [ | r returns].
    + left. reflexivity.
    + rewrite calculateBeta_self_binary64 by discriminate.
      destruct (is_finite _); [ left | right ]; reflexivity.
  - intros returns riskFreeRate Hne. unfold calculateTreynorRatio.
    rewrite (calculateBeta_self_binary64 returns Hne).
    rewrite <- (mean_computed (N := Binary64.number) returns).
    destruct (is_finite _).
    + binary64_ops. change (1 =? 0)%float with false.
      rewrite float_div_one. reflexivity.
    + binary64_ops. change (PrimFloat.nan =? 0)%float with false.
      assert (forall z : float, (z / PrimFloat.nan)%float = PrimFloat.nan)
        as ->.
      { intros z. apply Prim2SF_inj. rewrite div_spec.
        change (Prim2SF PrimFloat.nan) with S754_nan.
        destruct (Prim2SF z); reflexivity. }
      reflexivity.
  - vm_compute. reflexivity.
Qed.

(** Three returns whose variance is finite. *)
Lemma calculateBeta_against_itself_witness :
  calculateBeta (N := Binary64.number)
    [dec 1 1; dec 2 1; dec 7 1] [dec 1 1; dec 2 1; dec 7 1]
  = 1%float.
Proof.
  destruct calculateBeta_against_itself as (H & _).
  rewrite H by discriminate. reflexivity.
Defined.

(** ** The diversification ratio *)

(** The ratio is the default 1, or the weighted volatility over the
    volatility of a single observation, the portfolio return. *)
Lemma calculateDiversificationRatio_cases :
  forall (N : Number) (A : MathAbs N) (returns weights : list num),
    calculateDiversificationRatio returns weights = of_Z 1
    \/ exists portfolioReturn weightedVolatility : num,
         eqb weightedVolatility (of_Z 0) = false
         /\ calculateDiversificationRatio returns weights
            = toFixed 3
                (div weightedVolatility
                   (calculateVolatility [portfolioReturn])).
Proof.
  intros N A returns weights. unfold calculateDiversificationRatio.
  destruct (negb (Nat.eqb (List.length returns) (List.length weights))
            || Nat.eqb (List.length returns) 0);
    [ left; reflexivity | ].
  match goal with
  | |- context [if eqb ?w _ then _ else _] => destruct (eqb w (of_Z 0)) eqn:Hw
  end.
  - left. reflexivity.
  - right. eexists. eexists. split; [ exact Hw | reflexivity ].
Qed.

Section Binary64Degenerate.

Import Binary64.
Local Open Scope float_scope.

(** A single allocation: the whole portfolio. *)
Lemma calculateConcentrationRisk_single_binary64 :
  forall x : float,
    calculateConcentrationRisk (N := Binary64.number) [x]
    = if is_finite x then (if is_zero x then 0 else 100) else PrimFloat.nan.
Proof.
  intros x.
  cbv [calculateConcentrationRisk sum_of length_of pow2 fold_left
       List.length Nat.eqb].
  binary64_ops.
  destruct (float_cases x) as [-> | [(s & Hx) | [-> | [-> | Hx]]]].
  - reflexivity.
  - apply Prim2SF_eq in Hx. rewrite Hx. destruct s; reflexivity.
  - reflexivity.
  - reflexivity.
  - rewrite (float_add_zero_finite x Hx), (eqb_zero_finite x Hx),
      (float_div_self x Hx).
    assert (is_finite x = true) as ->.
    { apply is_finite_spec. destruct Hx as (s & m & e & ->). exact I. }
    change (is_zero x) with (x =? 0). rewrite (eqb_zero_finite x Hx).
    reflexivity.
Qed.

Lemma toFixed_infinity :
  forall (k : nat) (x : float), is_infinity x = true -> toFixed k x = x.
Proof.
  intros k x Hx. unfold toFixed.
  unfold is_infinity in Hx. rewrite eqb_spec, abs_spec in Hx.
  destruct (Prim2SF x) as [s | s | | s m e]; try reflexivity.
  - discriminate Hx.
  - discriminate Hx.
Qed.

Lemma div_zero_cases :
  forall w : float,
    (w =? 0) = false -> is_infinity (w / 0) = true \/ w / 0 = PrimFloat.nan.
Proof.
  intros w Hw.
  destruct (float_cases w) as [-> | [(s & Hx) | [-> | [-> | Hx]]]].
  - right. reflexivity.
  - left. apply Prim2SF_eq in Hx. rewrite Hx. destruct s; reflexivity.
  - discriminate Hw.
  - discriminate Hw.
  - left. destruct Hx as (s & m & e & Hx).
    unfold is_infinity. rewrite eqb_spec, abs_spec, div_spec, Hx.
    destruct s; reflexivity.
Qed.

Lemma calculateDiversificationRatio_binary64 :
  forall returns weights : list float,
    let ratio :=
      calculateDiversificationRatio (N := Binary64.number) returns weights in
    ratio = 1 \/ is_infinity ratio = true \/ ratio = PrimFloat.nan.
Proof.
  intros returns weights. cbv zeta.
  destruct (calculateDiversificationRatio_cases Binary64.number _
              returns weights) as [-> | (p & w & Hw & ->)];
    [ left; reflexivity | right ].
  rewrite calculateVolatility_single_binary64.
  revert Hw. binary64_ops. intros Hw.
  destruct (is_finite p).
  - destruct (div_zero_cases w Hw) as [Hinf | ->].
    + left. rewrite (toFixed_infinity 3 _ Hinf). exact Hinf.
    + right. reflexivity.
  - right.
    assert (w / PrimFloat.nan = PrimFloat.nan) as ->.
    { apply Prim2SF_inj. rewrite div_spec.
      change (Prim2SF PrimFloat.nan) with S754_nan.
      destruct (Prim2SF w); reflexivity. }
    reflexivity.
Qed.

(** The denominator of the rate of return when the contributions are 0. *)
Lemma PROR_denominator_without_contributions :
  forall b t : float,
    (b <=? 0) = false ->
    (b + 0 * t <=? 0) = false /\ (b + 0 * t = b \/ b + 0 * t = PrimFloat.nan).
Proof.
  intros b t Hb.
  assert (0 * t = 0 \/ 0 * t = -0 \/ 0 * t = PrimFloat.nan) as Hzero.
  { destruct (float_cases t) as [-> | [(s & Ht) | [-> | [-> | Ht]]]].
    - right. right. reflexivity.
    - right. right. apply Prim2SF_inj. rewrite mul_spec, Ht. reflexivity.
    - left. reflexivity.
    - right. left. reflexivity.
    - destruct Ht as (s & m & e & Ht).
      destruct s; [ right; left | left ]; apply Prim2SF_inj;
        rewrite mul_spec, Ht; reflexivity. }
  assert (forall z : float, z = 0 \/ z = -0 -> b + z = b) as Hsame.
  { intros z Hz.
    destruct (float_cases b) as [-> | [(s & Hx) | [-> | [-> | Hx]]]].
    - destruct Hz as [-> | ->]; reflexivity.
    - apply Prim2SF_inj. rewrite add_spec, Hx.
      destruct Hz as [-> | ->]; destruct s; reflexivity.
    - discriminate Hb.
    - discriminate Hb.
    - destruct Hx as (s & m & e & Hx).
      apply Prim2SF_inj. rewrite add_spec, Hx.
      destruct Hz as [-> | ->]; reflexivity. }
  destruct Hzero as [Hz | [Hz | Hz]].
  - rewrite Hz, (Hsame 0) by (left; reflexivity). tauto.
  - rewrite Hz, (Hsame (-0)) by (right; reflexivity). tauto.
  - rewrite Hz.
    assert (b + PrimFloat.nan = PrimFloat.nan) as ->.
    { apply Prim2SF_inj. rewrite add_spec.
      change (Prim2SF PrimFloat.nan) with S754_nan.
      destruct (Prim2SF b); reflexivity. }
    split; [ reflexivity | right; reflexivity ].
Qed.

End Binary64Degenerate.

(** X10.  On binary64, [calculateDiversificationRatio] never returns a
    ratio: for all returns and weights the result is the default 1, an
    infinity or NaN.  The portfolio volatility it divides by is the
    volatility of a single observation (the portfolio return), which is 0
    when that observation is finite and NaN otherwise. *)
Theorem calculateDiversificationRatio_is_degenerate :
  (forall returns weights : list float,
      let ratio :=
        calculateDiversificationRatio (N := Binary64.number)
          (A := Binary64.math_abs) returns weights in
      ratio = 1%float \/ is_infinity ratio = true \/ ratio = PrimFloat.nan)
  /\ (forall portfolioReturn : float,
         calculateVolatility (N := Binary64.number) [portfolioReturn]
         = if is_finite portfolioReturn then 0%float else PrimFloat.nan)
  /\ calculateDiversificationRatio (N := Binary64.number)
       (A := Binary64.math_abs) [of_Z 5; of_Z (-3)] [dec 6 1; dec 4 1]
     = infinity.
Proof.
  split; [ | split ].
  - exact calculateDiversificationRatio_binary64.
  - exact calculateVolatility_single_binary64.
  - vm_compute. reflexivity.
Qed.

(** ** The rate of return reported by the funds route *)

Section RouteRateOfReturn.

Import FundRoutes.

Context {N : Number}.

Variable host : Host.

Lemma prorCalculation_not_computed :
  forall (calculate_pror : option string) (performance : list PerformanceRow),
    calculate_pror <> Some "true" \/ (List.length performance < 2)%nat ->
    prorCalculation host calculate_pror performance = None.
Proof.
  intros calculate_pror performance Hcase. unfold prorCalculation.
  destruct performance as [ | firstRecord rest]; [ reflexivity | ].
  destruct Hcase as [Hquery | Hshort].
  - destruct calculate_pror as [s | ]; [ | reflexivity ].
    destruct (String.eqb_spec s "true") as [-> | _]; [ | reflexivity ].
    contradiction Hquery. reflexivity.
  - destruct rest; [ | cbn in Hshort; lia ].
    rewrite andb_false_r. reflexivity.
Qed.

Lemma prorCalculation_computed :
  forall (firstRecord secondRecord : PerformanceRow)
         (rest : list PerformanceRow),
    let performance := firstRecord :: secondRecord :: rest in
    let beginningValue := nav firstRecord in
    let endingValue := nav (last (secondRecord :: rest) firstRecord) in
    prorCalculation host (Some "true") performance
    = Some match calculatePROR beginningValue endingValue (of_Z 0) (of_Z 0)
                   (length_of performance) with
           | Return pror =>
               PRORComputed
                 {| beginning_value := beginningValue;
                    ending_value := endingValue;
                    contributions := of_Z 0;
                    withdrawals := of_Z 0;
                    time_period_months := length_of performance;
                    pror_percentage := pror;
                    calculation_date := now_toISOString host |}
           | Throw error => PRORFailed error
           end.
Proof.
  intros firstRecord secondRecord rest. cbv zeta. unfold prorCalculation.
  cbn [String.eqb Ascii.eqb Bool.eqb andb List.length Nat.leb].
  destruct (calculatePROR _ _ _ _ _); reflexivity.
Qed.

End RouteRateOfReturn.

Section Binary64RateOfReturn.

Import Binary64.
Local Open Scope float_scope.

Lemma float_sub_zero : forall x : float, x - 0 = x.
Proof.
  intros x. apply Prim2SF_inj. rewrite sub_spec.
  change (Prim2SF 0) with (S754_zero false).
  destruct (Prim2SF x) as [s | s | | s m e]; try reflexivity.
  destruct s; reflexivity.
Qed.

Lemma calculatePROR_without_cash_flows_binary64 :
  forall b e t : float,
    let denominator := b + 0 * (t / Z2F 12) in
    calculatePROR (N := Binary64.number) b e 0 0 t
    = (if b <=? 0
       then Throw (Error "Beginning value must be greater than zero")
       else Return (toFixed 2 ((e - b) / denominator * Z2F 100)))
    /\ ((b <=? 0) = false ->
        denominator = b \/ denominator = PrimFloat.nan).
Proof.
  intros b e t. cbv zeta. unfold calculatePROR. binary64_ops.
  destruct (b <=? 0) eqn:Hb.
  - split; [ reflexivity | discriminate ].
  - destruct (PROR_denominator_without_contributions b (t / Z2F 12) Hb)
      as [-> Hd].
    change (0 - 0) with 0. rewrite float_sub_zero.
    split; [ reflexivity | intros _; exact Hd ].
Qed.

End Binary64RateOfReturn.

Section ExactRateOfReturn.

Import Exact.
Local Open Scope R_scope.

Lemma calculatePROR_without_cash_flows_exact :
  forall b e t : R,
    calculatePROR (N := Exact.number) (Fin b) (Fin e) (Fin 0) (Fin 0) (Fin t)
    = if Rle_dec b 0
      then Throw (Error "Beginning value must be greater than zero")
      else Return (JS.toFixed (Number := Exact.number) 2
                     (Fin ((e - b) / b * 100))).
Proof.
  intros b e t. unfold calculatePROR.
  cbn [JS.leb JS.add JS.sub JS.mul JS.of_Z Exact.number].
  rewrite (div_Fin t 12) by lra.
  cbn [leb add sub mul neg]. unfold Rleb.
  destruct (Rle_dec b 0) as [Hb | Hb]; [ reflexivity | ].
  destruct (Rle_dec (b + 0 * (t / 12)) 0) as [Hd | _]; [ lra | ].
  rewrite div_Fin by lra.
  cbn [JS.mul Exact.number mul].
  do 3 f_equal. field. lra.
Qed.

End ExactRateOfReturn.

(** X11.  The funds route computes the rate of return of a series with no
    cash flows: contributions and withdrawals are the constant 0.  Nothing
    is computed unless the query asks for it with [calculate_pror=true] and
    the series has two rows; then a report is always produced, and it never
    carries a TypeError.  On binary64 and in exact arithmetic the only error
    the route can report is the one on the beginning value, raised exactly
    when the first NAV is at most 0: the denominator is the first NAV (or, on
    binary64, NaN when [0 * (n / 12)] is), so the second error of
    [calculatePROR] is unreachable, and the percentage reported is the simple
    return [(last - first) / first * 100] rounded to 2 decimals. *)
Theorem route_rate_of_return_without_cash_flows :
  (forall (N : Number) (host : Host) (calculate_pror : option string)
          (performance : list PerformanceRow),
      (calculate_pror <> Some "true" \/ (List.length performance < 2)%nat ->
       FundRoutes.prorCalculation host calculate_pror performance = None)
      /\ (calculate_pror = Some "true" ->
          (2 <= List.length performance)%nat ->
          exists report : FundRoutes.PRORReport,
            FundRoutes.prorCalculation host calculate_pror performance
            = Some report
            /\ report <> FundRoutes.PRORFailed TypeError))
  /\ (forall (host : Host)
             (firstRecord secondRecord : @PerformanceRow Binary64.number)
             (rest : list PerformanceRow),
         let performance := firstRecord :: secondRecord :: rest in
         let firstNav := nav firstRecord in
         let lastNav := nav (last (secondRecord :: rest) firstRecord) in
         let report :=
           FundRoutes.prorCalculation host (Some "true") performance in
         report
         <> Some (FundRoutes.PRORFailed
                    (Error "Invalid calculation parameters"))
         /\ ((firstNav <=? 0)%float = true ->
             report
             = Some (FundRoutes.PRORFailed
                       (Error "Beginning value must be greater than zero")))
         /\ ((firstNav <=? 0)%float = false ->
             exists denominator : float,
               (denominator = firstNav \/ denominator = PrimFloat.nan)
               /\ report
                  = Some (FundRoutes.PRORComputed
                            {| FundRoutes.beginning_value := firstNav;
                               FundRoutes.ending_value := lastNav;
                               FundRoutes.contributions := 0%float;
                               FundRoutes.withdrawals := 0%float;
                               FundRoutes.time_period_months :=
                                 length_of (N := Binary64.number) performance;
                               FundRoutes.pror_percentage :=
                                 toFixed (Number := Binary64.number) 2
                                   ((lastNav - firstNav) / denominator
                                    * Binary64.Z2F 100)%float;
                               FundRoutes.calculation_date :=
                                 now_toISOString host |})))
  /\ (forall (host : Host)
             (firstRecord secondRecord : @PerformanceRow Exact.number)
             (rest : list PerformanceRow) (firstNav lastNav : R),
         let performance := firstRecord :: secondRecord :: rest in
         nav firstRecord = Exact.Fin firstNav ->
         nav (last (secondRecord :: rest) firstRecord)
         = Exact.Fin lastNav ->
         FundRoutes.prorCalculation host (Some "true") performance
         = Some (if Rle_dec firstNav 0
                 then FundRoutes.PRORFailed
                        (Error "Beginning value must be greater than zero")
                 else FundRoutes.PRORComputed
                        {| FundRoutes.beginning_value :=
                             (Exact.Fin firstNav : @num Exact.number);
                           FundRoutes.ending_value := Exact.Fin lastNav;
                           FundRoutes.contributions := Exact.Fin 0;
                           FundRoutes.withdrawals := Exact.Fin 0;
                           FundRoutes.time_period_months :=
                             length_of (N := Exact.number) performance;
                           FundRoutes.pror_percentage :=
                             toFixed (Number := Exact.number) 2
                               (Exact.Fin
                                  ((lastNav - firstNav) / firstNav * 100));
                           FundRoutes.calculation_date :=
                             now_toISOString host |})).
Proof.
  split; [ | split ].
  - intros N host calculate_pror performance. split.
    + apply prorCalculation_not_computed.
    + intros -> Hlength.
      destruct performance as [ | firstRecord [ | secondRecord rest]];
        try (cbn in Hlength; lia).
      rewrite prorCalculation_computed. eexists. split; [ reflexivity | ].
      unfold calculatePROR.
      repeat match goal with
             | |- context [if ?b then _ else _] => destruct b
             end; discriminate.
  - intros host firstRecord secondRecord rest. cbv zeta.
    rewrite prorCalculation_computed.
    change (@of_Z Binary64.number 0) with 0%float.
    destruct (calculatePROR_without_cash_flows_binary64
                (nav firstRecord)
                (nav (last (secondRecord :: rest) firstRecord))
                (length_of (N := Binary64.number)
                   (firstRecord :: secondRecord :: rest)))
      as [-> Hdenominator].
    destruct (nav firstRecord <=? 0)%float.
    + split; [ discriminate | split; [ reflexivity | discriminate ] ].
    + split; [ discriminate | split; [ discriminate | ] ].
      intros _. eexists. split; [ apply Hdenominator; reflexivity | ].
      reflexivity.
  - intros host firstRecord secondRecord rest firstNav lastNav. cbv zeta.
    intros Hfirst Hlast.
    rewrite prorCalculation_computed, Hfirst, Hlast.
    change (@of_Z Exact.number 0) with (Exact.Fin 0).
    change (length_of (N := Exact.number)
              (firstRecord :: secondRecord :: rest))
      with (Exact.Fin
              (IZR (Z.of_nat
                      (List.length (firstRecord :: secondRecord :: rest))))).
    rewrite calculatePROR_without_cash_flows_exact.
    destruct (Rle_dec firstNav 0); reflexivity.
Qed.

(** Three monthly rows on binary64, the NAV going from 10 to 12: the route
    reports a return of 20%. *)
Lemma route_rate_of_return_without_cash_flows_witness :
  let row (value : @num Binary64.number) : PerformanceRow :=
    {| nav := value; total_return := of_Z 1; benchmark_return := of_Z 1;
       assets_under_management := of_Z 20000000 |} in
  exists report : FundRoutes.PRORReport,
    FundRoutes.prorCalculation (host_at 2020 "2020-11-01T00:00:00.000Z")
      (Some "true") [row (of_Z 10); row (of_Z 11); row (of_Z 12)]
    = Some report
    /\ report <> FundRoutes.PRORFailed TypeError.
Proof.
  cbv zeta.
  destruct route_rate_of_return_without_cash_flows as (Hany & _).
  apply Hany.
  - reflexivity.
  - cbn. lia.
Defined.

(** ** Sums of reals *)

Section RealSums.

Local Open Scope R_scope.

Variable g : R -> R.

Lemma sum_shift :
  forall (rs : list R) (x : R),
    fold_left (fun s a => s + g a) rs x
    = x + fold_left (fun s a => s + g a) rs 0.
Proof.
  intros rs. induction rs as [ | a rs IH]; intros x; cbn [fold_left].
  - ring.
  - rewrite (IH (x + g a)), (IH (0 + g a)). ring.
Qed.

Lemma sum_cons :
  forall (a : R) (rs : list R),
    fold_left (fun s a => s + g a) (a :: rs) 0
    = g a + fold_left (fun s a => s + g a) rs 0.
Proof.
  intros a rs. cbn [fold_left]. rewrite sum_shift. ring.
Qed.

Lemma sum_nonnegative :
  forall rs : list R,
    Forall (fun a => 0 <= g a) rs ->
    0 <= fold_left (fun s a => s + g a) rs 0.
Proof.
  intros rs Hrs. induction Hrs as [ | a rs Ha Hrs IH].
  - cbn. lra.
  - rewrite sum_cons. lra.
Qed.

End RealSums.

Section RealSumsOfValues.

Local Open Scope R_scope.

Lemma plus_as_sum :
  forall (rs : list R) (x : R),
    fold_left Rplus rs x = fold_left (fun s a => s + a) rs x.
Proof. reflexivity. Qed.

Lemma sum_scaled :
  forall (g : R -> R) (c : R) (rs : list R),
    fold_left (fun s a => s + c * g a) rs 0
    = c * fold_left (fun s a => s + g a) rs 0.
Proof.
  intros g c rs. induction rs as [ | a rs IH].
  - cbn. ring.
  - rewrite (sum_cons (fun a => c * g a)), (sum_cons g), IH. ring.
Qed.

Lemma sum_pointwise :
  forall (g h : R -> R) (rs : list R) (x : R),
    (forall a : R, In a rs -> g a = h a) ->
    fold_left (fun s a => s + g a) rs x = fold_left (fun s a => s + h a) rs x.
Proof.
  intros g h rs. induction rs as [ | a rs IH]; intros x Hgh; cbn [fold_left].
  - reflexivity.
  - rewrite (Hgh a) by (left; reflexivity).
    apply IH. intros b Hb. apply Hgh. right. exact Hb.
Qed.

(** Squares of non-negative numbers add up to at most the square of their
    sum. *)
Lemma sum_of_squares_upper :
  forall rs : list R,
    Forall (fun a => 0 <= a) rs ->
    0 <= fold_left Rplus rs 0
    /\ fold_left (fun s a => s + a * a) rs 0
       <= fold_left Rplus rs 0 * fold_left Rplus rs 0.
Proof.
  intros rs Hrs. induction Hrs as [ | a rs Ha Hrs [IHsum IHsquares]].
  - cbn. lra.
  - rewrite (sum_cons (fun a => a * a)), plus_as_sum,
      (sum_cons (fun a => a)).
    rewrite plus_as_sum in *. split; [ lra | nra ].
Qed.

(** The squared deviations from any [c], expanded. *)
Lemma sum_of_squared_deviations :
  forall (c : R) (rs : list R),
    fold_left (fun s a => s + (a - c) * (a - c)) rs 0
    = fold_left (fun s a => s + a * a) rs 0
      - 2 * c * fold_left Rplus rs 0
      + IZR (Z.of_nat (List.length rs)) * c * c.
Proof.
  intros c rs. induction rs as [ | a rs IH].
  - cbn. ring.
  - rewrite (sum_cons (fun a => (a - c) * (a - c))),
      (sum_cons (fun a => a * a)), plus_as_sum, (sum_cons (fun a => a)),
      IH, plus_as_sum.
    cbn [List.length]. rewrite Nat2Z.inj_succ, succ_IZR. ring.
Qed.

(** Squares add up to at least the square of the sum over the count. *)
Lemma sum_of_squares_lower :
  forall rs : list R,
    rs <> [] ->
    fold_left Rplus rs 0 * fold_left Rplus rs 0
    / IZR (Z.of_nat (List.length rs))
    <= fold_left (fun s a => s + a * a) rs 0.
Proof.
  intros rs Hne.
  assert (1 <= IZR (Z.of_nat (List.length rs))) as Hn.
  { apply IZR_le. destruct rs; [ contradiction | cbn [List.length]; lia ]. }
  set (n := IZR (Z.of_nat (List.length rs))) in *.
  set (S := fold_left Rplus rs 0).
  pose proof (sum_of_squared_deviations (S / n) rs) as Hexpand.
  fold S n in Hexpand.
  assert (0 <= fold_left (fun s a => s + (a - S / n) * (a - S / n)) rs 0)
    as Hpositive.
  { apply (sum_nonnegative (fun a => (a - S / n) * (a - S / n))).
    apply Forall_forall. intros a _.
    pose proof (Rle_0_sqr (a - S / n)) as H. unfold Rsqr in H. exact H. }
  rewrite Hexpand in Hpositive.
  replace (S * S / n) with (2 * (S / n) * S - n * (S / n) * (S / n))
    by (field; lra).
  lra.
Qed.

End RealSumsOfValues.

(** ** The maximum drawdown, in exact arithmetic *)

Section ExactMaxDrawdown.

Import Exact.
Local Open Scope R_scope.

(** What the loop of [calculateMaxDrawdown] has established after the
    positive values [seen]: [peak] is their maximum, and [drawdown] the
    largest relative decline from a value to a later one (0 when no value
    declines). *)
Let established (seen : list R) (drawdown peak : R) : Prop :=
  In peak seen
  /\ (forall x : R, In x seen -> 0 < x <= peak)
  /\ 0 <= drawdown < 1
  /\ (forall (l1 : list R) (a : R) (l2 : list R) (b : R) (l3 : list R),
         seen = l1 ++ a :: l2 ++ b :: l3 -> (a - b) / a <= drawdown)
  /\ (drawdown = 0
      \/ exists (l1 : list R) (a : R) (l2 : list R) (b : R) (l3 : list R),
           seen = l1 ++ a :: l2 ++ b :: l3 /\ drawdown = (a - b) / a).

Lemma split_last_pair :
  forall (seen : list R) (v : R) (l1 : list R) (a : R) (l2 : list R) (b : R)
         (l3 : list R),
    seen ++ [v] = l1 ++ a :: l2 ++ b :: l3 ->
    (l3 = [] /\ b = v /\ seen = l1 ++ a :: l2)
    \/ (exists l3' : list R, l3 = l3' ++ [v]
                             /\ seen = l1 ++ a :: l2 ++ b :: l3').
Proof.
  intros seen v l1 a l2 b l3 Heq.
  destruct l3 as [ | x l3] using rev_ind.
  - left.
    replace (l1 ++ a :: l2 ++ [b]) with ((l1 ++ a :: l2) ++ [b]) in Heq
      by (rewrite <- app_assoc; reflexivity).
    apply app_inj_tail in Heq. destruct Heq as [-> ->]. tauto.
  - right. exists l3.
    replace (l1 ++ a :: l2 ++ b :: l3 ++ [x])
      with ((l1 ++ a :: l2 ++ b :: l3) ++ [x]) in Heq
      by (rewrite <- app_assoc; cbn; rewrite <- app_assoc; reflexivity).
    apply app_inj_tail in Heq. destruct Heq as [-> ->]. tauto.
Qed.

Lemma relative_decline_monotone :
  forall a p v : R, 0 < a -> a <= p -> 0 < v -> (a - v) / a <= (p - v) / p.
Proof.
  intros a p v Ha Hap Hv.
  replace ((a - v) / a) with (1 - v / a) by (field; lra).
  replace ((p - v) / p) with (1 - v / p) by (field; lra).
  assert (v / p <= v / a); [ | lra ].
  unfold Rdiv. apply Rmult_le_compat_l; [ lra | ].
  apply Rinv_le_contravar; assumption.
Qed.

Lemma relative_decline_range :
  forall p v : R, 0 < v -> v <= p -> 0 <= (p - v) / p < 1.
Proof.
  intros p v Hv Hvp.
  replace ((p - v) / p) with (1 - v / p) by (field; lra).
  assert (0 < v / p <= 1); [ | lra ].
  split.
  - apply Rdiv_lt_0_compat; lra.
  - apply Rmult_le_reg_r with p; [ lra | ].
    replace (v / p * p) with v by (field; lra). lra.
Qed.

Lemma drawdown_step_established :
  forall (seen : list R) (drawdown peak v : R),
    established seen drawdown peak -> 0 < v ->
    exists drawdown' peak' : R,
      drawdown_step (N := Exact.number) (Fin drawdown, Fin peak) (Fin v)
      = (Fin drawdown', Fin peak')
      /\ established (seen ++ [v]) drawdown' peak'.
Proof.
  intros seen drawdown peak v (Hin & Hmax & Hrange & Hbound & Hattained) Hv.
  assert (0 < peak) as Hpeak by (apply (Hmax peak Hin)).
  assert (drawdown = 0
          \/ exists (l1 : list R) (a : R) (l2 : list R) (b : R)
                    (l3 : list R),
               seen ++ [v] = l1 ++ a :: l2 ++ b :: l3
               /\ drawdown = (a - b) / a) as Hattained'.
  { destruct Hattained as [Hzero | (l1 & a & l2 & b & l3 & -> & Hd)];
      [ left; exact Hzero | right ].
    exists l1, a, l2, b, (l3 ++ [v]). split; [ | exact Hd ].
    rewrite <- app_assoc. cbn. rewrite <- app_assoc. reflexivity. }
  assert (forall (bound : R),
             drawdown <= bound ->
             (forall a : R, In a seen -> (a - v) / a <= bound) ->
             forall (l1 : list R) (a : R) (l2 : list R) (b : R)
                    (l3 : list R),
               seen ++ [v] = l1 ++ a :: l2 ++ b :: l3 ->
               (a - b) / a <= bound) as Hbound'.
  { intros bound Hold Hnew l1 a l2 b l3 Heq.
    destruct (split_last_pair seen v l1 a l2 b l3 Heq)
      as [(-> & -> & Hseen) | (l3' & -> & Hseen)].
    - apply Hnew. rewrite Hseen. apply in_elt.
    - pose proof (Hbound l1 a l2 b l3' Hseen). lra. }
  unfold drawdown_step.
  cbn [JS.ltb JS.sub JS.div Exact.number]. cbn [ltb sub add neg].
  unfold Rltb.
  destruct (Rlt_dec peak v) as [Hhigher | Hlower].
  - exists drawdown, v. split; [ reflexivity | ].
    split; [ | split; [ | split; [ | split ] ] ].
    + apply in_or_app. right. left. reflexivity.
    + intros x Hx. apply in_app_or in Hx. destruct Hx as [Hx | [<- | []]].
      * specialize (Hmax x Hx). lra.
      * lra.
    + exact Hrange.
    + apply Hbound'; [ lra | ].
      intros a Ha. specialize (Hmax a Ha).
      assert ((a - v) / a <= 0); [ | lra ].
      apply Rmult_le_reg_r with a; [ lra | ].
      replace ((a - v) / a * a) with (a - v) by (field; lra). lra.
    + exact Hattained'.
  - apply Rnot_lt_le in Hlower.
    pose proof (relative_decline_range peak v Hv Hlower) as Hdecline.
    rewrite div_Fin by lra.
    change (peak + - v) with (peak - v).
    cbn [ltb]. unfold Rltb.
    destruct (Rlt_dec drawdown ((peak - v) / peak)) as [Hdeeper | Hshallow].
    + exists ((peak - v) / peak), peak. split; [ reflexivity | ].
      split; [ | split; [ | split; [ | split ] ] ].
      * apply in_or_app. left. exact Hin.
      * intros x Hx. apply in_app_or in Hx.
        destruct Hx as [Hx | [<- | []]]; [ apply Hmax; exact Hx | lra ].
      * exact Hdecline.
      * apply Hbound'; [ lra | ].
        intros a Ha. specialize (Hmax a Ha).
        apply relative_decline_monotone; lra.
      * right. destruct (in_split peak seen Hin) as (l1 & l2 & Hseen).
        exists l1, peak, l2, v, []. split; [ | reflexivity ].
        rewrite Hseen, <- app_assoc. reflexivity.
    + apply Rnot_lt_le in Hshallow.
      exists drawdown, peak. split; [ reflexivity | ].
      split; [ | split; [ | split; [ | split ] ] ].
      * apply in_or_app. left. exact Hin.
      * intros x Hx. apply in_app_or in Hx.
        destruct Hx as [Hx | [<- | []]]; [ apply Hmax; exact Hx | lra ].
      * exact Hrange.
      * apply Hbound'; [ lra | ].
        intros a Ha. specialize (Hmax a Ha).
        pose proof (relative_decline_monotone a peak v) as H. lra.
      * exact Hattained'.
Qed.

Lemma drawdown_loop_established :
  forall (rest seen : list R) (drawdown peak : R),
    established seen drawdown peak ->
    Forall (fun v : R => 0 < v) rest ->
    exists drawdown' peak' : R,
      fold_left (drawdown_step (N := Exact.number)) (map Fin rest)
        (Fin drawdown, Fin peak)
      = (Fin drawdown', Fin peak')
      /\ established (seen ++ rest) drawdown' peak'.
Proof.
  intros rest. induction rest as [ | v rest IH];
    intros seen drawdown peak Hseen Hpositive.
  - exists drawdown, peak. rewrite app_nil_r. split; [ reflexivity | ].
    exact Hseen.
  - inversion Hpositive as [ | ? ? Hv Hrest]; subst.
    destruct (drawdown_step_established seen drawdown peak v Hseen Hv)
      as (d1 & p1 & Hstep & Hseen1).
    destruct (IH (seen ++ [v]) d1 p1 Hseen1 Hrest)
      as (d2 & p2 & Hloop & Hseen2).
    exists d2, p2. split.
    + cbn [map fold_left]. rewrite Hstep. exact Hloop.
    + rewrite <- app_assoc in Hseen2. exact Hseen2.
Qed.

Lemma calculateMaxDrawdown_exact :
  forall navValues : list R,
    navValues <> [] ->
    Forall (fun v : R => 0 < v) navValues ->
    exists drawdown : R,
      calculateMaxDrawdown (N := Exact.number) (map Fin navValues)
      = Fin (round_dec 2 (drawdown * 100))
      /\ 0 <= drawdown < 1
      /\ (forall (l1 : list R) (a : R) (l2 : list R) (b : R) (l3 : list R),
             navValues = l1 ++ a :: l2 ++ b :: l3 -> (a - b) / a <= drawdown)
      /\ (drawdown = 0
          \/ exists (l1 : list R) (a : R) (l2 : list R) (b : R)
                    (l3 : list R),
               navValues = l1 ++ a :: l2 ++ b :: l3
               /\ drawdown = (a - b) / a).
Proof.
  intros [ | first rest] Hne Hpositive; [ contradiction | ].
  inversion Hpositive as [ | ? ? Hfirst Hrest]; subst.
  assert (established [first] 0 first) as Hstart.
  { split; [ left; reflexivity | ].
    split; [ intros x [<- | []]; lra | ].
    split; [ lra | ].
    split; [ | left; reflexivity ].
    intros l1 a l2 b l3 Heq. exfalso.
    apply (f_equal (@List.length R)) in Heq.
    rewrite length_app in Heq. cbn [List.length] in Heq.
    rewrite length_app in Heq. cbn [List.length] in Heq. lia. }
  destruct (drawdown_loop_established rest [first] 0 first Hstart Hrest)
    as (drawdown & peak & Hloop & _ & _ & Hrange & Hbound & Hattained).
  exists drawdown. split; [ | split; [ exact Hrange | split ] ].
  - change (calculateMaxDrawdown (N := Exact.number)
              (map Fin (first :: rest)))
      with (let '(maxDrawdown, _) :=
              fold_left (drawdown_step (N := Exact.number)) (map Fin rest)
                (Fin 0, Fin first) in
            JS.toFixed (Number := Exact.number) 2
              (JS.mul (Number := Exact.number) maxDrawdown (Fin 100))).
    rewrite Hloop.
    cbn [JS.mul Exact.number mul].
    apply toFixed_Fin.
    assert (IZR (10 ^ 21) = 1000000000000000000000) as -> by reflexivity.
    rewrite Rabs_right by nra. nra.
  - exact Hbound.
  - exact Hattained.
Qed.

End ExactMaxDrawdown.

(** ** Concentration risk, in exact arithmetic *)

Section ExactConcentration.

Import Exact.
Local Open Scope R_scope.

Lemma weights_squared_reals :
  forall (T : R) (rs : list R) (x : R),
    T <> 0 ->
    fold_left
      (fun (sum alloc : @num Exact.number) =>
         JS.add sum (pow2 (JS.div alloc (Fin T))))
      (map Fin rs) (Fin x)
    = Fin (fold_left (fun s a => s + a / T * (a / T)) rs x).
Proof.
  intros T rs x HT. revert x.
  induction rs as [ | a rs IH]; intros x; cbn [map fold_left].
  - reflexivity.
  - rewrite (div_Fin a T HT). unfold pow2 at 2.
    cbn [JS.add JS.mul Exact.number add mul]. apply IH.
Qed.

Lemma calculateConcentrationRisk_exact :
  forall allocations : list R,
    allocations <> [] ->
    Forall (fun a => 0 <= a) allocations ->
    0 < fold_left Rplus allocations 0 ->
    exists risk : R,
      calculateConcentrationRisk (N := Exact.number) (map Fin allocations)
      = Fin risk
      /\ round_dec 2 (100 / IZR (Z.of_nat (List.length allocations)))
         <= risk <= 100.
Proof.
  intros rs Hne Hpositive Htotal.
  set (T := fold_left Rplus rs 0) in *.
  set (H := fold_left (fun s a => s + a / T * (a / T)) rs 0).
  assert (1 <= IZR (Z.of_nat (List.length rs))) as Hn.
  { apply IZR_le. destruct rs; [ contradiction | cbn [List.length]; lia ]. }
  assert (H = / (T * T) * fold_left (fun s a => s + a * a) rs 0) as HH.
  { unfold H. rewrite <- (sum_scaled (fun a => a * a)).
    apply sum_pointwise. intros a _. field. lra. }
  destruct (sum_of_squares_upper rs Hpositive) as [_ Hupper].
  pose proof (sum_of_squares_lower rs Hne) as Hlower.
  fold T in Hupper, Hlower.
  set (Q := fold_left (fun s a => s + a * a) rs 0) in *.
  set (n := IZR (Z.of_nat (List.length rs))) in *.
  assert (0 < T * T) as HTT by nra.
  assert (/ n <= H <= 1) as Hrange.
  { rewrite HH. split.
    - apply Rmult_le_reg_l with (T * T); [ exact HTT | ].
      replace (T * T * (/ (T * T) * Q)) with Q by (field; lra).
      replace (T * T * / n) with (T * T / n) by (field; lra). exact Hlower.
    - apply Rmult_le_reg_l with (T * T); [ exact HTT | ].
      replace (T * T * (/ (T * T) * Q)) with Q by (field; lra). lra. }
  assert (0 < / n) as Hinv by (apply Rinv_0_lt_compat; lra).
  exists (round_dec 2 (H * 100)). split.
  - unfold calculateConcentrationRisk.
    assert (Nat.eqb (@List.length (@num Exact.number) (map Fin rs)) 0 = false)
      as ->.
    { rewrite length_map. destruct rs; [ contradiction | reflexivity ]. }
    unfold sum_of. change (@of_Z Exact.number 0) with (Fin 0).
    rewrite sum_of_reals. fold T.
    rewrite (eqb_Fin_false T 0) by lra.
    rewrite (weights_squared_reals T rs 0) by lra. fold H.
    change (@of_Z Exact.number 100) with (Fin 100).
    cbn [JS.mul Exact.number mul].
    apply toFixed_Fin.
    assert (IZR (10 ^ 21) = 1000000000000000000000) as -> by reflexivity.
    rewrite Rabs_right by nra. nra.
  - split.
    + apply round_dec_monotone. unfold Rdiv. nra.
    + apply (round_dec_upper_bound 2 (H * 100) 100). nra.
Qed.

End ExactConcentration.

(** ** The conditional value at risk is at most the value at risk *)

Section ExactConditionalValueAtRisk.

Import Exact.
Local Open Scope R_scope.

Context {S : ArraySort Exact.number} {C : SortConforms S}.

Lemma sum_at_most :
  forall (v : R) (rs : list R),
    Forall (fun r => r <= v) rs ->
    fold_left Rplus rs 0 <= IZR (Z.of_nat (List.length rs)) * v.
Proof.
  intros v rs Hrs. induction Hrs as [ | r rs Hr Hrs IH].
  - cbn. lra.
  - rewrite plus_as_sum, (sum_cons (fun a => a)), <- plus_as_sum.
    cbn [List.length]. rewrite Nat2Z.inj_succ, succ_IZR. lra.
Qed.

Lemma rounded_mean_at_most :
  forall v m v' m' : R,
    JS.toFixed (Number := Exact.number) 2 (Fin v) = Fin v' ->
    m <= v' ->
    JS.toFixed (Number := Exact.number) 2 (Fin m) = Fin m' ->
    m' <= v'.
Proof.
  intros v m v' m' Hv Hmv Hm.
  cbn [JS.toFixed Exact.number toFixed] in Hv, Hm. unfold Rleb in Hv, Hm.
  assert (IZR (10 ^ 21) = 1000000000000000000000) as E by reflexivity.
  destruct (Rle_dec (IZR (10 ^ 21)) (Rabs m)) as [Hbig | Hsmall].
  - injection Hm as <-. exact Hmv.
  - injection Hm as <-. apply Rnot_le_lt in Hsmall.
    destruct (Rle_dec (IZR (10 ^ 21)) (Rabs v)) as [Hvbig | Hvsmall].
    + injection Hv as <-.
      apply Rabs_def2 in Hsmall.
      unfold Rabs in Hvbig. destruct (Rcase_abs v) as [Hneg | Hpos].
      * lra.
      * apply Rle_trans with (IZR (10 ^ 21)); [ | exact Hvbig ].
        apply round_dec_upper_bound. lra.
    + injection Hv as <-.
      rewrite <- (round_dec_idempotent 2 v).
      apply round_dec_monotone. exact Hmv.
Qed.

Lemma calculateCVaR_at_most_VaR_exact :
  forall (rs : list R) (c : R),
    rs <> [] -> 0 < c <= 1 ->
    exists v w : R,
      calculateVaR (N := Exact.number) (map Fin rs) (Fin c) = Return (Fin v)
      /\ calculateCVaR (N := Exact.number) (map Fin rs) (Fin c)
         = Return (Fin w)
      /\ w <= v.
Proof.
  intros rs c Hne Hc.
  destruct (calculateVaR_exact rs c Hne Hc)
    as (sorted & x & _ & _ & _ & HVaR).
  destruct (toFixed_finite 2 x) as (v & Hv & _).
  change (toFixed 2 (Fin x))
    with (JS.toFixed (Number := Exact.number) 2 (Fin x)) in HVaR.
  rewrite Hv in HVaR.
  assert (map Fin rs <> []) as Hne'
    by (destruct rs; [ contradiction | discriminate ]).
  pose proof (calculateCVaR_from_VaR (map Fin rs) (Fin c) (Fin v) Hne' HVaR)
    as HCVaR.
  rewrite filter_reals in HCVaR.
  exists v.
  destruct (filter (fun r => Rleb r v) rs) as [ | t tail] eqn:Htail.
  - exists v. cbn [map] in HCVaR. repeat split; try assumption. lra.
  - assert (Forall (fun r => r <= v) (t :: tail)) as Hbelow.
    { rewrite <- Htail. apply Forall_forall. intros r Hr.
      apply filter_In in Hr. destruct Hr as [_ Hr]. unfold Rleb in Hr.
      destruct (Rle_dec r v); [ assumption | discriminate ]. }
    assert (t :: tail <> []) as Hne'' by discriminate.
    set (m := fold_left Rplus (t :: tail) 0
              / IZR (Z.of_nat (List.length (t :: tail)))).
    assert (m <= v) as Hm.
    { pose proof (sum_at_most v (t :: tail) Hbelow) as Hsum.
      assert (1 <= IZR (Z.of_nat (List.length (t :: tail)))) as Hn.
      { apply IZR_le. cbn [List.length]. lia. }
      unfold m. apply Rmult_le_reg_r
                  with (IZR (Z.of_nat (List.length (t :: tail))));
        [ lra | ].
      replace (fold_left Rplus (t :: tail) 0
               / IZR (Z.of_nat (List.length (t :: tail)))
               * IZR (Z.of_nat (List.length (t :: tail))))
        with (fold_left Rplus (t :: tail) 0) by (field; lra).
      lra. }
    destruct (toFixed_finite 2 m) as (w & Hw & _).
    exists w. split; [ exact HVaR | split ].
    + rewrite HCVaR. cbn [map]. f_equal.
      change (Fin t :: map Fin tail) with (map Fin (t :: tail)).
      rewrite mean_computed, (mean_reals (t :: tail) Hne'').
      fold m. exact Hw.
    + apply (rounded_mean_at_most x m v w Hv Hm Hw).
Qed.

End ExactConditionalValueAtRisk.

(** ** Liquidity requirements, in exact arithmetic *)

Section ExactLiquidity.

Import Exact.
Local Open Scope R_scope.

Lemma total_AUM_reals :
  forall (performanceData : list (@PerformanceRow Exact.number))
         (aums : list R) (x : R),
    map assets_under_management performanceData = map Fin aums ->
    fold_left
      (fun (sum : @num Exact.number) p =>
         JS.add sum (assets_under_management p))
      performanceData (Fin x)
    = Fin (fold_left Rplus aums x).
Proof.
  intros performanceData.
  induction performanceData as [ | p rest IH]; intros aums x Haums;
    destruct aums as [ | a aums]; try discriminate Haums;
    cbn [fold_left].
  - reflexivity.
  - cbn [map] in Haums. injection Haums as Ha Hrest.
    rewrite Ha. cbn [JS.add Exact.number add]. apply IH. exact Hrest.
Qed.

Lemma last_AUM_reals :
  forall (rest : list (@PerformanceRow Exact.number)) (first : PerformanceRow)
         (aums : list R) (a : R),
    map assets_under_management rest = map Fin aums ->
    assets_under_management first = Fin a ->
    assets_under_management (last rest first) = Fin (last aums a).
Proof.
  intros rest. induction rest as [ | p rest IH]; intros first aums a Haums Ha;
    destruct aums as [ | b aums]; try discriminate Haums.
  - exact Ha.
  - cbn [map] in Haums. injection Haums as Hb Hrest.
    rewrite !last_cons_default. apply IH; assumption.
Qed.

Lemma last_in :
  forall (A : Type) (l : list A) (d : A), In (last l d) (d :: l).
Proof.
  intros A l. induction l as [ | x l IH]; intros d.
  - left. reflexivity.
  - rewrite last_cons_default. right. apply IH.
Qed.

Lemma checkLiquidityRequirements_reals :
  forall (fundData : @FundData Exact.number)
         (performanceData : list PerformanceRow) (aums : list R),
    map assets_under_management performanceData = map Fin aums ->
    Forall (fun a => 0 < a) aums ->
    let recent := last aums 0 in
    let average :=
      fold_left Rplus aums 0 / IZR (Z.of_nat (List.length aums)) in
    compliant (checkLiquidityRequirements fundData performanceData) = true
    <-> (2 <= List.length aums)%nat
        /\ 10000000 <= recent <= 3 / 10 * average.
Proof.
  intros fundData performanceData aums Haums Hpositive recent average.
  destruct performanceData as [ | first rest];
    destruct aums as [ | a0 aums']; try discriminate Haums.
  - cbn. split; [ discriminate | intros [H _]; lia ].
  - pose proof Haums as Hall.
    cbn [map] in Haums. injection Haums as Ha0 Hrest.
    assert (recent = last aums' a0) as Hrecent.
    { unfold recent. apply last_cons_default. }
    assert (0 < recent) as Hrecent_positive.
    { rewrite Forall_forall in Hpositive. apply Hpositive.
      rewrite Hrecent. apply last_in. }
    unfold checkLiquidityRequirements, calculateAverageDailyVolume.
    cbn [compliant LiquidityRequirements_check].
    rewrite (last_AUM_reals rest first aums' a0 Hrest Ha0), <- Hrecent.
    destruct aums' as [ | a1 aums''].
    + (* a single observation *)
      destruct rest; [ | discriminate Hrest ].
      cbn [List.length Nat.ltb Nat.leb].
      change (@of_Z Exact.number 0) with (Fin 0).
      cbn [JS.div JS.leb JS.of_Z Exact.number div leb].
      unfold Reqb.
      destruct (Req_dec_T 0 0) as [_ | H]; [ | contradiction H; reflexivity ].
      destruct (Req_dec_T recent 0) as [H | _]; [ lra | ].
      unfold Rltb. destruct (Rlt_dec recent 0) as [H | _]; [ lra | ].
      cbn [leb]. rewrite andb_false_r.
      split; [ discriminate | intros [H _]; cbn in H; lia ].
    + assert (Nat.ltb (List.length (first :: rest)) 2 = false) as ->.
      { destruct rest; [ discriminate Hrest | reflexivity ]. }
      change (@of_Z Exact.number 0) with (Fin 0).
      rewrite (total_AUM_reals (first :: rest) (a0 :: a1 :: aums'') 0 Hall).
      set (T := fold_left Rplus (a0 :: a1 :: aums'') 0).
      assert (0 < T) as HT.
      { unfold T. rewrite plus_as_sum, (sum_cons (fun a => a)).
        inversion Hpositive as [ | ? ? H0 Hrest']; subst.
        assert (0 <= fold_left (fun s a => s + a) (a1 :: aums'') 0);
          [ | lra ].
        apply (sum_nonnegative (fun a => a)).
        apply Forall_forall. intros x Hx.
        rewrite Forall_forall in Hrest'. apply Rlt_le. apply Hrest'.
        exact Hx. }
      assert (@List.length (@PerformanceRow Exact.number) (first :: rest)
              = List.length (a0 :: a1 :: aums'')) as Hlength.
      { rewrite <- (length_map assets_under_management (first :: rest)),
          Hall, length_map. reflexivity. }
      unfold length_of. rewrite Hlength.
      set (n := IZR (Z.of_nat (List.length (a0 :: a1 :: aums'')))) in *.
      assert (2 <= n) as Hn.
      { unfold n. apply IZR_le. cbn [List.length]. lia. }
      change (@of_Z Exact.number (Z.of_nat (List.length (a0 :: a1 :: aums''))))
        with (Fin n).
      rewrite (div_Fin T n) by lra.
      rewrite dec_exact.
      change (IZR (10 ^ Z.of_nat 2)) with 100.
      cbn [JS.mul Exact.number mul].
      assert (0 < T / n * (1 / 100)) as Hvolume.
      { apply Rmult_lt_0_compat; [ | lra ].
        apply Rdiv_lt_0_compat; lra. }
      rewrite div_Fin by lra.
      cbn [JS.leb JS.of_Z Exact.number leb]. unfold Rleb.
      assert (recent / (T / n * (1 / 100)) <= 30
              <-> recent <= 3 / 10 * average) as Hratio.
      { change average with (T / n).
        assert (0 < T / n) as Haverage by (apply Rdiv_lt_0_compat; lra).
        split; intros H.
        - apply Rmult_le_reg_r with (/ (T / n * (1 / 100))).
          + apply Rinv_0_lt_compat. exact Hvolume.
          + replace (3 / 10 * (T / n) * / (T / n * (1 / 100))) with 30
              by (field; lra).
            exact H.
        - apply Rmult_le_reg_r with (T / n * (1 / 100)); [ exact Hvolume | ].
          replace (recent / (T / n * (1 / 100)) * (T / n * (1 / 100)))
            with recent by (field; lra).
          lra. }
      destruct (Rle_dec 10000000 recent) as [Hmin | Hmin];
        destruct (Rle_dec (recent / (T / n * (1 / 100))) 30)
          as [Hdays | Hdays]; cbn [andb];
        (split; [ intros H; try discriminate H | intros [_ [H1 H2]] ]).
      * split; [ cbn [List.length]; lia | ]. split; [ exact Hmin | ].
        apply Hratio. exact Hdays.
      * reflexivity.
      * exfalso. apply Hdays. apply Hratio. exact H2.
      * contradiction.
      * contradiction.
Qed.

End ExactLiquidity.

(** ** Results on the exact arithmetic *)

(** X12.  In exact arithmetic, on a series of positive NAVs, the maximum
    drawdown is the largest relative decline [(a - b) / a] from a value [a]
    of the series to a later value [b], as a percentage rounded to two
    decimals: the unrounded ratio bounds every such decline, is one of them
    or 0 when the series has none above 0, and lies in [0, 1), so that the
    result lies between 0 and 100. *)
Theorem calculateMaxDrawdown_is_largest_decline :
  forall navValues : list R,
    navValues <> [] ->
    Forall (fun v : R => (0 < v)%R) navValues ->
    exists drawdown : R,
      calculateMaxDrawdown (N := Exact.number) (map Exact.Fin navValues)
      = Exact.Fin (Exact.round_dec 2 (drawdown * 100))
      /\ (0 <= drawdown < 1)%R
      /\ (forall (l1 : list R) (a : R) (l2 : list R) (b : R) (l3 : list R),
             navValues = l1 ++ a :: l2 ++ b :: l3 ->
             ((a - b) / a <= drawdown)%R)
      /\ (drawdown = 0%R
          \/ exists (l1 : list R) (a : R) (l2 : list R) (b : R)
                    (l3 : list R),
               navValues = l1 ++ a :: l2 ++ b :: l3
               /\ drawdown = ((a - b) / a)%R)
      /\ (0 <= Exact.round_dec 2 (drawdown * 100) <= 100)%R.
Proof.
  intros navValues Hne Hpositive.
  destruct (calculateMaxDrawdown_exact navValues Hne Hpositive)
    as (drawdown & Hresult & Hrange & Hbound & Hattained).
  exists drawdown.
  split; [ exact Hresult | ].
  split; [ exact Hrange | ].
  split; [ exact Hbound | ].
  split; [ exact Hattained | ].
  split.
  - apply round_dec_nonnegative. nra.
  - apply (round_dec_upper_bound 2 (drawdown * 100) 100). nra.
Qed.

(** NAVs of 10, 8 and 12. *)
Lemma calculateMaxDrawdown_is_largest_decline_witness :
  exists drawdown : R,
    calculateMaxDrawdown (N := Exact.number)
      (map Exact.Fin [10; 8; 12]%R)
    = Exact.Fin (Exact.round_dec 2 (drawdown * 100))
    /\ ((10 - 8) / 10 <= drawdown < 1)%R.
Proof.
  assert ([10; 8; 12]%R <> []) as Hne by discriminate.
  assert (Forall (fun v : R => (0 < v)%R) [10; 8; 12]%R) as Hpositive
    by (repeat constructor; lra).
  destruct (calculateMaxDrawdown_is_largest_decline _ Hne Hpositive)
    as (drawdown & Hresult & Hrange & Hbound & _).
  exists drawdown. split; [ exact Hresult | ]. split.
  - apply (Hbound [] 10%R [] 8%R [12%R]). reflexivity.
  - apply Hrange.
Defined.

(** X13.  The concentration risk, a Herfindahl index in percent.  In exact
    arithmetic, for allocations that are not negative and not all 0, it lies
    between the rounded [100 / n] of [n] allocations and 100.  On binary64 a
    single allocation gives exactly 100 if it is finite and not 0, the 0 of
    the guard if it is 0, and NaN if it is infinite or NaN.  The
    concentration check of the compliance engine reports this index for the
    allocation percentages, and is compliant exactly when no allocation
    exceeds 20; the index itself never decides it. *)
Theorem calculateConcentrationRisk_bounds :
  (forall allocations : list R,
      allocations <> [] ->
      Forall (fun a : R => (0 <= a)%R) allocations ->
      (0 < fold_left Rplus allocations 0)%R ->
      exists risk : R,
        calculateConcentrationRisk (N := Exact.number)
          (map Exact.Fin allocations)
        = Exact.Fin risk
        /\ (Exact.round_dec 2
              (100 / IZR (Z.of_nat (List.length allocations)))
            <= risk <= 100)%R)
  /\ (forall x : float,
         calculateConcentrationRisk (N := Binary64.number) [x]
         = if is_finite x
           then (if is_zero x then 0%float else 100%float)
           else PrimFloat.nan)
  /\ (forall (N : Number)
             (alternativeInvestments : list AlternativeInvestment),
         let limits := checkConcentrationLimits alternativeInvestments in
         concentrationRisk limits
         = calculateConcentrationRisk
             (map allocation_percentage alternativeInvestments)
         /\ concentration_compliant limits
            = forallb
                (fun inv => negb (ltb (of_Z 20) (allocation_percentage inv)))
                alternativeInvestments
         /\ map violation_type (concentration_violations limits)
            = map investment_type
                (filter
                   (fun inv => ltb (of_Z 20) (allocation_percentage inv))
                   alternativeInvestments)).
Proof.
  split; [ | split ].
  - exact calculateConcentrationRisk_exact.
  - exact calculateConcentrationRisk_single_binary64.
  - intros N alternativeInvestments limits. unfold limits.
    split; [ reflexivity | ]. split.
    + unfold checkConcentrationLimits. cbn [concentration_compliant].
      induction alternativeInvestments as [ | inv rest IH];
        [ reflexivity | ].
      cbn [filter forallb].
      destruct (ltb (of_Z 20) (allocation_percentage inv));
        cbn [negb andb List.length Nat.eqb].
      * reflexivity.
      * exact IH.
    + unfold checkConcentrationLimits. cbn [concentration_violations].
      rewrite map_map. reflexivity.
Qed.

(** Allocations of 50, 30 and 20 per cent. *)
Lemma calculateConcentrationRisk_bounds_witness :
  exists risk : R,
    calculateConcentrationRisk (N := Exact.number)
      (map Exact.Fin [50; 30; 20]%R)
    = Exact.Fin risk
    /\ (Exact.round_dec 2 (100 / IZR (Z.of_nat 3)) <= risk <= 100)%R.
Proof.
  destruct calculateConcentrationRisk_bounds as (Hexact & _).
  apply (Hexact [50; 30; 20]%R).
  - discriminate.
  - repeat constructor; lra.
  - cbn [fold_left]. lra.
Defined.

(** X14.  In exact arithmetic, with every sort of the host that conforms,
    for returns that are not empty and a confidence level in (0, 1], the
    value at risk and the conditional value at risk are both finite numbers
    and the conditional value at risk is at most the value at risk: the mean
    of the returns at or below the threshold, rounded, does not exceed the
    rounded threshold. *)
Theorem calculateCVaR_at_most_VaR :
  forall S : ArraySort Exact.number,
    SortConforms S ->
    forall (returns : list R) (confidenceLevel : R),
      returns <> [] ->
      (0 < confidenceLevel <= 1)%R ->
      exists valueAtRisk conditionalValueAtRisk : R,
        calculateVaR (N := Exact.number) (map Exact.Fin returns)
          (Exact.Fin confidenceLevel)
        = Return (Exact.Fin valueAtRisk)
        /\ calculateCVaR (N := Exact.number) (map Exact.Fin returns)
             (Exact.Fin confidenceLevel)
           = Return (Exact.Fin conditionalValueAtRisk)
        /\ (conditionalValueAtRisk <= valueAtRisk)%R.
Proof.
  intros S C. exact (calculateCVaR_at_most_VaR_exact (S := S)).
Qed.

(** Four returns at a confidence level of one half, with the sample sort. *)
Lemma calculateCVaR_at_most_VaR_witness :
  exists valueAtRisk conditionalValueAtRisk : R,
    calculateVaR (N := Exact.number) (S := insertion_sort)
      (map Exact.Fin [3; -2; 1; -5]%R) (Exact.Fin (1 / 2))
    = Return (Exact.Fin valueAtRisk)
    /\ calculateCVaR (N := Exact.number) (S := insertion_sort)
         (map Exact.Fin [3; -2; 1; -5]%R) (Exact.Fin (1 / 2))
       = Return (Exact.Fin conditionalValueAtRisk)
    /\ (conditionalValueAtRisk <= valueAtRisk)%R.
Proof.
  apply (calculateCVaR_at_most_VaR insertion_sort
           (insertion_sort_conforms Exact.number)
           [3; -2; 1; -5]%R (1 / 2)%R).
  - discriminate.
  - lra.
Defined.

(** X15.  The liquidity check in exact arithmetic, on performance rows whose
    assets under management are positive.  It passes exactly when there are
    at least two rows, the latest assets are at least 10,000,000 and they
    are at most 30 per cent of the average assets over all the rows: the
    average stands for a daily volume and the ratio of the latest assets to
    it must not exceed 0.3.  So a fund whose latest assets are not below
    its average, a fund with steady or growing assets among them, fails the
    check. *)
Theorem checkLiquidityRequirements_verdict :
  forall (fundData : @FundData Exact.number)
         (performanceData : list (@PerformanceRow Exact.number))
         (aums : list R),
    map assets_under_management performanceData = map Exact.Fin aums ->
    Forall (fun a : R => (0 < a)%R) aums ->
    let recent := last aums 0%R in
    let average :=
      (fold_left Rplus aums 0 / IZR (Z.of_nat (List.length aums)))%R in
    (compliant (checkLiquidityRequirements fundData performanceData) = true
     <-> (2 <= List.length aums)%nat
         /\ (10000000 <= recent <= 3 / 10 * average)%R)
    /\ ((average <= recent)%R ->
        compliant (checkLiquidityRequirements fundData performanceData)
        = false).
Proof.
  intros fundData performanceData aums Haums Hpositive recent average.
  pose proof (checkLiquidityRequirements_reals fundData performanceData aums
                Haums Hpositive) as Hiff.
  cbv zeta in Hiff. fold recent average in Hiff.
  split; [ exact Hiff | ].
  intros Hsteady.
  destruct (compliant (checkLiquidityRequirements fundData performanceData))
    eqn:Hcompliant; [ | reflexivity ].
  exfalso.
  destruct Hiff as [Hiff _].
  destruct (Hiff eq_refl) as (_ & Hlow & Hhigh). lra.
Qed.

(** Assets of 100,000,000 on three rows, then 15,000,000: the latest assets
    are under 30 per cent of the average of 78,750,000, and the check
    passes. *)
Lemma checkLiquidityRequirements_verdict_witness :
  compliant
    (checkLiquidityRequirements (N := Exact.number) fixed_income_fund
       (map
          (fun aum : R => observation (N := Exact.number) (Exact.Fin aum))
          [100000000; 100000000; 100000000; 15000000]%R))
  = true.
Proof.
  assert (Forall (fun a : R => (0 < a)%R)
            [100000000; 100000000; 100000000; 15000000]%R) as Hpositive
    by (repeat constructor; lra).
  destruct (checkLiquidityRequirements_verdict fixed_income_fund
              (map
                 (fun aum : R =>
                    observation (N := Exact.number) (Exact.Fin aum))
                 [100000000; 100000000; 100000000; 15000000]%R)
              [100000000; 100000000; 100000000; 15000000]%R
              eq_refl Hpositive) as [[_ Hpasses] _].
  apply Hpasses. split.
  - cbn [List.length]. lia.
  - cbn [last fold_left List.length].
    replace (IZR (Z.of_nat 4)) with 4%R by reflexivity. lra.
Defined.

(** ** Volatility, in exact arithmetic *)

Section ExactVolatility.

Import Exact.
Local Open Scope R_scope.

Lemma sum_permutation :
  forall (g : R -> R) (rs rs' : list R),
    Permutation rs rs' ->
    fold_left (fun s a => s + g a) rs 0 = fold_left (fun s a => s + g a) rs' 0.
Proof.
  intros g rs rs' Hperm. induction Hperm as [ | a l l' _ IH | a b l | ].
  - reflexivity.
  - rewrite !(sum_cons g). rewrite IH. reflexivity.
  - rewrite !(sum_cons g). ring.
  - congruence.
Qed.

Lemma sum_map :
  forall (g h : R -> R) (rs : list R) (x : R),
    fold_left (fun s a => s + g a) (map h rs) x
    = fold_left (fun s a => s + g (h a)) rs x.
Proof.
  intros g h rs. induction rs as [ | a rs IH]; intros x; cbn [map fold_left].
  - reflexivity.
  - apply IH.
Qed.

Lemma squared_deviations_reals :
  forall (m : R) (rs : list R) (x : R),
    fold_left
      (fun (sum ret : @num Exact.number) =>
         JS.add sum (pow2 (JS.sub ret (Fin m))))
      (map Fin rs) (Fin x)
    = Fin (squares_from m rs x).
Proof.
  intros m rs. induction rs as [ | r rs IH]; intros x; cbn [map fold_left].
  - reflexivity.
  - unfold squares_from. cbn [fold_left].
    fold (squares_from m rs (x + (r - m) * (r - m))).
    rewrite <- IH. reflexivity.
Qed.

(** The volatility of finite returns: the rounded square root of the mean
    squared deviation. *)
Lemma calculateVolatility_reals :
  forall rs : list R,
    rs <> [] ->
    let n := IZR (Z.of_nat (List.length rs)) in
    let m := fold_left Rplus rs 0 / n in
    calculateVolatility (N := Exact.number) (map Fin rs)
    = JS.toFixed (Number := Exact.number) 2
        (Fin (R_sqrt.sqrt (squares_from m rs 0 / n)))
    /\ 0 <= squares_from m rs 0 / n.
Proof.
  intros rs Hne n m.
  assert (1 <= n) as Hn.
  { unfold n. apply IZR_le.
    destruct rs; [ contradiction | cbn [List.length]; lia ]. }
  assert (0 <= squares_from m rs 0 / n) as Hvariance.
  { pose proof (squares_from_ge m rs 0) as H.
    apply Rmult_le_reg_r with n; [ lra | ].
    replace (squares_from m rs 0 / n * n) with (squares_from m rs 0)
      by (field; lra).
    lra. }
  split; [ | exact Hvariance ].
  unfold calculateVolatility.
  assert (Nat.eqb (@List.length (@num Exact.number) (map Fin rs)) 0 = false)
    as ->.
  { rewrite length_map. destruct rs; [ contradiction | reflexivity ]. }
  rewrite (mean_reals rs Hne). fold n m.
  change (@of_Z Exact.number 0) with (Fin 0).
  rewrite squared_deviations_reals.
  rewrite length_of_reals, length_map. fold n.
  rewrite div_Fin by lra.
  cbn [JS.sqrt Exact.number sqrt]. unfold Rltb.
  destruct (Rlt_dec (squares_from m rs 0 / n) 0) as [H | _]; [ lra | ].
  reflexivity.
Qed.

Lemma calculateVolatility_nonnegative :
  forall rs : list R,
    exists v : R,
      calculateVolatility (N := Exact.number) (map Fin rs) = Fin v /\ 0 <= v.
Proof.
  intros rs. destruct rs as [ | r rs'] eqn:Hrs.
  - exists 0. split; [ reflexivity | lra ].
  - rewrite <- Hrs.
    assert (rs <> []) as Hne by (rewrite Hrs; discriminate).
    destruct (calculateVolatility_reals rs Hne) as [-> Hvariance].
    cbv zeta in Hvariance.
    set (V := squares_from _ rs 0 / _) in *.
    pose proof (sqrt_pos V) as Hsqrt.
    destruct (toFixed_finite 2 (R_sqrt.sqrt V)) as (v & -> & [-> | ->]).
    + exists (round_dec 2 (R_sqrt.sqrt V)). split; [ reflexivity | ].
      apply round_dec_nonnegative. exact Hsqrt.
    + exists (R_sqrt.sqrt V). split; [ reflexivity | exact Hsqrt ].
Qed.

Lemma calculateVolatility_permutation :
  forall rs rs' : list R,
    Permutation rs rs' ->
    calculateVolatility (N := Exact.number) (map Fin rs)
    = calculateVolatility (N := Exact.number) (map Fin rs').
Proof.
  intros rs rs' Hperm.
  destruct rs as [ | r0 rs0] eqn:Hrs.
  - apply Permutation_nil in Hperm. subst rs'. reflexivity.
  - rewrite <- Hrs in *.
    assert (rs <> []) as Hne by (rewrite Hrs; discriminate).
    assert (rs' <> []) as Hne'.
    { intros ->. apply Permutation_sym, Permutation_nil in Hperm.
      contradiction. }
    destruct (calculateVolatility_reals rs Hne) as [-> _].
    destruct (calculateVolatility_reals rs' Hne') as [-> _].
    cbv zeta.
    rewrite <- (Permutation_length Hperm).
    rewrite (plus_as_sum rs 0), (plus_as_sum rs' 0).
    rewrite <- (sum_permutation (fun a => a) rs rs' Hperm).
    unfold squares_from.
    rewrite <- (sum_permutation _ rs rs' Hperm). reflexivity.
Qed.

Lemma calculateVolatility_translation :
  forall (c : R) (rs : list R),
    calculateVolatility (N := Exact.number)
      (map Fin (map (fun r => r + c) rs))
    = calculateVolatility (N := Exact.number) (map Fin rs).
Proof.
  intros c rs. destruct rs as [ | r0 rs0] eqn:Hrs; [ reflexivity | ].
  rewrite <- Hrs.
  assert (rs <> []) as Hne by (rewrite Hrs; discriminate).
  assert (map (fun r => r + c) rs <> []) as Hne'
    by (rewrite Hrs; discriminate).
  destruct (calculateVolatility_reals rs Hne) as [-> _].
  destruct (calculateVolatility_reals _ Hne') as [-> _].
  cbv zeta. rewrite length_map.
  set (n := IZR (Z.of_nat (List.length rs))).
  assert (1 <= n) as Hn.
  { unfold n. apply IZR_le. rewrite Hrs. cbn [List.length]. lia. }
  assert (fold_left Rplus (map (fun r => r + c) rs) 0
          = fold_left Rplus rs 0 + n * c) as Hsum.
  { rewrite (plus_as_sum rs 0), (plus_as_sum (map _ rs) 0),
      (sum_map (fun a => a)).
    clear. unfold n. induction rs as [ | a rs IH].
    - cbn. ring.
    - rewrite (sum_cons (fun a => a + c)), (sum_cons (fun a => a)), IH.
      cbn [List.length]. rewrite Nat2Z.inj_succ, succ_IZR. ring. }
  rewrite Hsum.
  set (m := fold_left Rplus rs 0 / n).
  replace ((fold_left Rplus rs 0 + n * c) / n) with (m + c)
    by (unfold m; field; lra).
  unfold squares_from.
  rewrite (sum_map (fun a => (a - (m + c)) * (a - (m + c)))).
  rewrite (sum_pointwise (fun a => (a + c - (m + c)) * (a + c - (m + c)))
             (fun a => (a - m) * (a - m))).
  - reflexivity.
  - intros a _. ring.
Qed.

End ExactVolatility.

(** ** A fund measured against itself, in exact arithmetic *)

Section ExactSelfBenchmark.

Import Exact.
Local Open Scope R_scope.

Lemma calculateJensensAlpha_self_exact :
  forall (rs : list R) (riskFreeRate : R),
    rs <> [] ->
    calculateJensensAlpha (N := Exact.number) (map Fin rs) (map Fin rs)
      (Fin riskFreeRate)
    = Fin 0.
Proof.
  intros rs riskFreeRate Hne. unfold calculateJensensAlpha.
  rewrite (calculateBeta_self_exact rs Hne), (mean_reals rs Hne).
  set (m := fold_left Rplus rs 0 / IZR (Z.of_nat (List.length rs))).
  cbn [JS.add JS.sub JS.mul Exact.number add sub mul neg].
  replace (m + - (riskFreeRate + 1 * (m + - riskFreeRate))) with 0 by ring.
  apply toFixed_zero.
Qed.

Lemma calculateTreynorRatio_self_exact :
  forall (rs : list R) (riskFreeRate : R),
    rs <> [] ->
    calculateTreynorRatio (N := Exact.number) (map Fin rs) (map Fin rs)
      (Fin riskFreeRate)
    = JS.toFixed (Number := Exact.number) 3
        (Fin (fold_left Rplus rs 0 / IZR (Z.of_nat (List.length rs))
              - riskFreeRate)).
Proof.
  intros rs riskFreeRate Hne. unfold calculateTreynorRatio.
  rewrite (calculateBeta_self_exact rs Hne), (mean_reals rs Hne).
  set (m := fold_left Rplus rs 0 / IZR (Z.of_nat (List.length rs))).
  change (@of_Z Exact.number 0) with (Fin 0).
  rewrite (eqb_Fin_false 1 0) by lra.
  cbn [JS.sub Exact.number sub add neg].
  rewrite div_Fin by lra.
  do 2 f_equal. field.
Qed.

End ExactSelfBenchmark.

(** ** The tracking error of a constant margin, in exact arithmetic *)

Section ExactTrackingError.

Import Exact.
Local Open Scope R_scope.

Lemma calculateVolatility_constant_exact :
  forall (c : R) (rs : list R),
    Forall (eq c) rs ->
    calculateVolatility (N := Exact.number) (map Fin rs) = Fin 0.
Proof.
  intros c rs Hall. destruct rs as [ | r0 rs0] eqn:Hrs; [ reflexivity | ].
  rewrite <- Hrs in *.
  assert (rs <> []) as Hne by (rewrite Hrs; discriminate).
  destruct (calculateVolatility_reals rs Hne) as [-> _]. cbv zeta.
  assert (1 <= IZR (Z.of_nat (List.length rs))) as Hn.
  { apply IZR_le. rewrite Hrs. cbn [List.length]. lia. }
  rewrite (sum_constant c rs 0 Hall).
  replace ((0 + IZR (Z.of_nat (List.length rs)) * c)
           / IZR (Z.of_nat (List.length rs))) with c by (field; lra).
  assert (squares_from c rs 0 = 0) as ->
    by (apply (squares_from_zero c rs 0); exact Hall).
  replace (0 / IZR (Z.of_nat (List.length rs))) with 0 by (field; lra).
  rewrite R_sqrt.sqrt_0. apply toFixed_zero.
Qed.

Lemma excess_returns_constant :
  forall (c : R) (rs : list R),
    map (fun p => JS.sub (Number := Exact.number) (fst p) (snd p))
      (combine (map Fin (map (fun r => r + c) rs)) (map Fin rs))
    = map Fin (map (fun _ => c) rs).
Proof.
  intros c rs. induction rs as [ | r rs IH]; [ reflexivity | ].
  cbn [map combine fst snd]. rewrite IH. f_equal.
  cbn [JS.sub Exact.number sub add neg]. f_equal. ring.
Qed.

Lemma calculateInformationRatio_constant_margin_exact :
  forall (c : R) (rs : list R),
    calculateInformationRatio (N := Exact.number)
      (map Fin (map (fun r => r + c) rs)) (map Fin rs)
    = Fin 0.
Proof.
  intros c rs. unfold calculateInformationRatio.
  assert (@List.length (@num Exact.number)
            (map Fin (map (fun r => r + c) rs))
          = @List.length (@num Exact.number) (map Fin rs)) as ->
    by (rewrite !length_map; reflexivity).
  rewrite Nat.eqb_refl. cbn [negb orb].
  destruct (Nat.eqb (@List.length (@num Exact.number) (map Fin rs)) 0);
    [ reflexivity | ].
  rewrite excess_returns_constant.
  rewrite (calculateVolatility_constant_exact c).
  - change (@of_Z Exact.number 0) with (Fin 0).
    rewrite (eqb_Fin_true 0 0) by reflexivity. reflexivity.
  - apply Forall_forall. intros x Hx. apply in_map_iff in Hx.
    destruct Hx as (r & <- & _). reflexivity.
Qed.

End ExactTrackingError.

(** X16.  The volatility in exact arithmetic: for any finite returns it is a
    finite number that is not negative, it does not depend on the order of
    the returns, and it is unchanged when the same amount is added to every
    return. *)
Theorem calculateVolatility_invariances :
  (forall returns : list R,
      exists volatility : R,
        calculateVolatility (N := Exact.number) (map Exact.Fin returns)
        = Exact.Fin volatility
        /\ (0 <= volatility)%R)
  /\ (forall returns reordered : list R,
         Permutation returns reordered ->
         calculateVolatility (N := Exact.number) (map Exact.Fin returns)
         = calculateVolatility (N := Exact.number)
             (map Exact.Fin reordered))
  /\ (forall (shift : R) (returns : list R),
         calculateVolatility (N := Exact.number)
           (map Exact.Fin (map (fun r => (r + shift)%R) returns))
         = calculateVolatility (N := Exact.number)
             (map Exact.Fin returns)).
Proof.
  split; [ | split ].
  - exact calculateVolatility_nonnegative.
  - exact calculateVolatility_permutation.
  - exact calculateVolatility_translation.
Qed.

(** X17.  In exact arithmetic, a fund that differs from its benchmark by the
    same margin in every period has an information ratio of 0, however
    large the margin: its excess returns are constant, the tracking error is
    0, and the guard on a zero tracking error answers 0.  With a margin of 0
    this is a fund measured against itself. *)
Theorem calculateInformationRatio_constant_margin :
  forall (margin : R) (benchmarkReturns : list R),
    calculateInformationRatio (N := Exact.number)
      (map Exact.Fin (map (fun r => (r + margin)%R) benchmarkReturns))
      (map Exact.Fin benchmarkReturns)
    = Exact.Fin 0.
Proof. exact calculateInformationRatio_constant_margin_exact. Qed.

(** X18.  In exact arithmetic, a fund measured against itself as the benchmark
    has a beta of 1, and so a Jensen's alpha of 0 and a Treynor ratio equal
    to its mean return in excess of the risk-free rate, rounded to three
    decimals. *)
Theorem fund_against_itself_exact :
  forall (returns : list R) (riskFreeRate : R),
    returns <> [] ->
    let r := map Exact.Fin returns in
    calculateBeta (N := Exact.number) r r = Exact.Fin 1
    /\ calculateJensensAlpha (N := Exact.number) r r
         (Exact.Fin riskFreeRate)
       = Exact.Fin 0
    /\ calculateTreynorRatio (N := Exact.number) r r
         (Exact.Fin riskFreeRate)
       = toFixed (Number := Exact.number) 3
           (Exact.Fin
              (fold_left Rplus returns 0
               / IZR (Z.of_nat (List.length returns))
               - riskFreeRate)%R).
Proof.
  intros returns riskFreeRate Hne r. unfold r. split; [ | split ].
  - apply calculateBeta_self_exact. exact Hne.
  - apply calculateJensensAlpha_self_exact. exact Hne.
  - apply calculateTreynorRatio_self_exact. exact Hne.
Qed.

(** Returns of 1, 2 and 4 against a risk-free rate of 1. *)
Lemma fund_against_itself_exact_witness :
  calculateJensensAlpha (N := Exact.number) (map Exact.Fin [1; 2; 4]%R)
    (map Exact.Fin [1; 2; 4]%R) (Exact.Fin 1)
  = Exact.Fin 0.
Proof.
  assert ([1; 2; 4]%R <> []) as Hne by discriminate.
  destruct (fund_against_itself_exact [1; 2; 4]%R 1%R Hne)
    as (_ & Halpha & _).
  exact Halpha.
Defined.

(** ** Observations that are NaN *)

Section NaNObservations.

Context {N : Number} {P : NaNPropagation N}.
Local Open Scope js_scope.

Lemma sum_with_nan :
  forall (xs : list num) (x : num),
    x = nan \/ In nan xs -> fold_left (fun sum ret => sum + ret) xs x = nan.
Proof.
  intros xs. induction xs as [ | r xs IH]; intros x Hnan; cbn [fold_left].
  - destruct Hnan as [-> | []]. reflexivity.
  - apply IH. destruct Hnan as [-> | [-> | Hin]].
    + left. apply add_nan_l.
    + left. apply add_nan_r.
    + right. exact Hin.
Qed.

Lemma squared_deviations_from_nan :
  forall (xs : list num) (x : num),
    x = nan \/ xs <> [] ->
    fold_left (fun sum ret => sum + pow2 (ret - nan)) xs x = nan.
Proof.
  intros xs. induction xs as [ | r xs IH]; intros x Hnan; cbn [fold_left].
  - destruct Hnan as [-> | H]; [ reflexivity | contradiction ].
  - apply IH. left. unfold pow2. rewrite sub_nan_r, mul_nan_nan.
    apply add_nan_r.
Qed.

Lemma mean_with_nan :
  forall xs : list num, In nan xs -> sum_of xs / length_of xs = nan.
Proof.
  intros xs Hin. unfold sum_of.
  rewrite sum_with_nan by (right; exact Hin). apply div_nan_l.
Qed.

Lemma calculateVolatility_with_nan :
  forall returns : list num,
    In nan returns -> calculateVolatility returns = nan.
Proof.
  intros returns Hin. unfold calculateVolatility.
  destruct returns as [ | r returns'] eqn:Hreturns; [ contradiction | ].
  rewrite <- Hreturns in *.
  assert (Nat.eqb (List.length returns) 0 = false) as ->
    by (rewrite Hreturns; reflexivity).
  rewrite (mean_with_nan returns Hin).
  rewrite squared_deviations_from_nan
    by (right; rewrite Hreturns; discriminate).
  rewrite div_nan_l, sqrt_nan. apply toFixed_nan.
Qed.

Lemma calculateSharpeRatio_with_nan :
  forall (returns : list num) (riskFreeRate : num),
    In nan returns -> calculateSharpeRatio returns riskFreeRate = nan.
Proof.
  intros returns riskFreeRate Hin. unfold calculateSharpeRatio.
  destruct returns as [ | r returns'] eqn:Hreturns; [ contradiction | ].
  rewrite <- Hreturns in *.
  assert (Nat.eqb (List.length returns) 0 = false) as ->
    by (rewrite Hreturns; reflexivity).
  rewrite (mean_with_nan returns Hin).
  rewrite squared_deviations_from_nan
    by (right; rewrite Hreturns; discriminate).
  rewrite div_nan_l, sqrt_nan, eqb_nan_l, div_nan_r. apply toFixed_nan.
Qed.

Lemma calculateSortinoRatio_with_nan :
  forall (returns : list num) (riskFreeRate : num),
    In nan returns -> calculateSortinoRatio returns riskFreeRate = #0.
Proof.
  intros returns riskFreeRate Hin. unfold calculateSortinoRatio.
  destruct (Nat.eqb (List.length returns) 0); [ reflexivity | ].
  rewrite (mean_with_nan returns Hin).
  assert (filter (fun ret => ret <? nan) returns = []) as ->.
  { clear Hin. induction returns as [ | r returns IH]; cbn [filter].
    - reflexivity.
    - rewrite ltb_nan_r. exact IH. }
  reflexivity.
Qed.

Lemma drawdown_step_nan :
  forall st : num * num, drawdown_step st nan = st.
Proof.
  intros [maxDrawdown peak]. unfold drawdown_step.
  rewrite ltb_nan_r, sub_nan_r, div_nan_l, ltb_nan_r. reflexivity.
Qed.

Lemma drawdown_step_nan_peak :
  forall maxDrawdown v : num,
    drawdown_step (maxDrawdown, nan) v = (maxDrawdown, nan).
Proof.
  intros maxDrawdown v. unfold drawdown_step.
  rewrite ltb_nan_l, div_nan_r, ltb_nan_r. reflexivity.
Qed.

Lemma calculateMaxDrawdown_skips_nan :
  forall (first : num) (before after : list num),
    calculateMaxDrawdown (first :: before ++ nan :: after)
    = calculateMaxDrawdown (first :: before ++ after).
Proof.
  intros first before after. unfold calculateMaxDrawdown.
  rewrite !fold_left_app. cbn [fold_left].
  rewrite drawdown_step_nan. reflexivity.
Qed.

Lemma calculateMaxDrawdown_nan_first :
  forall rest : list num,
    calculateMaxDrawdown (nan :: rest) = toFixed 2 (#0 * #100).
Proof.
  intros rest. unfold calculateMaxDrawdown.
  assert (forall maxDrawdown : num,
             fold_left drawdown_step rest (maxDrawdown, nan)
             = (maxDrawdown, nan)) as ->.
  { induction rest as [ | v rest IH]; intros maxDrawdown; cbn [fold_left].
    - reflexivity.
    - rewrite drawdown_step_nan_peak. apply IH. }
  reflexivity.
Qed.

End NaNObservations.

(** X19.  An observation that is NaN, in any arithmetic in which NaN
    propagates and compares false, as it does on binary64 and in the exact
    arithmetic.  A series of returns that contains NaN has a volatility of
    NaN and a Sharpe ratio of NaN, but a Sortino ratio of 0: no return is
    below a NaN mean, and the guard on an empty downside answers 0.  The
    maximum drawdown skips a NaN that follows the first NAV, and is the
    rounded 0 (0 on both instances) whenever the first NAV is NaN, whatever
    follows. *)
Theorem nan_observations :
  (forall N : Number,
      NaNPropagation N ->
      (forall (returns : list num) (riskFreeRate : num),
          In nan returns ->
          calculateVolatility returns = nan
          /\ calculateSharpeRatio returns riskFreeRate = nan
          /\ calculateSortinoRatio returns riskFreeRate = of_Z 0)
      /\ (forall (first : num) (before after : list num),
             calculateMaxDrawdown (first :: before ++ nan :: after)
             = calculateMaxDrawdown (first :: before ++ after))
      /\ (forall rest : list num,
             calculateMaxDrawdown (nan :: rest)
             = toFixed 2 (mul (of_Z 0) (of_Z 100))))
  /\ NaNPropagation Binary64.number
  /\ NaNPropagation Exact.number
  /\ toFixed (Number := Binary64.number) 2 (mul (of_Z 0) (of_Z 100))
     = of_Z 0
  /\ toFixed (Number := Exact.number) 2 (mul (of_Z 0) (of_Z 100))
     = of_Z 0.
Proof.
  split; [ | split; [ | split; [ | split ] ] ].
  - intros N P. split; [ | split ].
    + intros returns riskFreeRate Hin. split; [ | split ].
      * apply calculateVolatility_with_nan. exact Hin.
      * apply calculateSharpeRatio_with_nan. exact Hin.
      * apply calculateSortinoRatio_with_nan. exact Hin.
    + apply calculateMaxDrawdown_skips_nan.
    + apply calculateMaxDrawdown_nan_first.
  - exact binary64_nan_propagation.
  - exact exact_nan_propagation.
  - vm_compute. reflexivity.
  - cbn [mul of_Z Exact.number Exact.mul].
    replace (0 * 100)%R with 0%R by ring. apply toFixed_zero.
Qed.

(** Returns of 1, NaN and 2 on binary64. *)
Lemma nan_observations_witness :
  calculateVolatility (N := Binary64.number) [of_Z 1; nan; of_Z 2] = nan
  /\ calculateSortinoRatio (N := Binary64.number) [of_Z 1; nan; of_Z 2]
       riskFreeRate_default
     = of_Z 0.
Proof.
  destruct nan_observations as (Hany & Hbinary64 & _).
  destruct (Hany Binary64.number Hbinary64) as (Hreturns & _).
  destruct (Hreturns [of_Z 1; nan; of_Z 2] riskFreeRate_default)
    as (Hvolatility & _ & Hsortino).
  - right. left. reflexivity.
  - split; [ exact Hvolatility | exact Hsortino ].
Defined.

(** ** Fee disclosure *)

Section FeeDisclosure.

Context {N : Number}.

Variable fundData : FundData.

Let fee := number_of (management_fee fundData).
Let ratio := number_of (expense_ratio fundData).

Lemma checkFeeDisclosure_violations :
  fee_violations (checkFeeDisclosure fundData)
  = (if ltb (dec 25 1) fee
     then [ManagementFeeExceedsMaximum fee (dec 25 1)] else [])
    ++ (if ltb (of_Z 3) ratio
        then [ExpenseRatioExceedsMaximum ratio (of_Z 3)] else [])
    ++ (if ltb (of_Z 4) (add fee ratio)
        then [TotalFeesExceedMaximum (add fee ratio) (of_Z 4)] else []).
Proof.
  unfold checkFeeDisclosure. fold fee ratio. cbn [fee_violations].
  destruct (ltb (dec 25 1) fee); destruct (ltb (of_Z 3) ratio);
    destruct (ltb (of_Z 4) (add fee ratio)); reflexivity.
Qed.

Lemma checkFeeDisclosure_compliant :
  compliant (checkFeeDisclosure fundData)
  = negb (ltb (dec 25 1) fee) && negb (ltb (of_Z 3) ratio)
    && negb (ltb (of_Z 4) (add fee ratio)).
Proof.
  change (compliant (checkFeeDisclosure fundData))
    with (Nat.eqb
            (List.length (fee_violations (checkFeeDisclosure fundData))) 0).
  rewrite checkFeeDisclosure_violations.
  destruct (ltb (dec 25 1) fee); destruct (ltb (of_Z 3) ratio);
    destruct (ltb (of_Z 4) (add fee ratio)); reflexivity.
Qed.

End FeeDisclosure.

(** X20.  The fee check passes exactly when none of its three comparisons
    holds: management fee above 2.5, expense ratio above 3.0, total above
    4.0; it lists one violation for each that holds, in that order.  A fee
    that is absent reads as NaN, for which no comparison holds and which
    makes the total NaN: with the management fee absent only the expense
    ratio is checked, with the expense ratio absent only the management fee,
    and with both absent the check passes.  In exact arithmetic, for finite
    fees, the check passes exactly when the management fee is at most 2.5,
    the expense ratio at most 3, and their sum at most 4. *)
Theorem checkFeeDisclosure_verdict :
  (forall (N : Number) (fundData : FundData),
      let fee := number_of (management_fee fundData) in
      let ratio := number_of (expense_ratio fundData) in
      compliant (checkFeeDisclosure fundData)
      = negb (ltb (dec 25 1) fee) && negb (ltb (of_Z 3) ratio)
        && negb (ltb (of_Z 4) (add fee ratio))
      /\ List.length (fee_violations (checkFeeDisclosure fundData)) <= 3
      /\ totalFees (checkFeeDisclosure fundData) = add fee ratio)
  /\ (forall (N : Number) (fundData : FundData),
         NaNPropagation N ->
         (management_fee fundData = None ->
          compliant (checkFeeDisclosure fundData)
          = negb (ltb (of_Z 3) (number_of (expense_ratio fundData))))
         /\ (expense_ratio fundData = None ->
             compliant (checkFeeDisclosure fundData)
             = negb (ltb (dec 25 1) (number_of (management_fee fundData))))
         /\ (management_fee fundData = None ->
             expense_ratio fundData = None ->
             compliant (checkFeeDisclosure fundData) = true))
  /\ NaNPropagation Binary64.number
  /\ NaNPropagation Exact.number
  /\ (forall (fundData : @FundData Exact.number) (fee ratio : R),
         management_fee fundData = Some (Exact.Fin fee) ->
         expense_ratio fundData = Some (Exact.Fin ratio) ->
         (compliant (checkFeeDisclosure fundData) = true
          <-> (fee <= 5 / 2 /\ ratio <= 3 /\ fee + ratio <= 4)%R)).
Proof.
  split; [ | split; [ | split; [ | split ] ] ].
  - intros N fundData. cbv zeta. split; [ | split ].
    + apply checkFeeDisclosure_compliant.
    + rewrite checkFeeDisclosure_violations.
      repeat match goal with
             | |- context [if ?b then _ else _] => destruct b
             end; cbn; lia.
    + reflexivity.
  - intros N fundData P. rewrite checkFeeDisclosure_compliant.
    split; [ | split ].
    + intros ->. cbn [number_of].
      rewrite ltb_nan_r, add_nan_l, ltb_nan_r. cbn [negb andb].
      apply andb_true_r.
    + intros ->. cbn [number_of].
      rewrite ltb_nan_r, add_nan_r, ltb_nan_r. cbn [negb andb].
      rewrite !andb_true_r. reflexivity.
    + intros -> ->. cbn [number_of].
      rewrite !ltb_nan_r, add_nan_l, ltb_nan_r. reflexivity.
  - exact binary64_nan_propagation.
  - exact exact_nan_propagation.
  - intros fundData fee ratio Hfee Hratio.
    rewrite checkFeeDisclosure_compliant, Hfee, Hratio. cbn [number_of].
    rewrite dec_exact.
    change (IZR (10 ^ Z.of_nat 1)) with 10%R.
    cbn [ltb add of_Z Exact.number Exact.ltb Exact.add]. unfold Exact.Rltb.
    destruct (Rlt_dec (25 / 10) fee); destruct (Rlt_dec 3 ratio);
      destruct (Rlt_dec 4 (fee + ratio)); cbn [negb andb];
      (split; [ intros H; try discriminate H | intros (H1 & H2 & H3) ]);
      try reflexivity; try lra.
Qed.

(** A fund that records no management fee and an expense ratio of 3, on
    binary64. *)
Lemma checkFeeDisclosure_verdict_witness :
  compliant
    (checkFeeDisclosure (N := Binary64.number)
       {| fund_type := Some "Balanced"; management_fee := None;
          expense_ratio := Some (of_Z 3); inception_date := None |})
  = true.
Proof.
  destruct checkFeeDisclosure_verdict as (_ & Habsent & Hbinary64 & _).
  destruct (Habsent Binary64.number
              {| fund_type := Some "Balanced"; management_fee := None;
                 expense_ratio := Some (of_Z 3); inception_date := None |}
              Hbinary64) as (H & _).
  rewrite H by reflexivity. reflexivity.
Defined.

(** ** Risk levels in the routes *)

Lemma Rleb_integers :
  forall a b : Z, Exact.Rleb (IZR a) (IZR b) = (a <=? b)%Z.
Proof.
  intros a b. unfold Exact.Rleb.
  destruct (Rle_dec (IZR a) (IZR b)) as [H | H];
    destruct (Z.leb_spec a b) as [H' | H']; try reflexivity.
  - apply le_IZR in H. lia.
  - apply IZR_le in H'. contradiction.
Qed.

(** X21.  The helper [getRiskLevel] of the alternative-investments router and
    [getRiskLevel] of the compliance engine name the same level for every
    risk score the engine computes, the score that is not a number among
    them, on binary64; in exact arithmetic they agree on every integer, the
    risk ratings of the rows among them, and on NaN.  On a rating that is
    NaN both answer [High]. *)
Theorem route_risk_level_agrees_with_engine :
  (forall (host : Host) (fundData : @FundData Binary64.number),
      AlternativeInvestmentRoutes.getRiskLevel (N := Binary64.number)
        (score_number (calculateRiskScore host fundData))
      = getRiskLevel (calculateRiskScore host fundData))
  /\ (forall score : RiskScore,
         AlternativeInvestmentRoutes.getRiskLevel (N := Exact.number)
           (score_number score)
         = getRiskLevel score)
  /\ (forall N : Number,
         NaNPropagation N ->
         AlternativeInvestmentRoutes.getRiskLevel nan = "High"
         /\ getRiskLevel NotANumber = "High").
Proof.
  split; [ | split ].
  - intros host fundData.
    destruct (inherits fundData) eqn:Hinherits.
    + rewrite (calculateRiskScore_inherited host fundData Hinherits).
      reflexivity.
    + rewrite (calculateRiskScore_not_inherited
                 (P := binary64_nan_propagation) host fundData Hinherits).
      pose proof (risk_score_range host fundData) as Hrange.
      set (score := risk_score host fundData) in *.
      assert (score = 1 \/ score = 2 \/ score = 3 \/ score = 4 \/ score = 5
              \/ score = 6 \/ score = 7 \/ score = 8 \/ score = 9
              \/ score = 10)%Z as Hcases by lia.
      clearbody score.
      repeat (destruct Hcases as [-> | Hcases]; [ reflexivity | ]).
      subst score. reflexivity.
  - intros [score | ]; [ | reflexivity ].
    unfold AlternativeInvestmentRoutes.getRiskLevel, getRiskLevel,
      score_number.
    cbn [leb of_Z Exact.number Exact.leb].
    rewrite !Rleb_integers. reflexivity.
  - intros N P. split; [ | reflexivity ].
    unfold AlternativeInvestmentRoutes.getRiskLevel.
    rewrite !leb_nan_l. reflexivity.
Qed.
